(** * seo-checker: a shallow embedding of [src/index.js]

    The analysis pipeline of the checker (parameter extraction, metadata
    normalisation, heading and image checks, aggregation, the sitemap and
    robots checks, category scores and the figures of the report) is
    transcribed function by function.  JavaScript strings are
    sequences of UTF-16 code units, regular expressions are values of a
    small backtracking matcher with JavaScript's priorities, and the one
    call that leaves the analysis ([evaluateGenerateSEO], which runs the
    project's own code in a [vm] context) is an event of a small
    interaction monad. *)

From Stdlib Require Import NArith ZArith QArith Qround Lqa.
From Stdlib Require Import Ascii String DecimalString.
From stdpp Require Import gmap list.

Set Default Proof Using "Type".
Local Open Scope N_scope.

(** ** JavaScript strings *)

Module JsString.

(** A UTF-16 code unit, and a string of them. *)
Abbreviation char := N.
Abbreviation jstring := (list N).

(** A source literal as a JavaScript string. *)
Definition str (s : string) : jstring := N_of_ascii <$> list_ascii_of_string s.

(** The double quote, U+0022 *)
Definition dquote : char := 34.

(** [s.startsWith(pat)] *)
Fixpoint startsWith (s pat : jstring) {struct pat} : bool :=
  match pat with
  | [] => true
  | p :: pat' =>
      match s with
      | c :: s' => (c =? p) && startsWith s' pat'
      | [] => false
      end
  end.

(** [s.includes(pat)] *)
Fixpoint includes (s pat : jstring) : bool :=
  startsWith s pat ||
  match s with
  | [] => false
  | _ :: s' => includes s' pat
  end.

(** [s.endsWith(pat)] *)
Definition endsWith (s pat : jstring) : bool :=
  startsWith (reverse s) (reverse pat).

(** [s.replace(pat, rep)] with a string pattern: the first occurrence only. *)
Fixpoint replace (s pat rep : jstring) : jstring :=
  if startsWith s pat then rep ++ drop (length pat) s
  else match s with
       | [] => []
       | c :: s' => c :: replace s' pat rep
       end.

(** WhiteSpace and LineTerminator code units: what [\s] matches and what
    [trim] strips. *)
Definition is_space (c : char) : bool :=
  existsb (N.eqb c)
    [9; 10; 11; 12; 13; 32; 160; 5760; 8232; 8233; 8239; 8287; 12288; 65279]
  || ((8192 <=? c) && (c <=? 8202)).

Fixpoint trimStart (s : jstring) : jstring :=
  match s with
  | c :: s' => if is_space c then trimStart s' else s
  | [] => []
  end.

Definition trimEnd (s : jstring) : jstring := reverse (trimStart (reverse s)).

(** [s.trim()] *)
Definition trim (s : jstring) : jstring := trimEnd (trimStart s).

Definition is_upper (c : char) : bool := (65 <=? c) && (c <=? 90).
Definition is_lower (c : char) : bool := (97 <=? c) && (c <=? 122).

(** [toLowerCase] and [toUpperCase] on the ASCII letters. *)
Definition lower (c : char) : char := if is_upper c then c + 32 else c.
Definition upper (c : char) : char := if is_lower c then c - 32 else c.

(** [xs.join(sep)] *)
Fixpoint join (sep : jstring) (xs : list jstring) : jstring :=
  match xs with
  | [] => []
  | [x] => x
  | x :: xs' => x ++ sep ++ join sep xs'
  end.

(** A natural number inside a template literal: its decimal digits. *)
Definition dec (n : nat) : jstring :=
  str (NilZero.string_of_uint (Nat.to_uint n)).

(** Truthiness of a possibly undefined string. *)
Definition truthy (o : option jstring) : bool :=
  match o with
  | Some (_ :: _) => true
  | _ => false
  end.

End JsString.
Export JsString.

(** ** Regular expressions *)

Module Regex.

(** The patterns of the program repeat one-character classes only, so the
    two stars range over a class. *)
Inductive regex :=
| Chr (p : char → bool)
| Eps
| Seq (r1 r2 : regex)
| Alt (r1 r2 : regex)
| Star (p : char → bool)
| StarLazy (p : char → bool)
| Group (n : nat) (r : regex).

Definition captures := list (nat * jstring).

(** The value of capture group [n]: [None] is [undefined]. *)
Fixpoint group (n : nat) (cs : captures) : option jstring :=
  match cs with
  | [] => None
  | (i, v) :: cs' => if Nat.eqb i n then Some v else group n cs'
  end.

Record MatchResult := {
  whole : jstring;
  groups : captures;
  after : jstring
}.

Section Matcher.
Context {A : Type}.

(** [c*]: as many as possible first. *)
Fixpoint star_greedy (p : char → bool) (s : jstring)
    (k : jstring → option A) : option A :=
  match s with
  | c :: s' =>
      if p c then
        match star_greedy p s' k with
        | Some a => Some a
        | None => k s
        end
      else k s
  | [] => k []
  end.

(** [c*?]: as few as possible first. *)
Fixpoint star_lazy (p : char → bool) (s : jstring)
    (k : jstring → option A) : option A :=
  match k s with
  | Some a => Some a
  | None =>
      match s with
      | c :: s' => if p c then star_lazy p s' k else None
      | [] => None
      end
  end.

(** Backtracking match of [r] at the head of [s]; [k] is the rest of the
    pattern. *)
Fixpoint run (r : regex) (s : jstring) (cs : captures)
    (k : jstring → captures → option A) : option A :=
  match r with
  | Chr p =>
      match s with
      | c :: s' => if p c then k s' cs else None
      | [] => None
      end
  | Eps => k s cs
  | Seq r1 r2 => run r1 s cs (λ s1 c1, run r2 s1 c1 k)
  | Alt r1 r2 =>
      match run r1 s cs k with
      | Some a => Some a
      | None => run r2 s cs k
      end
  | Star p => star_greedy p s (λ s', k s' cs)
  | StarLazy p => star_lazy p s (λ s', k s' cs)
  | Group n r =>
      run r s cs (λ s' c', k s' ((n, take (length s - length s') s) :: c'))
  end.
End Matcher.

(** A match starting exactly at the head of [s]. *)
Definition exec_at (r : regex) (s : jstring) : option MatchResult :=
  run r s [] (λ s' cs,
    Some {| whole := take (length s - length s') s; groups := cs; after := s' |}).

(** [s.match(r)] without the [g] flag: the leftmost match. *)
Fixpoint search (r : regex) (s : jstring) : option MatchResult :=
  match exec_at r s with
  | Some m => Some m
  | None =>
      match s with
      | [] => None
      | _ :: s' => search r s'
      end
  end.

(** [s.match(r)] with the [g] flag: the matched texts, left to right, not
    overlapping.  [skip] counts the code units still covered by the last
    match. *)
Fixpoint matchAll_from (r : regex) (skip : nat) (s : jstring) : list jstring :=
  match s with
  | [] =>
      match skip, exec_at r [] with
      | O, Some m => [whole m]
      | _, _ => []
      end
  | _ :: s' =>
      match skip with
      | S n => matchAll_from r n s'
      | O =>
          match exec_at r s with
          | Some m => whole m :: matchAll_from r (pred (length (whole m))) s'
          | None => matchAll_from r 0 s'
          end
      end
  end.

(** [(s.match(r) || [])] for a global [r]. *)
Definition matchAll (r : regex) (s : jstring) : list jstring := matchAll_from r 0 s.

(** Pattern pieces. *)
Definition only (c : char) : char → bool := N.eqb c.
Definition oneOf (cs : jstring) : char → bool := λ c, existsb (N.eqb c) cs.
Definition noneOf (cs : jstring) : char → bool := λ c, negb (oneOf cs c).
Definition anyChar : char → bool := λ _, true.
Definition between (lo hi : char) : char → bool := λ c, (lo <=? c) && (c <=? hi).
(** A pattern character under the [i] flag *)
Definition isCI (c : char) : char → bool := λ x, (upper x =? upper c).

Fixpoint lit (s : jstring) : regex :=
  match s with
  | [] => Eps
  | c :: s' => Seq (Chr (only c)) (lit s')
  end.

Fixpoint litCI (s : jstring) : regex :=
  match s with
  | [] => Eps
  | c :: s' => Seq (Chr (isCI c)) (litCI s')
  end.

Fixpoint seq (rs : list regex) : regex :=
  match rs with
  | [] => Eps
  | r :: rs' => Seq r (seq rs')
  end.

End Regex.
Export Regex.

(** ** The parameter extractor *)

(** The object built by [extractGenerateSEOParams].  A field that was
    never assigned, or was assigned [undefined], is [None]; the three
    object parameters are only ever set to [true].  [breadcrumb] is read
    by [mapParamsToSchemas] and written nowhere. *)
Module Params.
Record t := mk {
  title : option jstring;
  description : option jstring;
  image : option jstring;
  faqs : option nat;
  branches : option nat;
  services : option nat;
  products : option nat;
  news : option nat;
  grant : bool;
  contactPage : bool;
  awards : bool;
  breadcrumb : bool
}.
End Params.

(** The character class of the three quotes: backtick, double and single. *)
Definition quotes : jstring := [96; dquote; 39].

(** [/generateSEO\s*\(\s*\{([\s\S]*?)\}\s*\)/] *)
Definition generateSEO_re : regex :=
  seq [lit (str "generateSEO"); Star is_space; lit (str "("); Star is_space;
       lit (str "{"); Group 1 (StarLazy anyChar); lit (str "}");
       Star is_space; lit (str ")")].

(** The pattern of a quoted scalar field: the field name and a colon, then
    [\s*], a quote, a captured run of non-quotes and a quote. *)
Definition quoted_re (field : jstring) : regex :=
  seq [lit field; Star is_space; Chr (oneOf quotes);
       Group 1 (Star (noneOf quotes)); Chr (oneOf quotes)].

Definition title_re : regex := quoted_re (str "title:").
Definition description_re : regex := quoted_re (str "description:").

(** The image pattern: the quoted form, or a second alternative between
    backticks whose text is capture 2. *)
Definition image_re : regex :=
  Alt (quoted_re (str "image:"))
      (seq [lit (str "image:"); Star is_space; lit (str "`");
            Group 2 (Star (noneOf (str "`"))); lit (str "`")]).

(** The pattern built for an array parameter: the name and a colon, then
    [\s*], an opening bracket, [([\s\S]*?)] and a closing bracket. *)
Definition array_re (param : jstring) : regex :=
  seq [lit (param ++ str ":"); Star is_space; lit (str "[");
       Group 1 (StarLazy anyChar); lit (str "]")].

(** The pattern built for an object parameter: the same between braces. *)
Definition object_re (param : jstring) : regex :=
  seq [lit (param ++ str ":"); Star is_space; lit (str "{");
       Group 1 (StarLazy anyChar); lit (str "}")].

(** [/\{/g] *)
Definition brace_re : regex := lit (str "{").

(** Capture [n] of the leftmost match, [None] without a match. *)
Definition capture (r : regex) (n : nat) (s : jstring) : option jstring :=
  m ← search r s; group n (groups m).

(** [imageMatch[1] || imageMatch[2]] *)
Definition imageParam (paramString : jstring) : option jstring :=
  m ← search image_re paramString;
  if truthy (group 1 (groups m)) then group 1 (groups m) else group 2 (groups m).

(** One round of the loop over [arrayParams]: the value given to
    [params[param]], [None] when it is left unset. *)
Definition arrayParam (param paramString : jstring) : option nat :=
  match search (array_re param) paramString with
  | Some arrayMatch =>
      let arrayContent := trim (default [] (group 1 (groups arrayMatch))) in
      match arrayContent with
      | _ :: _ =>
          let objectCount := length (matchAll brace_re arrayContent) in
          Some (if (0 <? objectCount)%nat then objectCount else 1%nat)
      | [] => None
      end
  | None => None
  end.

(** One round of the loop over [objectParams]. *)
Definition objectParam (param paramString : jstring) : bool :=
  bool_decide (is_Some (search (object_re param) paramString)).

Definition extractGenerateSEOParams (content : jstring) : option Params.t :=
  match search generateSEO_re content with
  | None => None
  | Some generateSEOMatch =>
      let paramString := default [] (group 1 (groups generateSEOMatch)) in
      Some {|
        Params.title := capture title_re 1 paramString;
        Params.description := capture description_re 1 paramString;
        Params.image := imageParam paramString;
        Params.faqs := arrayParam (str "faqs") paramString;
        Params.branches := arrayParam (str "branches") paramString;
        Params.services := arrayParam (str "services") paramString;
        Params.products := arrayParam (str "products") paramString;
        Params.news := arrayParam (str "news") paramString;
        Params.grant := objectParam (str "grant") paramString;
        Params.contactPage := objectParam (str "contactPage") paramString;
        Params.awards := objectParam (str "awards") paramString;
        Params.breadcrumb := false
      |}
  end.

(** ** The fallback table from parameters to schema types *)

(** [if (cond) schemas.push(x)] *)
Definition pushIf {A} (cond : bool) (x : A) (xs : list A) : list A :=
  if cond then xs ++ [x] else xs.

(** [params.field && params.field > 0] *)
Definition positive (field : option nat) : bool :=
  match field with
  | Some n => (0 <? n)%nat
  | None => false
  end.

(** The text of a count inside a template literal; [undefined] never gets
    that far. *)
Definition count_text (field : option nat) : jstring := dec (default O field).

Definition mapParamsToSchemas (params : option Params.t) : list jstring :=
  match params with
  | None => []
  | Some params =>
      let schemas := [] in
      let schemas := schemas ++ [str "WebPage"] in
      let schemas := schemas ++ [str "Organization"] in
      let schemas := pushIf (positive (Params.faqs params))
        (str "FAQPage (" ++ count_text (Params.faqs params) ++ str " FAQs)") schemas in
      let schemas := pushIf (positive (Params.products params))
        (str "Product (" ++ count_text (Params.products params) ++ str " products)") schemas in
      let schemas := pushIf (positive (Params.services params))
        (str "Service (" ++ count_text (Params.services params) ++ str " services)") schemas in
      let schemas := pushIf (positive (Params.branches params))
        (str "LocalBusiness (" ++ count_text (Params.branches params) ++ str " branches)") schemas in
      let schemas := pushIf (positive (Params.news params))
        (str "NewsArticle (" ++ count_text (Params.news params) ++ str " articles)") schemas in
      let schemas := pushIf (Params.grant params) (str "Grant") schemas in
      let schemas := pushIf (Params.contactPage params) (str "ContactPage") schemas in
      let schemas := pushIf (Params.awards params) (str "Awards") schemas in
      let schemas := pushIf (Params.breadcrumb params) (str "BreadcrumbList") schemas in
      schemas
  end.

(** ** What the evaluator hands back *)

(** The head object returned by the evaluated [generateSEO], as far as the
    checker reads it.  An entry's field is [None] when it is [undefined]. *)
Module MetaEntry.
Record t := mk {
  name : option jstring;
  hid : option jstring;
  property : option jstring;
  content : option jstring
}.
End MetaEntry.

Module GraphItem.
(** A member of the [@graph] array: its [@type] and, when [mainEntity]
    is there, the length of that array. *)
Record t := mk {
  type : option jstring;
  mainEntity : option nat
}.
End GraphItem.

(** What [JSON.parse(seoOutput.script[0].innerHTML)] and the walk over
    [jsonLd['@graph']] come to: an exception, a document without a graph,
    or the graph. *)
Inductive JsonLd :=
| BadJson
| NoGraph
| Graph (items : list GraphItem.t).

Module SeoOutput.
Record t := mk {
  meta : option (list MetaEntry.t);
  (** the [rel] of every entry of [link] *)
  link : option (list (option jstring));
  (** [Some] when [script && script[0] && script[0].innerHTML] holds *)
  script : option JsonLd
}.
End SeoOutput.

(** ** Calling the evaluator *)

(** A computation that may ask for [evaluateGenerateSEO(params, projectRoot)]
    and goes on with the answer, [None] being [null]. *)
Inductive Evaluation (A : Type) :=
| Ret (a : A)
| Evaluate (params : Params.t) (k : option SeoOutput.t → Evaluation A).
Arguments Ret {A} a.
Arguments Evaluate {A} params k.

(** Every result a computation can end with, whatever the evaluator answers. *)
Inductive yields {A} : Evaluation A → A → Prop :=
| yields_Ret a : yields (Ret a) a
| yields_Evaluate params k seoOutput a :
    yields (k seoOutput) a → yields (Evaluate params k) a.

(** The result against one given evaluator. *)
Fixpoint runWith {A} (evaluator : Params.t → option SeoOutput.t)
    (c : Evaluation A) : A :=
  match c with
  | Ret a => a
  | Evaluate params k => runWith evaluator (k (evaluator params))
  end.

(** The parameter sets the evaluator is asked to evaluate, in order. *)
Fixpoint evaluations {A} (evaluator : Params.t → option SeoOutput.t)
    (c : Evaluation A) : list Params.t :=
  match c with
  | Ret _ => []
  | Evaluate params k => params :: evaluations evaluator (k (evaluator params))
  end.

(** ** Exceptions *)

Inductive exn (A : Type) :=
| Returns (a : A)
| Throws.
Arguments Returns {A} a.
Arguments Throws {A}.

Definition exn_bind {A B} (x : exn A) (f : A → exn B) : exn B :=
  match x with
  | Returns a => f a
  | Throws => Throws
  end.

Notation "x ←! e ; k" := (exn_bind e (λ x, k))
  (at level 20, e at level 100, k at level 200, right associativity,
   format "x  ←!  e ;  '/' k").

(** ** The metadata normaliser *)

Module MetaInfo.
Record t := mk {
  title : option jstring;
  description : option jstring;
  (** the own keys of [ogTags]; every value is [true] *)
  ogTags : gset jstring;
  twitterTags : gset jstring;
  canonical : bool;
  issues : list jstring;
  ogImage : option jstring
}.
End MetaInfo.

(** [obj[key] = true] on a plain object: [__proto__] is the inherited
    setter, which ignores a boolean and adds no key. *)
Definition setKey (key : jstring) (obj : gset jstring) : gset jstring :=
  if bool_decide (key = str "__proto__") then obj else {[key]} ∪ obj.

(** [obj[key]] for a key that [Object.prototype] does not have. *)
Definition hasKey (obj : gset jstring) (key : jstring) : bool :=
  bool_decide (key ∈ obj).

(** The title length check, the same lines in both paths of
    [checkMetaTags]. *)
Definition titleLengthIssues (text : jstring) : list jstring :=
  if (length text <? 30)%nat then
    [str "Title too short (" ++ dec (length text) ++ str " chars, recommended: 50-60)"]
  else if (60 <? length text)%nat then
    [str "Title too long (" ++ dec (length text) ++ str " chars, recommended: 50-60)"]
  else [].

(** The description length check, likewise. *)
Definition descriptionLengthIssues (text : jstring) : list jstring :=
  if (length text <? 120)%nat then
    [str "Meta description too short (" ++ dec (length text) ++ str " chars, recommended: 120-160)"]
  else if (160 <? length text)%nat then
    [str "Meta description too long (" ++ dec (length text) ++ str " chars, recommended: 120-160)"]
  else [].

Definition requiredOgTags : list jstring :=
  [str "title"; str "description"; str "image"; str "url"].
Definition requiredTwitterTags : list jstring :=
  [str "card"; str "title"; str "description"; str "image"].

(** The issue for the required tags that [tags] lacks, if any. *)
Definition missingTagIssues (label : jstring) (required : list jstring)
    (tags : gset jstring) : list jstring :=
  let missing := filter (λ tag, negb (hasKey tags tag) = true) required in
  if (0 <? length missing)%nat then [label ++ join (str ", ") missing] else [].

(** [m.name === s], and so on *)
Definition is_str (field : option jstring) (s : jstring) : bool :=
  bool_decide (field = Some s).

(** [m.field && m.field.startsWith(pre)] *)
Definition field_startsWith (field : option jstring) (pre : jstring) : bool :=
  match field with
  | Some v => startsWith v pre
  | None => false
  end.

(** The text whose [length] is read: on [undefined] the read throws. *)
Definition measured (text : option jstring) : exn jstring :=
  match text with
  | Some t => Returns t
  | None => Throws
  end.

(** The first path of [checkMetaTags]: the evaluator gave a head object
    with a [meta] list. *)
Definition checkMetaTags_dynamic (seoOutput : SeoOutput.t)
    (meta : list MetaEntry.t) : exn MetaInfo.t :=
  let issues : list jstring := [] in
  (* title *)
  let titleMeta := find (λ m, is_str (MetaEntry.name m) (str "title")
                              || is_str (MetaEntry.hid m) (str "title")) meta in
  issues1 ←! match titleMeta with
             | Some m => t ←! measured (MetaEntry.content m);
                         Returns (issues ++ titleLengthIssues t)
             | None => Returns issues
             end;
  (* description *)
  let descMeta := find (λ m, is_str (MetaEntry.name m) (str "description")
                             || is_str (MetaEntry.hid m) (str "description")) meta in
  issues2 ←! match descMeta with
             | Some m => d ←! measured (MetaEntry.content m);
                         Returns (issues1 ++ descriptionLengthIssues d)
             | None => Returns issues1
             end;
  (* Open Graph tags *)
  let ogTagsInOutput :=
    filter (λ m, field_startsWith (MetaEntry.property m) (str "og:") = true) meta in
  let og := foldl (λ acc tag,
      let tagName := replace (default [] (MetaEntry.property tag)) (str "og:") [] in
      (setKey tagName acc.1,
       if bool_decide (tagName = str "image") then MetaEntry.content tag else acc.2))
    (∅, None) ogTagsInOutput in
  (* Twitter tags *)
  let twitterTagsInOutput :=
    filter (λ m, field_startsWith (MetaEntry.name m) (str "twitter:") = true) meta in
  let twitterTags := foldl (λ acc tag,
      setKey (replace (default [] (MetaEntry.name tag)) (str "twitter:") []) acc)
    ∅ twitterTagsInOutput in
  (* canonical *)
  let canonical :=
    match SeoOutput.link seoOutput with
    | Some link => existsb (λ rel, is_str rel (str "canonical")) link
    | None => false
    end in
  (* missing required tags *)
  let issues3 := issues2 ++ missingTagIssues (str "Missing Open Graph tags: ") requiredOgTags og.1 in
  let issues4 := issues3 ++ missingTagIssues (str "Missing Twitter Card tags: ") requiredTwitterTags twitterTags in
  let issues5 := if canonical then issues4 else issues4 ++ [str "Missing canonical URL"] in
  Returns {|
    MetaInfo.title := titleMeta ≫= MetaEntry.content;
    MetaInfo.description := descMeta ≫= MetaEntry.content;
    MetaInfo.ogTags := og.1;
    MetaInfo.twitterTags := twitterTags;
    MetaInfo.canonical := canonical;
    MetaInfo.issues := issues5;
    MetaInfo.ogImage := og.2
  |}.

(** The names searched in a page without [generateSEO]. *)
Definition ogTagNames : list jstring :=
  [str "og:title"; str "og:description"; str "og:image"; str "og:url";
   str "og:type"; str "og:site_name"; str "ogTitle"; str "ogDescription";
   str "ogImage"; str "ogUrl"; str "ogType"; str "ogSiteName"].
Definition twitterTagNames : list jstring :=
  [str "twitter:card"; str "twitter:title"; str "twitter:description";
   str "twitter:image"; str "twitter:site"; str "twitterCard";
   str "twitterTitle"; str "twitterDescription"; str "twitterImage"].

(** [tag.replace(prefix, '').replace(/([A-Z])/g, match => match.toLowerCase())] *)
Definition tagKey (prefix tag : jstring) : jstring :=
  lower <$> replace tag prefix [].

(** The loop over the tag names: a name found in the text sets its key. *)
Definition scanTags (prefix : jstring) (names : list jstring)
    (content : jstring) : gset jstring :=
  foldl (λ acc tag, if includes content tag then setKey (tagKey prefix tag) acc else acc)
    ∅ names.

(** The second path of [checkMetaTags]: the text itself. *)
Definition checkMetaTags_static (content : jstring) : MetaInfo.t :=
  let issues : list jstring := [] in
  let titleMatch := capture title_re 1 content in
  let issues :=
    match titleMatch with
    | Some t => issues ++ titleLengthIssues t
    | None => issues ++ [str "Missing page title"]
    end in
  let descMatch := capture description_re 1 content in
  let issues :=
    match descMatch with
    | Some d => issues ++ descriptionLengthIssues d
    | None => issues ++ [str "Missing meta description"]
    end in
  if includes content (str "generateSEO(") then
    {| MetaInfo.title := titleMatch;
       MetaInfo.description := descMatch;
       MetaInfo.ogTags := list_to_set [str "title"; str "description"; str "image";
                                       str "url"; str "type"; str "site_name"];
       MetaInfo.twitterTags := list_to_set [str "card"; str "title"; str "description";
                                            str "image"; str "site"];
       MetaInfo.canonical := true;
       MetaInfo.issues := issues;
       MetaInfo.ogImage := capture (quoted_re (str "image:")) 1 content |}
  else
    let ogTags := scanTags (str "og:") ogTagNames content in
    let issues := issues ++ missingTagIssues (str "Missing Open Graph tags: ") requiredOgTags ogTags in
    let twitterTags := scanTags (str "twitter:") twitterTagNames content in
    let issues := issues ++ missingTagIssues (str "Missing Twitter Card tags: ") requiredTwitterTags twitterTags in
    let canonical := includes content (str "canonical:")
                     || includes content (str "link.*rel.*canonical") in
    let issues := if canonical then issues else issues ++ [str "Missing canonical URL"] in
    {| MetaInfo.title := titleMatch;
       MetaInfo.description := descMatch;
       MetaInfo.ogTags := ogTags;
       MetaInfo.twitterTags := twitterTags;
       MetaInfo.canonical := canonical;
       MetaInfo.issues := issues;
       MetaInfo.ogImage := None |}.

(** [checkMetaTags(content, pageName, seoOutput)]; [pageName] is not used
    by the function. *)
Definition checkMetaTags (content : jstring) (seoOutput : option SeoOutput.t)
    : exn MetaInfo.t :=
  match seoOutput with
  | Some out =>
      match SeoOutput.meta out with
      | Some meta => checkMetaTags_dynamic out meta
      | None => Returns (checkMetaTags_static content)
      end
  | None => Returns (checkMetaTags_static content)
  end.

(** ** Numbers *)

(** Numbers are exact rationals; [Math.round] goes to the nearest integer,
    a half going up. *)
Definition Math_round (x : Q) : Z := Qfloor (x + (1 # 2)).
Definition Math_max (x y : Q) : Q := if Qle_bool x y then y else x.
Definition Math_min (x y : Q) : Q := if Qle_bool x y then x else y.
(** A length or a count as a number *)
Definition num (n : nat) : Q := inject_Z (Z.of_nat n).

(** ** Heading and image checks *)

Module HeadingInfo.
Record t := mk {
  h1Count : nat;
  headings : list nat;
  issues : list jstring
}.
End HeadingInfo.

Module ImageInfo.
Record t := mk {
  totalImages : nat;
  imagesWithAlt : nat;
  imagesWithoutAlt : nat;
  issues : list jstring
}.
End ImageInfo.

(** An opening tag under the [gi] flags: the tag name, [[^>]*] and [>]. *)
Definition tag_re (name : jstring) : regex :=
  seq [litCI name; Star (noneOf (str ">")); lit (str ">")].

(** [/<template[^>]*>([\s\S]*?)<\/template>/] *)
Definition template_re : regex :=
  seq [lit (str "<template"); Star (noneOf (str ">")); lit (str ">");
       Group 1 (StarLazy anyChar); lit (str "</template>")].

(** [/<h1[^>]*>/gi] *)
Definition h1_re : regex := tag_re (str "<h1").

(** [/<h([1-6])[^>]*>/gi] *)
Definition heading_re : regex :=
  seq [litCI (str "<h"); Group 1 (Chr (between 49 54));
       Star (noneOf (str ">")); lit (str ">")].

(** [/<h([1-6])/i] *)
Definition level_re : regex :=
  seq [litCI (str "<h"); Group 1 (Chr (between 49 54))].

(** [/<img[^>]*>/gi] and [/<NuxtImg[^>]*>/gi] *)
Definition img_re : regex := tag_re (str "<img").
Definition nuxtImg_re : regex := tag_re (str "<NuxtImg").

(** [parseInt] of a run of decimal digits *)
Definition parseInt (digits : jstring) : nat :=
  foldl (λ acc d, (acc * 10 + N.to_nat (d - 48))%nat) O digits.

(** [parseInt(heading.match(/<h([1-6])/i)[1])]: indexing a failed match
    throws. *)
Definition headingLevel (heading : jstring) : exn nat :=
  match search level_re heading with
  | Some m => Returns (parseInt (default [] (group 1 (groups m))))
  | None => Throws
  end.

(** The loop over the headings: the levels pushed, the last level and
    whether a level was skipped. *)
Fixpoint walkHeadings (headingMatches : list jstring) (levels : list nat)
    (lastLevel : nat) (hierarchyBroken : bool) : exn (list nat * bool) :=
  match headingMatches with
  | [] => Returns (levels, hierarchyBroken)
  | heading :: rest =>
      level ←! headingLevel heading;
      walkHeadings rest (levels ++ [level]) level
        (hierarchyBroken || ((0 <? lastLevel) && (lastLevel + 1 <? level)))%nat
  end.

Definition checkHeadingStructure (content : jstring) : exn HeadingInfo.t :=
  match search template_re content with
  | Some templateMatch =>
      let template := default [] (group 1 (groups templateMatch)) in
      let h1Matches := matchAll h1_re template in
      let h1Count := length h1Matches in
      let issues : list jstring :=
        if (h1Count =? 0)%nat then [str "No H1 tag found"]
        else if (1 <? h1Count)%nat then
          [str "Multiple H1 tags found (" ++ dec h1Count ++ str "), should have only 1"]
        else [] in
      let headingMatches := matchAll heading_re template in
      walk ←! walkHeadings headingMatches [] 0%nat false;
      Returns {|
        HeadingInfo.h1Count := h1Count;
        HeadingInfo.headings := walk.1;
        HeadingInfo.issues :=
          if walk.2 then issues ++ [str "Heading hierarchy broken (skipped levels)"]
          else issues
      |}
  | None =>
      Returns {| HeadingInfo.h1Count := 0; HeadingInfo.headings := [];
                 HeadingInfo.issues := [] |}
  end.

(** The test of the loop over [allImages] *)
Definition hasAlt (img : jstring) : bool :=
  includes img (str "alt=")
  && negb (includes img (str "alt=" ++ [dquote; dquote]))
  && negb (includes img (str "alt=''")).

Definition isLazy (img : jstring) : bool :=
  includes img (str "loading=" ++ [dquote] ++ str "lazy" ++ [dquote])
  || includes img (str "lazy=").

Definition checkImages (content : jstring) : ImageInfo.t :=
  match search template_re content with
  | Some templateMatch =>
      let template := default [] (group 1 (groups templateMatch)) in
      let imgTags := matchAll img_re template in
      let nuxtImgTags := matchAll nuxtImg_re template in
      let allImages := imgTags ++ nuxtImgTags in
      let totalImages := length allImages in
      let imagesWithAlt := length (filter (λ img, hasAlt img = true) allImages) in
      let imagesWithoutAlt := length (filter (λ img, hasAlt img = false) allImages) in
      let issues : list jstring :=
        if (0 <? imagesWithoutAlt)%nat then
          let altCoverage := Math_round ((num imagesWithAlt / num totalImages) * 100) in
          [dec imagesWithoutAlt ++ str " images missing alt text ("
           ++ dec (Z.to_nat altCoverage) ++ str "% coverage)"]
        else [] in
      let lazyLoadedImages := length (filter (λ img, isLazy img = true) allImages) in
      let issues :=
        if ((2 <? totalImages) && (lazyLoadedImages <? totalImages - 2))%nat then
          issues ++ [str "Consider implementing lazy loading for below-the-fold images"]
        else issues in
      {| ImageInfo.totalImages := totalImages;
         ImageInfo.imagesWithAlt := imagesWithAlt;
         ImageInfo.imagesWithoutAlt := imagesWithoutAlt;
         ImageInfo.issues := issues |}
  | None =>
      {| ImageInfo.totalImages := 0; ImageInfo.imagesWithAlt := 0;
         ImageInfo.imagesWithoutAlt := 0; ImageInfo.issues := [] |}
  end.

(** ** One page *)

Module Page.
(** The record returned by [checkPageSEO] *)
Record t := mk {
  path : jstring;
  pageName : jstring;
  hasGenerateSEO : bool;
  hasUseSeoMeta : bool;
  hasUseHead : bool;
  schemas : list jstring;
  schemaDetails : option Params.t;
  hasSEO : bool;
  metaTags : MetaInfo.t;
  headings : HeadingInfo.t;
  images : ImageInfo.t
}.
End Page.

(** A page file: its path under the pages directory and its text. *)
Record Document := {
  relativePath : jstring;
  content : jstring
}.

(** [config.ignorePaths] *)
Definition ignorePaths : list jstring :=
  [str "purchase/order"; str "purchase/orderLead"; str "purchase";
   str "admin"; str "api"].

(** [relativePath.replace(/\.vue$/, '')] *)
Definition stripVue (relativePath : jstring) : jstring :=
  if endsWith relativePath (str ".vue")
  then take (length relativePath - 4) relativePath
  else relativePath.

(** The type list read off the [@graph] of the evaluator output. *)
Definition graphSchemas (items : list GraphItem.t) : list jstring :=
  (λ item : GraphItem.t,
     let type := default [] (GraphItem.type item) in
     match GraphItem.mainEntity item with
     | Some n =>
         if bool_decide (type = str "FAQPage")
         then type ++ str " (" ++ dec n ++ str " FAQs)"
         else type
     | None => type
     end)
  <$> filter (λ item, truthy (GraphItem.type item) = true) items.

(** The schemas of a page whose parameters were extracted, given the
    answer of the evaluator. *)
Definition schemasOf (extractedParams : Params.t)
    (seoOutput : option SeoOutput.t) : list jstring :=
  match seoOutput with
  | Some out =>
      match SeoOutput.script out with
      | Some (Graph items) => graphSchemas items
      | Some NoGraph => []
      | Some BadJson => mapParamsToSchemas (Some extractedParams)
      | None => mapParamsToSchemas (Some extractedParams)
      end
  | None => mapParamsToSchemas (Some extractedParams)
  end.

(** The legacy detection, run when [schemas] is still empty. *)
Definition legacySchemas (content : jstring) (schemas : list jstring) : list jstring :=
  if (length schemas =? 0)%nat then
    let schemas := pushIf (includes content (str "contactPage:")) (str "ContactPage") schemas in
    let schemas := pushIf (includes content (str "grant:")) (str "Grant") schemas in
    let schemas := pushIf (includes content (str "products:")) (str "Product") schemas in
    let schemas := pushIf (includes content (str "services:")) (str "Service") schemas in
    let schemas := pushIf (includes content (str "faqs:")) (str "FAQPage") schemas in
    let schemas := pushIf (includes content (str "breadcrumb:")
                           || includes content (str "breadcrumbs:"))
                     (str "BreadcrumbList") schemas in
    schemas
  else schemas.

(** The end of [checkPageSEO]: the three checks and the record.  An
    exception is caught by the function, which then returns [null]. *)
Definition pageRecord (doc : Document) (schemas : list jstring)
    (schemaDetails : option Params.t) (seoOutput : option SeoOutput.t)
    : exn (option Page.t) :=
  let hasGenerateSEO := includes (content doc) (str "generateSEO(") in
  let hasUseSeoMeta := includes (content doc) (str "useSeoMeta(") in
  let hasUseHead := includes (content doc) (str "useHead(") in
  metaTagInfo ←! checkMetaTags (content doc) seoOutput;
  headingInfo ←! checkHeadingStructure (content doc);
  let imageInfo := checkImages (content doc) in
  Returns (Some {|
    Page.path := relativePath doc;
    Page.pageName := stripVue (relativePath doc);
    Page.hasGenerateSEO := hasGenerateSEO;
    Page.hasUseSeoMeta := hasUseSeoMeta;
    Page.hasUseHead := hasUseHead;
    Page.schemas := schemas;
    Page.schemaDetails := schemaDetails;
    Page.hasSEO := (hasGenerateSEO || hasUseSeoMeta) && hasUseHead;
    Page.metaTags := metaTagInfo;
    Page.headings := headingInfo;
    Page.images := imageInfo
  |}).

(** [checkPageSEO]: [Returns None] is the [null] of an ignored page,
    [Throws] the [null] of the [catch] clause. *)
Definition checkPageSEO (doc : Document) : Evaluation (exn (option Page.t)) :=
  let shouldIgnore :=
    existsb (λ ignorePath, includes (relativePath doc) ignorePath) ignorePaths in
  if shouldIgnore then Ret (Returns None)
  else
    let hasGenerateSEO := includes (content doc) (str "generateSEO(") in
    if hasGenerateSEO then
      match extractGenerateSEOParams (content doc) with
      | Some extractedParams =>
          Evaluate extractedParams (λ seoOutput,
            Ret (pageRecord doc
                   (legacySchemas (content doc) (schemasOf extractedParams seoOutput))
                   (Some extractedParams) seoOutput))
      | None =>
          Ret (pageRecord doc (legacySchemas (content doc) []) None None)
      end
    else Ret (pageRecord doc [] None None).

(** ** The results object *)

Module CategoryScore.
Record t := mk {
  score : Q;
  maxScore : Q;
  issues : list jstring
}.
End CategoryScore.

Module CategoryScores.
Record t := mk {
  metaTags : CategoryScore.t;
  technicalSEO : CategoryScore.t;
  structuredData : CategoryScore.t;
  imagesMedia : CategoryScore.t;
  socialSharing : CategoryScore.t
}.
End CategoryScores.

Module Results.
(** The fields of [results] that the analysis reads or writes.
    [robotsConfig] is [None] for [null] and otherwise the [configured]
    flag of the object. *)
Record t := mk {
  pagesWithSEO : list Page.t;
  pagesWithoutSEO : list Page.t;
  sitemapPages : list jstring;
  missingFromSitemap : list jstring;
  robotsConfig : option bool;
  imageStats_totalImages : Q;
  imageStats_imagesWithAlt : Q;
  ogImageUsage : gmap jstring (list jstring);
  pagesWithoutOGImage : list jstring;
  categoryScores : CategoryScores.t
}.
End Results.

Definition emptyScore : CategoryScore.t :=
  {| CategoryScore.score := 0; CategoryScore.maxScore := 20;
     CategoryScore.issues := [] |}.

(** The initial value of [results] *)
Definition results0 : Results.t :=
  {| Results.pagesWithSEO := [];
     Results.pagesWithoutSEO := [];
     Results.sitemapPages := [];
     Results.missingFromSitemap := [];
     Results.robotsConfig := None;
     Results.imageStats_totalImages := 0;
     Results.imageStats_imagesWithAlt := 0;
     Results.ogImageUsage := ∅;
     Results.pagesWithoutOGImage := [];
     Results.categoryScores :=
       {| CategoryScores.metaTags := emptyScore;
          CategoryScores.technicalSEO := emptyScore;
          CategoryScores.structuredData := emptyScore;
          CategoryScores.imagesMedia := emptyScore;
          CategoryScores.socialSharing := emptyScore |} |}.

(** ** Aggregation *)

(** The property names every plain object inherits from
    [Object.prototype]: each reads as a function or an object, which is
    truthy and has no [push]. *)
Definition objectPrototypeKeys : list jstring :=
  [str "constructor"; str "__defineGetter__"; str "__defineSetter__";
   str "hasOwnProperty"; str "__lookupGetter__"; str "__lookupSetter__";
   str "isPrototypeOf"; str "propertyIsEnumerable"; str "toString";
   str "valueOf"; str "__proto__"; str "toLocaleString"].

(** [if (!usage[image]) usage[image] = []; usage[image].push(pageName)] *)
Definition trackImage (image pageName : jstring)
    (usage : gmap jstring (list jstring)) : exn (gmap jstring (list jstring)) :=
  match usage !! image with
  | Some pages => Returns (<[image := pages ++ [pageName]]> usage)
  | None =>
      if bool_decide (image ∈ objectPrototypeKeys) then Throws
      else Returns (<[image := [pageName]]> usage)
  end.

(** [result.schemaDetails && result.schemaDetails.image], when truthy *)
Definition imageOf (result : Page.t) : option jstring :=
  match Page.schemaDetails result with
  | Some params => if truthy (Params.image params) then Params.image params else None
  | None => None
  end.

(** The body of the loop over [pageResults] in [main] *)
Definition collect (results : Results.t) (result : exn (option Page.t))
    : exn Results.t :=
  match result with
  | Returns (Some result) =>
      if Page.hasSEO result then
        let pagesWithSEO := Results.pagesWithSEO results ++ [result] in
        match imageOf result with
        | Some image =>
            usage ←! trackImage image (Page.pageName result) (Results.ogImageUsage results);
            Returns {|
              Results.pagesWithSEO := pagesWithSEO;
              Results.pagesWithoutSEO := Results.pagesWithoutSEO results;
              Results.sitemapPages := Results.sitemapPages results;
              Results.missingFromSitemap := Results.missingFromSitemap results;
              Results.robotsConfig := Results.robotsConfig results;
              Results.imageStats_totalImages := Results.imageStats_totalImages results;
              Results.imageStats_imagesWithAlt := Results.imageStats_imagesWithAlt results;
              Results.ogImageUsage := usage;
              Results.pagesWithoutOGImage := Results.pagesWithoutOGImage results;
              Results.categoryScores := Results.categoryScores results |}
        | None =>
            Returns {|
              Results.pagesWithSEO := pagesWithSEO;
              Results.pagesWithoutSEO := Results.pagesWithoutSEO results;
              Results.sitemapPages := Results.sitemapPages results;
              Results.missingFromSitemap := Results.missingFromSitemap results;
              Results.robotsConfig := Results.robotsConfig results;
              Results.imageStats_totalImages := Results.imageStats_totalImages results;
              Results.imageStats_imagesWithAlt := Results.imageStats_imagesWithAlt results;
              Results.ogImageUsage := Results.ogImageUsage results;
              Results.pagesWithoutOGImage :=
                if Page.hasGenerateSEO result
                then Results.pagesWithoutOGImage results ++ [Page.pageName result]
                else Results.pagesWithoutOGImage results;
              Results.categoryScores := Results.categoryScores results |}
        end
      else
        Returns {|
          Results.pagesWithSEO := Results.pagesWithSEO results;
          Results.pagesWithoutSEO := Results.pagesWithoutSEO results ++ [result];
          Results.sitemapPages := Results.sitemapPages results;
          Results.missingFromSitemap := Results.missingFromSitemap results;
          Results.robotsConfig := Results.robotsConfig results;
          Results.imageStats_totalImages := Results.imageStats_totalImages results;
          Results.imageStats_imagesWithAlt := Results.imageStats_imagesWithAlt results;
          Results.ogImageUsage := Results.ogImageUsage results;
          Results.pagesWithoutOGImage := Results.pagesWithoutOGImage results;
          Results.categoryScores := Results.categoryScores results |}
  | Returns None => Returns results
  | Throws => Returns results
  end.

(** [pageResults.forEach(...)]: an exception ends the loop. *)
Fixpoint aggregate (pageResults : list (exn (option Page.t)))
    (results : Results.t) : exn Results.t :=
  match pageResults with
  | [] => Returns results
  | result :: rest =>
      results' ←! collect results result;
      aggregate rest results'
  end.

(** ** Category scores *)

Local Open Scope Q_scope.

(** [issues.map(issue => `${page.pageName}: ${issue}`)] *)
Definition attributed (page : Page.t) (issues : list jstring) : list jstring :=
  (λ issue, Page.pageName page ++ str ": " ++ issue) <$> issues.

(** The first loop of the meta tags score, over [pagesWithSEO]. *)
Definition metaStep (acc : Q * list jstring) (page : Page.t) : Q * list jstring :=
  let issues := MetaInfo.issues (Page.metaTags page) in
  if (0 <? length issues)%nat
  then (acc.1 - num (length issues) * (1 # 2), acc.2 ++ attributed page issues)
  else acc.

(** The second loop, over [pagesWithoutSEO]. *)
Definition metaMissingStep (acc : Q * list jstring) (page : Page.t) : Q * list jstring :=
  (acc.1 - 2, acc.2 ++ [Page.pageName page ++ str ": No SEO implementation"]).

(** The heading loop of the technical score. *)
Definition headingStep (acc : Q * list jstring) (page : Page.t) : Q * list jstring :=
  let issues := HeadingInfo.issues (Page.headings page) in
  if (0 <? length issues)%nat
  then (acc.1 - num (length issues) * (1 # 2), acc.2 ++ attributed page issues)
  else acc.

(** [s.includes('Product') || s.includes('FAQ') || s.includes('LocalBusiness')] *)
Definition isRich (s : jstring) : bool :=
  includes s (str "Product") || includes s (str "FAQ") || includes s (str "LocalBusiness").

(** The loop of the images score: totals and attributed issues. *)
Definition imageStep (acc : Q * Q * list jstring) (page : Page.t) : Q * Q * list jstring :=
  let images := Page.images page in
  (acc.1.1 + num (ImageInfo.totalImages images),
   acc.1.2 + num (ImageInfo.imagesWithoutAlt images),
   if (0 <? length (ImageInfo.issues images))%nat
   then acc.2 ++ attributed page (ImageInfo.issues images)
   else acc.2).

(** The state of the social sharing loop *)
Record SocialAcc := {
  socialScore : Q;
  pagesWithOG : nat;
  pagesWithTwitter : nat;
  socialIssues : list jstring
}.

Definition socialStep (acc : SocialAcc) (page : Page.t) : SocialAcc :=
  let metaTags := Page.metaTags page in
  let ogIssues :=
    filter (λ i, includes i (str "Open Graph") = true) (MetaInfo.issues metaTags) in
  let twitterIssues :=
    filter (λ i, includes i (str "Twitter") = true) (MetaInfo.issues metaTags) in
  let flagged := ((0 <? length ogIssues) || (0 <? length twitterIssues))%nat in
  {| socialScore := if flagged then socialScore acc - 1 else socialScore acc;
     pagesWithOG :=
       if (4 <=? size (MetaInfo.ogTags metaTags))%nat
       then S (pagesWithOG acc) else pagesWithOG acc;
     pagesWithTwitter :=
       if (4 <=? size (MetaInfo.twitterTags metaTags))%nat
       then S (pagesWithTwitter acc) else pagesWithTwitter acc;
     socialIssues :=
       if flagged
       then socialIssues acc ++
            [Page.pageName page ++ str ": " ++ join (str ", ") (ogIssues ++ twitterIssues)]
       else socialIssues acc |}.

(** The social sharing figure that is stored: the loop's running score is
    replaced by the ratio when there are pages. *)
Definition socialFinal (acc : SocialAcc) (totalPages : nat) : Q :=
  if (0 <? totalPages)%nat then
    let ogCoverage := num (pagesWithOG acc) / num totalPages in
    let twitterCoverage := num (pagesWithTwitter acc) / num totalPages in
    inject_Z (Math_round (((ogCoverage + twitterCoverage) / 2) * 20))
  else socialScore acc.

(** [category.score = score; category.issues.push(...issues)] *)
Definition scored (category : CategoryScore.t) (score : Q)
    (issues : list jstring) : CategoryScore.t :=
  {| CategoryScore.score := score;
     CategoryScore.maxScore := CategoryScore.maxScore category;
     CategoryScore.issues := CategoryScore.issues category ++ issues |}.

(** The block of the meta tags score: the running score and the issues. *)
Definition metaTagsBlock (withSEO withoutSEO : list Page.t) : Q * list jstring :=
  foldl metaMissingStep (foldl metaStep (20, []) withSEO) withoutSEO.

(** The block of the technical score. *)
Definition technicalBlock (results : Results.t) : Q * list jstring :=
  let withSEO := Results.pagesWithSEO results in
  let pagesWithoutCanonical :=
    length (filter (λ page, MetaInfo.canonical (Page.metaTags page) = false) withSEO) in
  let tech := foldl headingStep (20 - num pagesWithoutCanonical * 1, []) withSEO in
  let tech :=
    match Results.robotsConfig results with
    | Some true => tech
    | _ => (tech.1 - 3, tech.2 ++ [str "No robots configuration"])
    end in
  let missing := length (Results.missingFromSitemap results) in
  if (0 <? missing)%nat
  then (tech.1 - Math_min 3 (num missing * (1 # 2)),
        tech.2 ++ [dec missing ++ str " pages missing from sitemap"])
  else tech.

(** The block of the structured data score. *)
Definition structuredDataBlock (withSEO : list Page.t) (totalPages : nat) : Q :=
  let pagesWithSchemas :=
    length (filter (λ page, (0 <? length (Page.schemas page))%nat = true) withSEO) in
  let schemaPercentage :=
    if (0 <? totalPages)%nat then num pagesWithSchemas / num totalPages else 0 in
  let schemaScore := inject_Z (Math_round (schemaPercentage * 20)) in
  let hasRichSchemas := existsb (λ page, existsb isRich (Page.schemas page)) withSEO in
  if hasRichSchemas then Math_min 20 (schemaScore + 2) else schemaScore.

(** The score of the images block, from the totals of its loop. *)
Definition imagesScore (totalImages imagesWithoutAlt : Q) : Q :=
  if Qlt_le_dec 0 totalImages
  then inject_Z (Math_round (((totalImages - imagesWithoutAlt) / totalImages) * 20))
  else 20.

(** The loop of the social sharing block. *)
Definition socialBlock (withSEO : list Page.t) : SocialAcc :=
  foldl socialStep
    {| socialScore := 20; pagesWithOG := 0; pagesWithTwitter := 0;
       socialIssues := [] |} withSEO.

Definition calculateCategoryScores (results : Results.t) : Results.t :=
  let withSEO := Results.pagesWithSEO results in
  let withoutSEO := Results.pagesWithoutSEO results in
  let scores := Results.categoryScores results in
  let totalPages := (length withSEO + length withoutSEO)%nat in
  if (totalPages =? 0)%nat then results
  else
    let meta := metaTagsBlock withSEO withoutSEO in
    let tech := technicalBlock results in
    let schemaScore := structuredDataBlock withSEO totalPages in
    let img := foldl imageStep (0, 0, []) withSEO in
    let totalImages := img.1.1 in
    let imagesWithoutAlt := img.1.2 in
    let imageScore := imagesScore totalImages imagesWithoutAlt in
    let social := socialBlock withSEO in
    {| Results.pagesWithSEO := withSEO;
       Results.pagesWithoutSEO := withoutSEO;
       Results.sitemapPages := Results.sitemapPages results;
       Results.missingFromSitemap := Results.missingFromSitemap results;
       Results.robotsConfig := Results.robotsConfig results;
       Results.imageStats_totalImages := totalImages;
       Results.imageStats_imagesWithAlt := totalImages - imagesWithoutAlt;
       Results.ogImageUsage := Results.ogImageUsage results;
       Results.pagesWithoutOGImage := Results.pagesWithoutOGImage results;
       Results.categoryScores :=
         {| CategoryScores.metaTags :=
              scored (CategoryScores.metaTags scores) (Math_max 0 meta.1) meta.2;
            CategoryScores.technicalSEO :=
              scored (CategoryScores.technicalSEO scores) (Math_max 0 tech.1) tech.2;
            CategoryScores.structuredData :=
              scored (CategoryScores.structuredData scores) schemaScore [];
            CategoryScores.imagesMedia :=
              scored (CategoryScores.imagesMedia scores) (Math_max 0 imageScore) img.2;
            CategoryScores.socialSharing :=
              scored (CategoryScores.socialSharing scores)
                     (Math_max 0 (socialFinal social totalPages)) (socialIssues social) |} |}.

Local Close Scope Q_scope.

(** ** The run *)

Fixpoint bind {A B} (c : Evaluation A) (f : A → Evaluation B) : Evaluation B :=
  match c with
  | Ret a => f a
  | Evaluate params k => Evaluate params (λ seoOutput, bind (k seoOutput) f)
  end.

(** [Promise.all(vueFiles.map(file => checkPageSEO(file)))] *)
Fixpoint checkPages (docs : list Document) : Evaluation (list (exn (option Page.t))) :=
  match docs with
  | [] => Ret []
  | doc :: rest =>
      bind (checkPageSEO doc) (λ result,
        bind (checkPages rest) (λ results, Ret (result :: results)))
  end.

(** What [checkSitemap] and [checkRobotsConfig] store *)
Definition withSite (sitemapPages : list jstring) (robotsConfig : option bool)
    (results : Results.t) : Results.t :=
  {| Results.pagesWithSEO := Results.pagesWithSEO results;
     Results.pagesWithoutSEO := Results.pagesWithoutSEO results;
     Results.sitemapPages := sitemapPages;
     Results.missingFromSitemap := Results.missingFromSitemap results;
     Results.robotsConfig := robotsConfig;
     Results.imageStats_totalImages := Results.imageStats_totalImages results;
     Results.imageStats_imagesWithAlt := Results.imageStats_imagesWithAlt results;
     Results.ogImageUsage := Results.ogImageUsage results;
     Results.pagesWithoutOGImage := Results.pagesWithoutOGImage results;
     Results.categoryScores := Results.categoryScores results |}.

(** [main], up to the scores computed at the head of [generateReport]:
    the pages found, what the sitemap and the Nuxt configuration hold. *)
Definition main (docs : list Document) (sitemapPages : list jstring)
    (robotsConfig : option bool) : Evaluation (exn Results.t) :=
  bind (checkPages docs) (λ pageResults,
    Ret (results ←! aggregate pageResults results0;
         Returns (calculateCategoryScores (withSite sitemapPages robotsConfig results)))).

(** ** What the statements speak of *)

Local Close Scope N_scope.

(** The texts a pattern denotes. *)
Fixpoint lang (r : regex) (x : jstring) : Prop :=
  match r with
  | Chr p => ∃ c, x = [c] ∧ p c = true
  | Eps => x = []
  | Seq r1 r2 => ∃ x1 x2, x = x1 ++ x2 ∧ lang r1 x1 ∧ lang r2 x2
  | Alt r1 r2 => lang r1 x ∨ lang r2 x
  | Star p => Forall (λ c, p c = true) x
  | StarLazy p => Forall (λ c, p c = true) x
  | Group _ r => lang r x
  end.

(** Some stretch of [s] is a text of [r]. *)
Definition occurs (r : regex) (s : jstring) : Prop :=
  ∃ before x behind, s = before ++ x ++ behind ∧ lang r x.

(** The continuations of the matcher succeed or fail whatever the
    captures are. *)
Definition blind {A} (k : jstring → captures → option A) : Prop :=
  ∀ s c1 c2, is_Some (k s c1) → is_Some (k s c2).

(** A computation that never calls the evaluator. *)
Definition asksNothing {A} (c : Evaluation A) : Prop := ∃ a, c = Ret a.

(** The number of opening braces in a text. *)
Definition braces (s : jstring) : nat := length (filter (λ c, c = 123%N) s).

(** The names of the loop over [arrayParams], and [params[param]] for
    one of them. *)
Definition arrayParams : list jstring :=
  [str "faqs"; str "branches"; str "services"; str "products"; str "news"].

Definition countOf (param : jstring) (params : Params.t) : option nat :=
  if bool_decide (param = str "faqs") then Params.faqs params
  else if bool_decide (param = str "branches") then Params.branches params
  else if bool_decide (param = str "services") then Params.services params
  else if bool_decide (param = str "products") then Params.products params
  else if bool_decide (param = str "news") then Params.news params
  else None.

(** The entries that [mapParamsToSchemas] pushes for the fields that only
    record a presence. *)
Definition presenceSchemas (params : Params.t) : list jstring :=
  pushIf (Params.breadcrumb params) (str "BreadcrumbList")
    (pushIf (Params.awards params) (str "Awards")
      (pushIf (Params.contactPage params) (str "ContactPage")
        (pushIf (Params.grant params) (str "Grant") []))).

(** An entry of the type list names the type [type]. *)
Definition ofType (type entry : jstring) : bool := startsWith entry type.

(** The four collection types other than the product type. *)
Definition otherCollectionTypes : list jstring :=
  [str "FAQPage"; str "LocalBusiness"; str "Service"; str "NewsArticle"].

(** A page that only calls [useHead]. *)
Definition plainPage : Document :=
  {| relativePath := str "legal/imprint.vue";
     content := str "<script setup>
useHead({ title: 'Imprint' })
</script>" |}.

(** A call with three collections: two objects, two bare names, nothing. *)
Definition catalogueCall : jstring :=
  str "const seo = generateSEO({
  title: 'Product Catalogue - Astra Battery Factory',
  products: [ { name: 'A' }, { name: 'B' } ],
  services: [ repair, recycling ],
  news: [   ]
})".

(** The parameter set of a page whose only collection is five products. *)
Definition fiveProducts : Params.t :=
  {| Params.title := Some (str "Product Catalogue");
     Params.description := None;
     Params.image := None;
     Params.faqs := None;
     Params.branches := None;
     Params.services := None;
     Params.products := Some 5;
     Params.news := None;
     Params.grant := false;
     Params.contactPage := true;
     Params.awards := false;
     Params.breadcrumb := false |}.

(** A parameter set with five products and two FAQs. *)
Definition productsAndFaqs : Params.t :=
  {| Params.title := Some (str "Product Catalogue");
     Params.description := None;
     Params.image := None;
     Params.faqs := Some 2;
     Params.branches := None;
     Params.services := None;
     Params.products := Some 5;
     Params.news := None;
     Params.grant := false;
     Params.contactPage := false;
     Params.awards := false;
     Params.breadcrumb := false |}.



(** How many issues of a kind a list holds. *)
Definition countIssues (kind : jstring → bool) (issues : list jstring) : nat :=
  length (filter (λ issue, kind issue = true) issues).

(** A text of [n] letters. *)
Definition letters (n : nat) : jstring := replicate n 97%N.

(** A page with a title of 38 code units and a description of 218. *)
Definition aboutPage : Document :=
  {| relativePath := str "about.vue";
     content :=
       str "<script setup>
useHead(generateSEO({
  title: 'About Us - Astra Battery Factory Group',
  description: '" ++ letters 218 ++ str "'
}))
</script>" |}.


(** The records among the results of the pages. *)
Definition pagesOf (pageResults : list (exn (option Page.t))) : list Page.t :=
  omap (λ result, match result with Returns (Some page) => Some page | _ => None end)
    pageResults.

(** The short names of the covered pages whose parameters carry [image]. *)
Definition usersOf (image : jstring) (pages : list Page.t) : list jstring :=
  Page.pageName <$>
    filter (λ page, Page.hasSEO page = true ∧ imageOf page = Some image) pages.

(** A page with a call of [generateSEO] that carries an image. *)
Definition homePage : Document :=
  {| relativePath := str "index.vue";
     content := str "<script setup>
useHead(generateSEO({
  title: 'Astra Battery Factory - Car Batteries',
  image: '/img/homepage.png'
}))
</script>" |}.

(** A page covered through [useSeoMeta], without a call of [generateSEO]. *)
Definition seoMetaPage : Document :=
  {| relativePath := str "contact.vue";
     content := str "<script setup>
useSeoMeta({ title: 'Contact Us - Astra Battery Factory' })
useHead({ link: [] })
</script>" |}.

(** An evaluator that is not available, and one with a fixed answer. *)
Definition unavailable : Params.t → option SeoOutput.t := λ _, None.
Definition answering (seoOutput : SeoOutput.t) : Params.t → option SeoOutput.t :=
  λ _, Some seoOutput.

(** A page is counted for a social protocol from four tags on. *)
Definition hasFourOg (page : Page.t) : bool :=
  4 <=? size (MetaInfo.ogTags (Page.metaTags page)).
Definition hasFourTwitter (page : Page.t) : bool :=
  4 <=? size (MetaInfo.twitterTags (Page.metaTags page)).

Definition countPages (test : Page.t → bool) (pages : list Page.t) : nat :=
  length (filter (λ page, test page = true) pages).

(** The rounded mean of two fractions of [total], on the scale of 20 and
    not below 0. *)
Definition socialRatio (withOg withTwitter total : nat) : Q :=
  Math_max 0 (inject_Z (Math_round
    (((num withOg / num total + num withTwitter / num total) / 2) * 20))).


(** The same with the covered pages alone above the line. *)
Definition socialOfCovered (withSEO withoutSEO : list Page.t) : Q :=
  socialRatio (countPages hasFourOg withSEO) (countPages hasFourTwitter withSEO)
    (length withSEO + length withoutSEO).

(** The stored social sharing score once the scores are computed. *)
Definition storedSocial (results : Results.t) : Q :=
  CategoryScore.score (CategoryScores.socialSharing
    (Results.categoryScores (calculateCategoryScores results))).



(** A page that writes its social tags by hand and calls [useHead] only. *)
Definition socialOnlyPage : Document :=
  {| relativePath := str "press.vue";
     content := str "<script setup>
useHead({
  title: 'Press',
  meta: [
    { property: 'og:title', content: 'Press' },
    { property: 'og:description', content: 'News from the factory' },
    { property: 'og:image', content: '/img/press.png' },
    { property: 'og:url', content: 'https://example.com/press' },
    { name: 'twitter:card', content: 'summary' },
    { name: 'twitter:title', content: 'Press' },
    { name: 'twitter:description', content: 'News from the factory' },
    { name: 'twitter:image', content: '/img/press.png' }
  ]
})
</script>" |}.

(** A category score within its range, the maximum being 20. *)
Definition inRange (category : CategoryScore.t) : Prop :=
  (0 <= CategoryScore.score category)%Q ∧
  (CategoryScore.score category <= CategoryScore.maxScore category)%Q ∧
  (CategoryScore.maxScore category == 20)%Q.

Definition sumOfMaxima (scores : CategoryScores.t) : Q :=
  (CategoryScore.maxScore (CategoryScores.metaTags scores)
   + CategoryScore.maxScore (CategoryScores.technicalSEO scores)
   + CategoryScore.maxScore (CategoryScores.structuredData scores)
   + CategoryScore.maxScore (CategoryScores.imagesMedia scores)
   + CategoryScore.maxScore (CategoryScores.socialSharing scores))%Q.

(** The images without alt text are among the images. *)
Definition countsImages (page : Page.t) : Prop :=
  ImageInfo.imagesWithoutAlt (Page.images page) ≤ ImageInfo.totalImages (Page.images page).

(** A page whose call of [generateSEO] names neither title nor
    description. *)
Definition bareCallPage : Document :=
  {| relativePath := str "warranty.vue";
     content := str "<script setup>
useHead(generateSEO({ image: '/img/warranty.png' }))
</script>" |}.

Definition metaProperty (property content : jstring) : MetaEntry.t :=
  {| MetaEntry.name := None; MetaEntry.hid := None;
     MetaEntry.property := Some property; MetaEntry.content := Some content |}.
Definition metaName (name content : jstring) : MetaEntry.t :=
  {| MetaEntry.name := Some name; MetaEntry.hid := None;
     MetaEntry.property := None; MetaEntry.content := Some content |}.

(** A head object with the social tags and the canonical link, and no
    title or description entry in its [meta] list. *)
Definition socialHead : SeoOutput.t :=
  {| SeoOutput.meta := Some
       [metaProperty (str "og:title") (str "Warranty");
        metaProperty (str "og:description") (str "Product warranty");
        metaProperty (str "og:image") (str "/img/warranty.png");
        metaProperty (str "og:url") (str "https://example.com/test-page");
        metaName (str "twitter:card") (str "summary_large_image");
        metaName (str "twitter:title") (str "Warranty");
        metaName (str "twitter:description") (str "Product warranty");
        metaName (str "twitter:image") (str "/img/warranty.png")];
     SeoOutput.link := Some [Some (str "canonical")];
     SeoOutput.script := None |}.

(** The kinds of report of something missing. *)
Definition ogIssue (issue : jstring) : bool :=
  startsWith issue (str "Missing Open Graph tags: ").
Definition twitterIssue (issue : jstring) : bool :=
  startsWith issue (str "Missing Twitter Card tags: ").
Definition canonicalIssue (issue : jstring) : bool :=
  startsWith issue (str "Missing canonical URL").
Definition titleMissing (issue : jstring) : bool :=
  startsWith issue (str "Missing page title").
Definition descriptionMissing (issue : jstring) : bool :=
  startsWith issue (str "Missing meta description").

(** The normaliser takes its first path. *)
Definition viaOutput (seoOutput : option SeoOutput.t) : bool :=
  match seoOutput with
  | Some out => bool_decide (is_Some (SeoOutput.meta out))
  | None => false
  end.

(** The issues a record owes to its title, to its description and to its
    tags, on either path. *)
Definition titlePart (dynamic : bool) (title : option jstring) : list jstring :=
  match title with
  | Some t => titleLengthIssues t
  | None => if dynamic then [] else [str "Missing page title"]
  end.
Definition descriptionPart (dynamic : bool) (description : option jstring)
    : list jstring :=
  match description with
  | Some d => descriptionLengthIssues d
  | None => if dynamic then [] else [str "Missing meta description"]
  end.
Definition tagsPart (info : MetaInfo.t) : list jstring :=
  missingTagIssues (str "Missing Open Graph tags: ") requiredOgTags (MetaInfo.ogTags info)
  ++ missingTagIssues (str "Missing Twitter Card tags: ") requiredTwitterTags
       (MetaInfo.twitterTags info)
  ++ (if MetaInfo.canonical info then [] else [str "Missing canonical URL"]).

(** Two prefixes that part ways at some place. *)
Fixpoint clash (p q : jstring) : bool :=
  match p, q with
  | a :: p', b :: q' => negb (a =? b)%N || clash p' q'
  | _, _ => false
  end.

(** ** The texts of a pattern, with their captures *)

(** [x] is a text of [r] that turns the captures [cs] into [cs']. *)
Fixpoint langc (r : regex) (x : jstring) (cs cs' : captures) : Prop :=
  match r with
  | Chr p => (∃ c, x = [c] ∧ p c = true) ∧ cs' = cs
  | Eps => x = [] ∧ cs' = cs
  | Seq r1 r2 =>
      ∃ x1 x2 c1, x = x1 ++ x2 ∧ langc r1 x1 cs c1 ∧ langc r2 x2 c1 cs'
  | Alt r1 r2 => langc r1 x cs cs' ∨ langc r2 x cs cs'
  | Star p => Forall (λ c, p c = true) x ∧ cs' = cs
  | StarLazy p => Forall (λ c, p c = true) x ∧ cs' = cs
  | Group n r => ∃ c1, langc r x cs c1 ∧ cs' = (n, x) :: c1
  end.

(** A text without any of the three quotes. *)
Definition quoteFree (t : jstring) : Prop := Forall (λ c, noneOf quotes c = true) t.

(** ** The sitemap *)

(** One or more of a class *)
Definition plus (p : char → bool) : regex := Seq (Chr p) (Star p).

(** The pattern of [checkSitemap] under the [g] flag: [loc:], [\s*], a
    quote, one or more non-quotes captured, and a quote. *)
Definition loc_re : regex :=
  seq [lit (str "loc:"); Star is_space; Chr (oneOf quotes);
       Group 1 (plus (noneOf quotes)); Chr (oneOf quotes)].

(** The pattern applied to each match: the quoted part alone. *)
Definition quotedText_re : regex :=
  seq [Chr (oneOf quotes); Group 1 (plus (noneOf quotes)); Chr (oneOf quotes)].

(** [url.replace(/^\//, '')] *)
Definition stripSlash (url : jstring) : jstring :=
  match url with
  | c :: rest => if (c =? 47)%N then rest else url
  | [] => []
  end.

(** The callback of [urlMatches.map]: indexing a failed match throws, and
    so does [replace] on [undefined]. *)
Definition locUrl (text : jstring) : exn jstring :=
  match search quotedText_re text with
  | Some m =>
      match group 1 (groups m) with
      | Some url => Returns (stripSlash url)
      | None => Throws
      end
  | None => Throws
  end.

(** [xs.map(f)] for a callback that may throw *)
Fixpoint mapExn {A B} (f : A → exn B) (xs : list A) : exn (list B) :=
  match xs with
  | [] => Returns []
  | x :: rest =>
      y ←! f x;
      ys ←! mapExn f rest;
      Returns (y :: ys)
  end.

(** The test of the filter, negated *)
Definition isImageUrl (url : jstring) : bool :=
  includes url (str "/img/") || includes url (str ".png") || includes url (str ".jpg").

(** The URLs read off the text of the sitemap file. *)
Definition sitemapUrls (content : jstring) : exn (list jstring) :=
  urls ←! mapExn locUrl (matchAll loc_re content);
  Returns (filter (λ url, isImageUrl url = false) urls).

(** [checkSitemap]: what [results.sitemapPages] is afterwards, given the
    text of the sitemap file when there is one.  A missing file adds a
    warning and an exception an error; both leave the list as it was. *)
Definition checkSitemap (sitemapFile : option jstring)
    (sitemapPages : list jstring) : list jstring :=
  match sitemapFile with
  | Some content =>
      match sitemapUrls content with
      | Returns urls => urls
      | Throws => sitemapPages
      end
  | None => sitemapPages
  end.

(** ** The robots configuration *)

Module RobotsConfig.
Record t := mk {
  configured : bool;
  (** the [module] field, absent from the last object *)
  moduleName : option jstring;
  message : jstring;
  hasEnvironmentRules : bool
}.
End RobotsConfig.

(** [checkRobotsConfig]: what [results.robotsConfig] is afterwards, [None]
    being the initial [null], given the text of the Nuxt configuration
    when that file exists and whether [public/robots.txt] exists. *)
Definition checkRobotsConfig (nuxtConfig : option jstring) (hasRobotsTxt : bool)
    : option RobotsConfig.t :=
  match nuxtConfig with
  | Some content =>
      let hasRobotsModule := includes content (str "@nuxtjs/robots") in
      let hasRobotsConfig := includes content (str "robots:") in
      if hasRobotsModule && hasRobotsConfig then
        Some {| RobotsConfig.configured := true;
                RobotsConfig.moduleName := Some (str "@nuxtjs/robots");
                RobotsConfig.message := str "Robots configuration found in nuxt.config";
                RobotsConfig.hasEnvironmentRules :=
                  includes content (str "process.env.ENV_TYPE")
                  || includes content (str "process.env.NODE_ENV") |}
      else if hasRobotsModule then
        Some {| RobotsConfig.configured := true;
                RobotsConfig.moduleName := Some (str "@nuxtjs/robots");
                RobotsConfig.message :=
                  str "Robots module installed but no configuration found";
                RobotsConfig.hasEnvironmentRules := false |}
      else if hasRobotsTxt then
        Some {| RobotsConfig.configured := true;
                RobotsConfig.moduleName := Some (str "static file");
                RobotsConfig.message := str "Static robots.txt file found";
                RobotsConfig.hasEnvironmentRules := false |}
      else
        Some {| RobotsConfig.configured := false;
                RobotsConfig.moduleName := None;
                RobotsConfig.message := str "No robots configuration found";
                RobotsConfig.hasEnvironmentRules := false |}
  | None => None
  end.

(** [main] from the files it reads: the pages, the sitemap file, the Nuxt
    configuration and the presence of [public/robots.txt]. *)
Definition analyse (docs : list Document) (sitemapFile nuxtConfig : option jstring)
    (hasRobotsTxt : bool) : Evaluation (exn Results.t) :=
  main docs (checkSitemap sitemapFile [])
    (RobotsConfig.configured <$> checkRobotsConfig nuxtConfig hasRobotsTxt).

(** ** The figures of the report *)

(** [Object.values(results.categoryScores)] *)
Definition categoryList (scores : CategoryScores.t) : list CategoryScore.t :=
  [CategoryScores.metaTags scores; CategoryScores.technicalSEO scores;
   CategoryScores.structuredData scores; CategoryScores.imagesMedia scores;
   CategoryScores.socialSharing scores].





(** The critical issues: the first three of every category that has
    issues and a score under six tenths of its maximum. *)
Definition criticalIssues (results : Results.t) : list jstring :=
  foldl (λ acc data,
      if (0 <? length (CategoryScore.issues data))
         && negb (Qle_bool (CategoryScore.maxScore data * (6 # 10))
                           (CategoryScore.score data))
      then acc ++ take 3 (CategoryScore.issues data)
      else acc)
    [] (categoryList (Results.categoryScores results)).

(** The five that are printed *)
Definition shownCriticalIssues (results : Results.t) : list jstring :=
  take 5 (criticalIssues results).

(** [page.pageName === 'index' ? a : b] *)
Definition forIndex {A} (page : Page.t) (a b : A) : A :=
  if bool_decide (Page.pageName page = str "index") then a else b.

(** The pages printed as missing from the sitemap, when the sitemap file
    was found. *)
Definition pagesNotInSitemap (results : Results.t) : list jstring :=
  (λ page, forIndex page (str "/") (str "/" ++ Page.pageName page))
  <$> filter (λ page,
        let pagePath := forIndex page [] (Page.pageName page) in
        negb (bool_decide (pagePath ∈ Results.sitemapPages results))
        && negb (existsb (λ ignore, includes (Page.path page) ignore) ignorePaths)
        = true)
      (Results.pagesWithSEO results).

(** ** Further sample documents *)

(** A call whose title holds an apostrophe and whose image is the empty
    text. *)
Definition apostropheCall : jstring :=
  str "useHead(generateSEO({
  title: 'Driver's Guide to Car Batteries',
  image: '',
  faqs: [ { q: 'How long?' } ]
}))".

(** A head object whose title entry carries no content. *)
Definition titleWithoutContent : SeoOutput.t :=
  {| SeoOutput.meta :=
       Some [ {| MetaEntry.name := Some (str "title"); MetaEntry.hid := None;
                 MetaEntry.property := None; MetaEntry.content := None |} ];
     SeoOutput.link := None;
     SeoOutput.script := None |}.

(** [m.name === field || m.hid === field] *)
Definition named (field : jstring) (m : MetaEntry.t) : Prop :=
  MetaEntry.name m = Some field ∨ MetaEntry.hid m = Some field.

(** A page whose call carries a breadcrumb and two collections. *)
Definition breadcrumbPage : Document :=
  {| relativePath := str "products/index.vue";
     content := str "<script setup>
useHead(generateSEO({
  title: 'Car Batteries - Astra Battery Factory',
  breadcrumb: [ { name: 'Home' }, { name: 'Products' } ],
  products: [ { name: 'A' }, { name: 'B' } ],
  contactPage: { phone: '123' }
}))
</script>" |}.

(** A page that sets its social tags through the camel case keys of
    [useSeoMeta]. *)
Definition camelCasePage : jstring :=
  str "<script setup>
useSeoMeta({
  title: 'Contact Us - Astra Battery Factory',
  ogTitle: 'Contact Us',
  ogDescription: 'How to reach the factory',
  ogImage: '/img/contact.png',
  ogUrl: 'https://example.com/contact'
})
</script>".

(** ** A run against one evaluator *)

(** [shouldIgnore] of [checkPageSEO] *)
Definition ignored (doc : Document) : bool :=
  existsb (λ ignorePath, includes (relativePath doc) ignorePath) ignorePaths.

(** The parameters a document makes the evaluator evaluate, if any. *)
Definition asked (doc : Document) : option Params.t :=
  if ignored doc then None
  else if includes (content doc) (str "generateSEO(")
       then extractGenerateSEOParams (content doc)
       else None.

(** The record of a document, [None] when [checkPageSEO] returns [null]. *)
Definition recordOf (evaluator : Params.t → option SeoOutput.t)
    (doc : Document) : option Page.t :=
  match runWith evaluator (checkPageSEO doc) with
  | Returns (Some page) => Some page
  | _ => None
  end.

(** The records of the documents of a run, in their order. *)
Definition records (evaluator : Params.t → option SeoOutput.t)
    (docs : list Document) : list Page.t :=
  omap (recordOf evaluator) docs.

(** A covered page whose image parameter is [image]. *)
Definition carries (image : jstring) (page : Page.t) : Prop :=
  Page.hasSEO page = true ∧ imageOf page = Some image.

(** A page under an ignored path, and a page whose image is a name every
    object inherits. *)
Definition adminPage : Document :=
  {| relativePath := str "admin/users.vue";
     content := str "<script setup>
useHead(generateSEO({ title: 'Users' }))
</script>" |}.

Definition constructorPage : Document :=
  {| relativePath := str "odd.vue";
     content := str "<script setup>
useHead(generateSEO({ title: 'Odd', image: 'constructor' }))
</script>" |}.

(** A covered page with a call of [generateSEO] and no image parameter. *)
Definition lacksImage (page : Page.t) : Prop :=
  Page.hasSEO page = true ∧ Page.hasGenerateSEO page = true ∧ imageOf page = None.

(** A second page with the image of the home page. *)
Definition productsPage : Document :=
  {| relativePath := str "products.vue";
     content := str "<script setup>
useHead(generateSEO({
  title: 'Car Batteries - Astra Battery Factory',
  image: '/img/homepage.png'
}))
</script>" |}.

(** ** The scores in closed form *)

(** The issues of the pages, each under the name of its page, in the
    order of the pages. *)
Definition allIssues (issuesOf : Page.t → list jstring) (pages : list Page.t)
    : list jstring :=
  pages ≫= (λ page, attributed page (issuesOf page)).

Definition metaIssues (page : Page.t) : list jstring :=
  MetaInfo.issues (Page.metaTags page).
Definition headingIssues (page : Page.t) : list jstring :=
  HeadingInfo.issues (Page.headings page).
Definition imageIssues (page : Page.t) : list jstring :=
  ImageInfo.issues (Page.images page).

(** The covered pages without a canonical link *)
Definition withoutCanonical (pages : list Page.t) : nat :=
  length (filter (λ page, MetaInfo.canonical (Page.metaTags page) = false) pages).

(** Whether a robots module or file is found: the Nuxt configuration
    exists and names the module, or it exists beside [public/robots.txt]. *)
Definition robotsFound (nuxtConfig : option jstring) (hasRobotsTxt : bool) : bool :=
  match nuxtConfig with
  | Some content => includes content (str "@nuxtjs/robots") || hasRobotsTxt
  | None => false
  end.

(** The sums of the image counts over pages *)
Definition imageTotal (count : ImageInfo.t → nat) (pages : list Page.t) : nat :=
  foldr (λ page sum, count (Page.images page) + sum) 0 pages.

(** A Nuxt configuration that names no robots module *)
Definition bareConfig : jstring :=
  str "export default defineNuxtConfig({
  robots: { disallow: ['/admin'] }
})".

(** A covered page with two images, one without an alt text. *)
Definition galleryPage : Document :=
  {| relativePath := str "gallery.vue";
     content := str "<script setup>
useHead(generateSEO({ title: 'Gallery', image: '/img/gallery.png' }))
</script>
<template>
  <h1>Gallery</h1>
  <img src='/img/a.png' alt='Factory floor'>
  <NuxtImg src='/img/b.png' />
</template>" |}.

(** The step of the loop that gathers the critical issues *)
Definition criticalStep (acc : list jstring) (data : CategoryScore.t) : list jstring :=
  if (0 <? length (CategoryScore.issues data))
     && negb (Qle_bool (CategoryScore.maxScore data * (6 # 10))
                       (CategoryScore.score data))
  then acc ++ take 3 (CategoryScore.issues data)
  else acc.

(** ** Heading levels *)




Definition skippingPage : jstring :=
  str "<template>
  <h1>Warranty</h1>
  <h3>Terms</h3>
</template>".

(** A page whose name holds one of the ignored words. *)
Definition rapidPage : Document :=
  {| relativePath := str "rapid-charging.vue";
     content := str "<script setup>
useHead(generateSEO({ title: 'Rapid charging' }))
</script>" |}.

(** A head object whose graph names two types. *)
Definition graphHead : SeoOutput.t :=
  {| SeoOutput.meta := None;
     SeoOutput.link := None;
     SeoOutput.script :=
       Some (Graph [ {| GraphItem.type := Some (str "WebPage");
                        GraphItem.mainEntity := None |};
                     {| GraphItem.type := Some (str "FAQPage");
                        GraphItem.mainEntity := Some 3 |} ]) |}.

(** * Properties *)

(** ** The matcher against the texts of a pattern *)

Section MatcherSpec.
Context {A : Type}.
Implicit Types (p : char → bool) (s x : jstring) (cs : captures).

Lemma star_greedy_spec p s (k : jstring → option A) :
  is_Some (star_greedy p s k) ↔
  ∃ x rest, s = x ++ rest ∧ Forall (λ c, p c = true) x ∧ is_Some (k rest).
Proof.
  induction s as [|c s IH]; simpl.
  - split.
    + intros H. exists [], []. auto.
    + intros (x & rest & Heq & _ & Hk).
      symmetry in Heq. apply app_eq_nil in Heq as [_ ->]. done.
  - destruct (p c) eqn:Hc.
    + split.
      * destruct (star_greedy p s k) eqn:Hin.
        -- intros _. destruct IH as [IH _].
           destruct IH as (x & rest & -> & Hx & Hk); [by eexists|].
           exists (c :: x), rest. auto.
        -- intros Hk. exists [], (c :: s). auto.
      * intros (x & rest & Heq & Hx & Hk).
        destruct x as [|c' x]; simpl in Heq.
        -- subst rest. destruct (star_greedy p s k); [by eexists | done].
        -- injection Heq as <- ->. apply Forall_cons in Hx as [_ Hx].
           destruct IH as [_ IH].
           destruct IH as [a Ha]; [by exists x, rest|].
           rewrite Ha. by eexists.
    + split.
      * intros Hk. exists [], (c :: s). auto.
      * intros (x & rest & Heq & Hx & Hk).
        destruct x as [|c' x]; simpl in Heq; [by subst|].
        injection Heq as <- ->. apply Forall_cons in Hx as [Hx _]. congruence.
Qed.

Lemma star_lazy_spec p s (k : jstring → option A) :
  is_Some (star_lazy p s k) ↔
  ∃ x rest, s = x ++ rest ∧ Forall (λ c, p c = true) x ∧ is_Some (k rest).
Proof.
  induction s as [|c s IH]; simpl.
  - destruct (k []) eqn:Hk.
    + split; [|by eexists]. intros _. exists [], []. rewrite Hk. eauto.
    + split; [intros [? ?]; done|].
      intros (x & rest & Heq & _ & Hr).
      symmetry in Heq. apply app_eq_nil in Heq as [_ ->].
      rewrite Hk in Hr. done.
  - destruct (k (c :: s)) eqn:Hk.
    + split; [|by eexists]. intros _. exists [], (c :: s). rewrite Hk. eauto.
    + destruct (p c) eqn:Hc.
      * rewrite IH. split.
        -- intros (x & rest & -> & Hx & Hr). exists (c :: x), rest. auto.
        -- intros (x & rest & Heq & Hx & Hr).
           destruct x as [|c' x]; simpl in Heq.
           ++ subst rest. rewrite Hk in Hr. by destruct Hr.
           ++ injection Heq as <- ->. apply Forall_cons in Hx as [_ Hx].
              by exists x, rest.
      * split; [intros [? ?]; done|].
        intros (x & rest & Heq & Hx & Hr).
        destruct x as [|c' x]; simpl in Heq.
        -- subst rest. rewrite Hk in Hr. by destruct Hr.
        -- injection Heq as <- ->. apply Forall_cons in Hx as [Hx _]. congruence.
Qed.

(** The matcher finds a match exactly when a text of the pattern heads
    the input and the rest of the pattern accepts what follows. *)
Lemma run_spec (r : regex) :
  ∀ s cs (k : jstring → captures → option A), blind k →
    is_Some (run r s cs k) ↔
    ∃ x rest, s = x ++ rest ∧ lang r x ∧ is_Some (k rest cs).
Proof.
  induction r as [p| |r1 IH1 r2 IH2|r1 IH1 r2 IH2|p|p|n r IH];
    intros s cs k Hk; simpl.
  - destruct s as [|c s].
    + split; [intros [? ?]; done|].
      intros (x & rest & Heq & (c & -> & _) & _). done.
    + destruct (p c) eqn:Hc.
      * split.
        -- intros H. exists [c], s. eauto.
        -- intros (x & rest & Heq & (c' & -> & _) & H).
           by injection Heq as <- ->.
      * split; [intros [? ?]; done|].
        intros (x & rest & Heq & (c' & -> & Hc') & _).
        injection Heq as <- ->. congruence.
  - split.
    + intros H. exists [], s. auto.
    + intros (x & rest & -> & -> & H). done.
  - assert (Hk2 : blind (λ s1 c1, run r2 s1 c1 k)).
    { intros s1 c1 c2. rewrite !IH2 by done.
      intros (x & rest & -> & Hx & H). exists x, rest. eauto. }
    rewrite IH1 by done. split.
    + intros (x1 & rest1 & -> & H1 & H).
      apply IH2 in H as (x2 & rest & -> & H2 & H); [|done].
      exists (x1 ++ x2), rest. rewrite <-(assoc_L (++)). eauto 10.
    + intros (x & rest & -> & (x1 & x2 & -> & H1 & H2) & H).
      exists x1, (x2 ++ rest). rewrite <-(assoc_L (++)).
      split_and!; [done..|]. apply IH2; [done|]. eauto.
  - specialize (IH1 s cs k Hk). specialize (IH2 s cs k Hk).
    destruct (run r1 s cs k) eqn:H1.
    + split; [|by eexists]. intros _.
      destruct IH1 as [IH1 _].
      destruct IH1 as (x & rest & ? & ? & ?); [by eexists|]. eauto 10.
    + rewrite IH2. split.
      * intros (x & rest & ? & ? & ?). eauto 10.
      * intros (x & rest & Heq & [Hx|Hx] & H); [|by eauto].
        destruct IH1 as [_ IH1].
        destruct IH1 as [? ?]; [by eauto|done].
  - rewrite star_greedy_spec. done.
  - rewrite star_lazy_spec. done.
  - rewrite IH.
    + split; intros (x & rest & -> & Hx & H); exists x, rest;
        (split_and!; [done..|]); by eapply Hk.
    + intros s1 c1 c2. apply Hk.
Qed.
End MatcherSpec.

Lemma lang_lit text x : lang (lit text) x ↔ x = text.
Proof.
  revert x. induction text as [|c text IH]; intros x; simpl; [done|]. split.
  - intros (? & ? & -> & (c' & -> & ->%N.eqb_eq) & ->%IH). done.
  - intros ->. exists [c], text. split; [done|]. split; [|by apply IH].
    exists c. unfold only. by rewrite N.eqb_refl.
Qed.

Lemma exec_at_spec r s :
  is_Some (exec_at r s) ↔ ∃ x rest, s = x ++ rest ∧ lang r x.
Proof.
  unfold exec_at. rewrite run_spec.
  - split.
    + intros (x & rest & ? & ? & _). eauto.
    + intros (x & rest & ? & ?). exists x, rest. split_and!; [done..|by eexists].
  - intros ? ? ? _. by eexists.
Qed.

(** [s.match(r)] is not [null] exactly when a text of [r] occurs in [s]. *)
Lemma search_spec r s : is_Some (search r s) ↔ occurs r s.
Proof.
  unfold occurs. induction s as [|c s IH]; simpl.
  - destruct (exec_at r []) eqn:He.
    + split; [|by eexists]. intros _.
      assert (is_Some (exec_at r [])) as H by (by eexists).
      apply exec_at_spec in H as (x & rest & ? & ?). exists [], x, rest. eauto.
    + split; [intros [? ?]; done|].
      intros (before & x & behind & Heq & Hx).
      symmetry in Heq. apply app_eq_nil in Heq as [-> Heq].
      assert (is_Some (exec_at r [])) as [? ?]; [|congruence].
      apply exec_at_spec. eauto.
  - destruct (exec_at r (c :: s)) eqn:He.
    + split; [|by eexists]. intros _.
      assert (is_Some (exec_at r (c :: s))) as H by (by eexists).
      apply exec_at_spec in H as (x & rest & ? & ?). exists [], x, rest. eauto.
    + rewrite IH. split.
      * intros (before & x & behind & -> & Hx). exists (c :: before), x, behind. eauto.
      * intros (before & x & behind & Heq & Hx).
        destruct before as [|c' before]; simpl in Heq.
        -- assert (is_Some (exec_at r (c :: s))) as [? ?]; [|congruence].
           apply exec_at_spec. eauto.
        -- injection Heq as <- ->. eauto.
Qed.

Lemma search_None r s : search r s = None ↔ ¬ occurs r s.
Proof. rewrite <-search_spec, eq_None_not_Some. done. Qed.

(** One case for each member of a list given in full. *)
Ltac members H :=
  repeat (apply elem_of_cons in H as [->|H]);
  try (by apply elem_of_nil in H).

(** ** Strings *)

Lemma startsWith_app s pat : startsWith (pat ++ s) pat = true.
Proof. induction pat as [|p pat IH]; simpl; [done|]. by rewrite N.eqb_refl. Qed.

Lemma startsWith_spec s pat : startsWith s pat = true ↔ ∃ rest, s = pat ++ rest.
Proof.
  split.
  - revert s. induction pat as [|p pat IH]; intros s H; simpl in *; [by eexists|].
    destruct s as [|c s]; [done|].
    apply andb_true_iff in H as [Hc H]. apply N.eqb_eq in Hc as ->.
    apply IH in H as [rest ->]. by eexists.
  - intros [rest ->]. apply startsWith_app.
Qed.

(** [s.includes(pat)] holds exactly when [pat] is a stretch of [s]. *)
Lemma includes_spec s pat :
  includes s pat = true ↔ ∃ before behind, s = before ++ pat ++ behind.
Proof.
  induction s as [|c s IH]; simpl.
  - rewrite orb_false_r, startsWith_spec. split.
    + intros [rest ?]. by exists [], rest.
    + intros (before & behind & Heq). symmetry in Heq.
      apply app_eq_nil in Heq as [_ Heq]. apply app_eq_nil in Heq as [-> ->].
      by exists [].
  - rewrite orb_true_iff, IH, startsWith_spec. split.
    + intros [[rest ->]|(before & behind & ->)].
      * by exists [], rest.
      * by exists (c :: before), behind.
    + intros (before & behind & Heq). destruct before as [|c' before]; simpl in Heq.
      * left. by exists behind.
      * right. injection Heq as <- ->. eauto.
Qed.

(** ** The parameter extractor *)

Lemma capture_Some r n s v :
  capture r n s = Some v ↔ ∃ m, search r s = Some m ∧ group n (groups m) = Some v.
Proof.
  unfold capture. destruct (search r s) as [m|]; simpl.
  - split; [eauto|]. by intros (? & [= <-] & ?).
  - split; [done|]. by intros (? & ? & ?).
Qed.

(** C8: a document text with no call of [generateSEO] on an object
    literal makes the parameter extractor return [null], and the page is
    then analysed without any call of the evaluator. *)
Theorem C8_no_call_no_evaluation (doc : Document) :
  ¬ occurs generateSEO_re (content doc) →
  extractGenerateSEOParams (content doc) = None ∧
  asksNothing (checkPageSEO doc).
Proof.
  intros Hno. apply search_None in Hno.
  assert (Hnull : extractGenerateSEOParams (content doc) = None).
  { unfold extractGenerateSEOParams. by rewrite Hno. }
  split; [done|].
  unfold asksNothing, checkPageSEO. rewrite Hnull.
  destruct (existsb _ ignorePaths); [by eexists|].
  destruct (includes (content doc) _); by eexists.
Qed.

Lemma C8_witness :
  extractGenerateSEOParams (content plainPage) = None ∧
  asksNothing (checkPageSEO plainPage).
Proof.
  apply (C8_no_call_no_evaluation plainPage).
  apply search_None. vm_compute. reflexivity.
Defined.

(** The evaluator is reached only through extracted parameters. *)
Lemma evaluations_extracted evaluator doc params :
  params ∈ evaluations evaluator (checkPageSEO doc) →
  extractGenerateSEOParams (content doc) = Some params.
Proof.
  unfold checkPageSEO.
  destruct (existsb _ ignorePaths); simpl; [by intros ?%elem_of_nil|].
  destruct (includes (content doc) _); simpl; [|by intros ?%elem_of_nil].
  destruct (extractGenerateSEOParams (content doc)); simpl; [|by intros ?%elem_of_nil].
  intros [->|?%elem_of_nil]%elem_of_cons; done.
Qed.

Lemma braces_app s1 s2 : braces (s1 ++ s2) = braces s1 + braces s2.
Proof. unfold braces. by rewrite filter_app, length_app. Qed.

Lemma braces_reverse s : braces (reverse s) = braces s.
Proof. unfold braces. by rewrite filter_reverse, length_reverse. Qed.

Lemma braces_trimStart s : braces (trimStart s) = braces s.
Proof.
  induction s as [|c s IH]; [done|]. simpl.
  destruct (is_space c) eqn:Hc; [|done].
  rewrite IH. unfold braces. rewrite filter_cons.
  destruct (decide (c = 123%N)) as [->|]; [done|done].
Qed.

(** Trimming strips white space only. *)
Lemma braces_trim s : braces (trim s) = braces s.
Proof.
  unfold trim, trimEnd.
  by rewrite braces_reverse, braces_trimStart, braces_reverse, braces_trimStart.
Qed.

Lemma exec_at_char p c s :
  exec_at (Seq (Chr p) Eps) (c :: s) =
  if p c then Some {| whole := [c]; groups := []; after := s |} else None.
Proof.
  unfold exec_at. simpl. destruct (p c); [|done].
  by replace (S (length s) - length s) with 1 by lia.
Qed.

Lemma matchAll_char p s :
  matchAll (Seq (Chr p) Eps) s = (λ c, [c]) <$> filter (λ c, p c = true) s.
Proof.
  unfold matchAll. induction s as [|c s IH]; [done|].
  rewrite filter_cons. cbn [matchAll_from]. rewrite exec_at_char.
  destruct (decide (p c = true)) as [Hc|Hc].
  - rewrite Hc. simpl. by rewrite IH.
  - apply not_true_is_false in Hc. by rewrite Hc.
Qed.

(** The global match of [/\{/g] has one entry for each opening brace. *)
Lemma matchAll_brace s : length (matchAll brace_re s) = braces s.
Proof.
  change brace_re with (Seq (Chr (only 123%N)) Eps).
  rewrite matchAll_char, length_fmap. unfold braces. f_equal.
  apply list_filter_iff. intros c. unfold only. rewrite N.eqb_eq. naive_solver.
Qed.

(** C6: when a collection field's bracketed list is matched in the
    argument text of the call, its count is the number of opening braces
    of the bracketed span if there is one, 1 if there is none and the
    span is not blank, and the field is absent if the span is blank. *)
Theorem C6_collection_count (content paramString param span : jstring) :
  param ∈ arrayParams →
  capture generateSEO_re 1 content = Some paramString →
  capture (array_re param) 1 paramString = Some span →
  ∃ params, extractGenerateSEOParams content = Some params ∧
    (trim span ≠ [] → 0 < braces span → countOf param params = Some (braces span)) ∧
    (trim span ≠ [] → braces span = 0 → countOf param params = Some 1) ∧
    (trim span = [] → countOf param params = None).
Proof.
  intros Hparam (m & Hm & Hg)%capture_Some (am & Ham & Hag)%capture_Some.
  unfold extractGenerateSEOParams. rewrite Hm, Hg. simpl.
  eexists. split; [done|].
  assert (Hone : arrayParam param paramString =
    match trim span with
    | [] => None
    | _ :: _ => Some (if (0 <? braces span)%nat then braces span else 1)
    end).
  { unfold arrayParam. rewrite Ham, Hag. simpl.
    destruct (trim span) eqn:Ht; [done|].
    by rewrite matchAll_brace, <-Ht, braces_trim. }
  assert (Hfield : ∀ params,
    params = {|
        Params.title := capture title_re 1 paramString;
        Params.description := capture description_re 1 paramString;
        Params.image := imageParam paramString;
        Params.faqs := arrayParam (str "faqs") paramString;
        Params.branches := arrayParam (str "branches") paramString;
        Params.services := arrayParam (str "services") paramString;
        Params.products := arrayParam (str "products") paramString;
        Params.news := arrayParam (str "news") paramString;
        Params.grant := objectParam (str "grant") paramString;
        Params.contactPage := objectParam (str "contactPage") paramString;
        Params.awards := objectParam (str "awards") paramString;
        Params.breadcrumb := false
      |} → countOf param params = arrayParam param paramString).
  { intros params ->. unfold arrayParams in Hparam.
    members Hparam; done. }
  rewrite (Hfield _ eq_refl), Hone.
  split_and!.
  - intros Ht Hb. destruct (trim span); [done|].
    by replace (0 <? braces span) with true by (symmetry; apply Nat.ltb_lt; lia).
  - intros Ht Hb. destruct (trim span); [done|]. by rewrite Hb.
  - by intros ->.
Qed.

Lemma C6_witness :
  ∃ params, extractGenerateSEOParams catalogueCall = Some params ∧
    (trim (str " { name: 'A' }, { name: 'B' } ") ≠ [] →
     0 < braces (str " { name: 'A' }, { name: 'B' } ") →
     countOf (str "products") params = Some (braces (str " { name: 'A' }, { name: 'B' } "))) ∧
    (trim (str " { name: 'A' }, { name: 'B' } ") ≠ [] →
     braces (str " { name: 'A' }, { name: 'B' } ") = 0 →
     countOf (str "products") params = Some 1) ∧
    (trim (str " { name: 'A' }, { name: 'B' } ") = [] →
     countOf (str "products") params = None).
Proof.
  apply (C6_collection_count catalogueCall
           (default [] (capture generateSEO_re 1 catalogueCall)) (str "products")).
  - vm_compute. do 3 right. left.
  - vm_compute. reflexivity.
  - vm_compute. reflexivity.
Defined.

Example extract_catalogue :
  (λ params, (Params.products params, Params.services params, Params.news params))
    <$> extractGenerateSEOParams catalogueCall
  = Some (Some 2, Some 1, None).
Proof. vm_compute. reflexivity. Qed.

(** ** The fallback table *)

Lemma mapParamsToSchemas_five params :
  Params.products params = Some 5 →
  Params.faqs params = None → Params.branches params = None →
  Params.services params = None → Params.news params = None →
  mapParamsToSchemas (Some params) =
  [str "WebPage"; str "Organization"; str "Product (5 products)"]
  ++ presenceSchemas params.
Proof.
  intros Hp Hf Hb Hs Hn. unfold mapParamsToSchemas, presenceSchemas.
  rewrite Hp, Hf, Hb, Hs, Hn.
  destruct (Params.grant params), (Params.contactPage params),
    (Params.awards params), (Params.breadcrumb params); reflexivity.
Qed.

Lemma presenceSchemas_types params entry type :
  entry ∈ presenceSchemas params → type ∈ otherCollectionTypes →
  ofType type entry = false.
Proof.
  unfold presenceSchemas, otherCollectionTypes, pushIf. intros He Ht.
  destruct (Params.grant params), (Params.contactPage params),
    (Params.awards params), (Params.breadcrumb params); simpl in He;
    members He; members Ht; reflexivity.
Qed.

(** C7, as the code has it: for a parameter set with a products count of
    5 and no other collection field, and an evaluator that gives no
    output, the type list of the page has the entry
    [Product (5 products)] and no entry of the FAQ, local business,
    service or news types; it is the two base types, that entry, and the
    entries of the presence-only fields. *)
Theorem C7_five_products (content : jstring) (params : Params.t) :
  Params.products params = Some 5 →
  Params.faqs params = None → Params.branches params = None →
  Params.services params = None → Params.news params = None →
  let schemas := legacySchemas content (schemasOf params None) in
  schemas = mapParamsToSchemas (Some params) ∧
  schemas = [str "WebPage"; str "Organization"; str "Product (5 products)"]
            ++ presenceSchemas params ∧
  str "Product (5 products)" ∈ schemas ∧
  ∀ entry type, entry ∈ schemas → type ∈ otherCollectionTypes →
    ofType type entry = false.
Proof.
  intros Hp Hf Hb Hs Hn schemas.
  assert (Hmap := mapParamsToSchemas_five params Hp Hf Hb Hs Hn).
  assert (Hs1 : schemas = mapParamsToSchemas (Some params)).
  { unfold schemas, schemasOf, legacySchemas. by rewrite Hmap. }
  split; [done|]. rewrite Hs1, Hmap. split; [done|]. split.
  - apply elem_of_app. left. do 2 right. left.
  - intros entry type [He|He]%elem_of_app Ht.
    + unfold otherCollectionTypes in Ht. members He; members Ht; reflexivity.
    + by eapply presenceSchemas_types.
Qed.

Lemma C7_witness :
  let schemas := legacySchemas [] (schemasOf fiveProducts None) in
  schemas = mapParamsToSchemas (Some fiveProducts) ∧
  schemas = [str "WebPage"; str "Organization"; str "Product (5 products)"]
            ++ presenceSchemas fiveProducts ∧
  str "Product (5 products)" ∈ schemas ∧
  ∀ entry type, entry ∈ schemas → type ∈ otherCollectionTypes →
    ofType type entry = false.
Proof.
  apply (C7_five_products [] fiveProducts); reflexivity.
Defined.

(** With five products and two FAQs the list has an entry of the FAQ
    type next to the one of the product type. *)
Lemma C7_counterexample :
  Params.products productsAndFaqs = Some 5 ∧
  let schemas := legacySchemas [] (schemasOf productsAndFaqs None) in
  schemas = [str "WebPage"; str "Organization"; str "FAQPage (2 FAQs)";
             str "Product (5 products)"] ∧
  ∃ entry type, entry ∈ schemas ∧ type ∈ otherCollectionTypes ∧
                ofType type entry = true.
Proof.
  split; [reflexivity|]. split; [vm_compute; reflexivity|].
  exists (str "FAQPage (2 FAQs)"), (str "FAQPage"). split_and!.
  - apply (bool_decide_unpack _). vm_compute. exact I.
  - apply (bool_decide_unpack _). vm_compute. exact I.
  - reflexivity.
Qed.

(** ** Heading and image checks *)

(** C10: a document text without a template region gets zero counts and
    no issue from the heading check and from the image check. *)
Theorem C10_no_template (content : jstring) :
  ¬ occurs template_re content →
  checkHeadingStructure content =
    Returns {| HeadingInfo.h1Count := 0; HeadingInfo.headings := [];
               HeadingInfo.issues := [] |} ∧
  checkImages content =
    {| ImageInfo.totalImages := 0; ImageInfo.imagesWithAlt := 0;
       ImageInfo.imagesWithoutAlt := 0; ImageInfo.issues := [] |}.
Proof.
  intros Hno%search_None. unfold checkHeadingStructure, checkImages.
  by rewrite Hno.
Qed.

Lemma C10_witness :
  checkHeadingStructure (content plainPage) =
    Returns {| HeadingInfo.h1Count := 0; HeadingInfo.headings := [];
               HeadingInfo.issues := [] |} ∧
  checkImages (content plainPage) =
    {| ImageInfo.totalImages := 0; ImageInfo.imagesWithAlt := 0;
       ImageInfo.imagesWithoutAlt := 0; ImageInfo.issues := [] |}.
Proof.
  apply (C10_no_template (content plainPage)).
  apply search_None. vm_compute. reflexivity.
Defined.

(** A template region is an opening tag, any text and the closing tag. *)
Lemma template_region content :
  occurs template_re content ↔
  ∃ before attrs body behind,
    content = before ++ str "<template" ++ attrs ++ str ">" ++ body
              ++ str "</template>" ++ behind
    ∧ Forall (λ c, c ≠ 62%N) attrs.
Proof.
  assert (Hclass : ∀ c, noneOf (str ">") c = true ↔ c ≠ 62%N).
  { intros c. unfold noneOf, oneOf. simpl.
    rewrite orb_false_r, negb_true_iff. apply N.eqb_neq. }
  unfold occurs, template_re. cbn [seq lang]. setoid_rewrite lang_lit. split.
  - intros (before & x & behind & -> &
            ? & ? & -> & -> & attrs & ? & -> & Hattrs & ? & ? & -> & -> &
            body & ? & -> & _ & ? & ? & -> & -> & ->).
    exists before, attrs, body, behind. split.
    + by rewrite app_nil_r, <-!(assoc_L (++)).
    + eapply Forall_impl; [exact Hattrs|]. intros c. apply Hclass.
  - intros (before & attrs & body & behind & -> & Hattrs).
    exists before, (str "<template" ++ attrs ++ str ">" ++ body ++ str "</template>"),
      behind.
    split; [by rewrite <-!(assoc_L (++))|].
    eexists _, _. split; [done|]. split; [done|].
    eexists _, _. split; [done|]. split.
    { eapply Forall_impl; [exact Hattrs|]. intros c. apply Hclass. }
    eexists _, _. split; [done|]. split; [done|].
    eexists _, _. split; [done|]. split; [by apply Forall_forall|].
    eexists _, []. split; [by rewrite app_nil_r|]. done.
Qed.

(** ** The metadata normaliser *)

Lemma countIssues_app kind xs ys :
  countIssues kind (xs ++ ys) = countIssues kind xs + countIssues kind ys.
Proof. unfold countIssues. by rewrite filter_app, length_app. Qed.













(** ** One page *)

Lemma yields_runWith {A} evaluator (c : Evaluation A) : yields c (runWith evaluator c).
Proof.
  induction c as [a|params k IH]; simpl; [constructor|].
  apply yields_Evaluate with (seoOutput := evaluator params), IH.
Qed.

Lemma yields_Ret_inv {A} (a b : A) : yields (Ret a) b → b = a.
Proof. by inversion 1. Qed.

Lemma yields_Evaluate_inv {A} params (k : option SeoOutput.t → Evaluation A) b :
  yields (Evaluate params k) b → ∃ seoOutput, yields (k seoOutput) b.
Proof. inversion 1; subst. eauto. Qed.

(** A page is skipped, or its record is put together by [pageRecord]. *)
Lemma checkPageSEO_yields doc result :
  yields (checkPageSEO doc) result →
  result = Returns None ∨
  ∃ schemas schemaDetails seoOutput,
    result = pageRecord doc schemas schemaDetails seoOutput.
Proof.
  unfold checkPageSEO. destruct (existsb _ ignorePaths).
  { intros ->%yields_Ret_inv. by left. }
  destruct (includes (content doc) _).
  - destruct (extractGenerateSEOParams (content doc)) as [params|].
    + intros [out ->%yields_Ret_inv]%yields_Evaluate_inv. right. eauto.
    + intros ->%yields_Ret_inv. right. eauto.
  - intros ->%yields_Ret_inv. right. eauto.
Qed.

Lemma pageRecord_Some doc schemas schemaDetails seoOutput page :
  pageRecord doc schemas schemaDetails seoOutput = Returns (Some page) →
  Page.hasGenerateSEO page = includes (content doc) (str "generateSEO(") ∧
  Page.hasUseSeoMeta page = includes (content doc) (str "useSeoMeta(") ∧
  Page.hasUseHead page = includes (content doc) (str "useHead(") ∧
  Page.hasSEO page =
    (Page.hasGenerateSEO page || Page.hasUseSeoMeta page) && Page.hasUseHead page ∧
  Page.pageName page = stripVue (relativePath doc) ∧
  Page.schemaDetails page = schemaDetails ∧
  checkMetaTags (content doc) seoOutput = Returns (Page.metaTags page) ∧
  Page.images page = checkImages (content doc).
Proof.
  unfold pageRecord.
  destruct (checkMetaTags (content doc) seoOutput) as [info|]; [|done].
  destruct (checkHeadingStructure (content doc)) as [headings|]; [|done].
  simpl. intros [= <-]. done.
Qed.

(** A record without coverage leaves the image index as it is. *)
Lemma collect_uncovered results page :
  Page.hasSEO page = false →
  ∃ results', collect results (Returns (Some page)) = Returns results' ∧
    Results.ogImageUsage results' = Results.ogImageUsage results ∧
    Results.pagesWithoutOGImage results' = Results.pagesWithoutOGImage results ∧
    Results.pagesWithoutSEO results' = Results.pagesWithoutSEO results ++ [page] ∧
    Results.pagesWithSEO results' = Results.pagesWithSEO results.
Proof. intros H. unfold collect. rewrite H. by eexists. Qed.

(** C1: the [hasSEO] flag of a page's record is true exactly when the
    text contains [generateSEO(] or [useSeoMeta(], and contains
    [useHead(]; a record whose flag is false is put among the pages
    without SEO and the image index stays as it was. *)
Theorem C1_hasSEO (doc : Document) (page : Page.t) :
  yields (checkPageSEO doc) (Returns (Some page)) →
  (Page.hasSEO page = true ↔
   (includes (content doc) (str "generateSEO(") = true
    ∨ includes (content doc) (str "useSeoMeta(") = true)
   ∧ includes (content doc) (str "useHead(") = true) ∧
  (Page.hasSEO page = false →
   ∀ results, ∃ results',
     collect results (Returns (Some page)) = Returns results' ∧
     Results.ogImageUsage results' = Results.ogImageUsage results).
Proof.
  intros [?|(schemas & details & out & Hrec)]%checkPageSEO_yields; [done|].
  symmetry in Hrec. apply pageRecord_Some in Hrec as (Hg & Hm & Hh & Hseo & _).
  split.
  - rewrite Hseo, Hg, Hm, Hh, andb_true_iff, orb_true_iff. done.
  - intros Hno results.
    destruct (collect_uncovered results page Hno) as (results' & ? & ? & _).
    eauto.
Qed.

Lemma C1_witness :
  ∃ page, checkPageSEO plainPage = Ret (Returns (Some page)) ∧
    (Page.hasSEO page = true ↔
     (includes (content plainPage) (str "generateSEO(") = true
      ∨ includes (content plainPage) (str "useSeoMeta(") = true)
     ∧ includes (content plainPage) (str "useHead(") = true) ∧
    (Page.hasSEO page = false →
     ∀ results, ∃ results',
       collect results (Returns (Some page)) = Returns results' ∧
       Results.ogImageUsage results' = Results.ogImageUsage results).
Proof.
  eexists. split; [vm_compute; reflexivity|].
  apply (C1_hasSEO plainPage).
  replace (checkPageSEO plainPage) with
    (Ret (A := exn (option Page.t)) (runWith unavailable (checkPageSEO plainPage)))
    by (vm_compute; reflexivity).
  vm_compute. constructor.
Defined.

(** ** Aggregation *)

Lemma trackImage_lookup image pageName usage usage' :
  trackImage image pageName usage = Returns usage' →
  usage' !! image = Some (default [] (usage !! image) ++ [pageName]) ∧
  ∀ other, other ≠ image → usage' !! other = usage !! other.
Proof.
  unfold trackImage. destruct (usage !! image) as [pages|] eqn:Hl.
  - intros [= <-]. split; [by rewrite lookup_insert_eq|].
    intros other ?. by rewrite lookup_insert_ne.
  - case_bool_decide; [done|]. intros [= <-].
    split; [by rewrite lookup_insert_eq|].
    intros other ?. by rewrite lookup_insert_ne.
Qed.

(** An image that is not a name of [Object.prototype] is tracked. *)
Lemma trackImage_Returns image pageName usage :
  image ∉ objectPrototypeKeys →
  ∃ usage', trackImage image pageName usage = Returns usage'.
Proof.
  intros Hkey. unfold trackImage. destruct (usage !! image); [by eexists|].
  rewrite bool_decide_eq_false_2 by done. by eexists.
Qed.

(** An image that is one, on an index without it: [push] is not there. *)
Lemma trackImage_Throws image pageName usage :
  image ∈ objectPrototypeKeys → usage !! image = None →
  trackImage image pageName usage = Throws.
Proof.
  intros Hkey Hl. unfold trackImage. rewrite Hl.
  by rewrite bool_decide_eq_true_2.
Qed.

Lemma usersOf_app image pages1 pages2 :
  usersOf image (pages1 ++ pages2) = usersOf image pages1 ++ usersOf image pages2.
Proof. unfold usersOf. by rewrite filter_app, fmap_app. Qed.

Lemma usersOf_single image page :
  usersOf image [page] =
  if bool_decide (Page.hasSEO page = true ∧ imageOf page = Some image)
  then [Page.pageName page] else [].
Proof.
  unfold usersOf. rewrite filter_cons, filter_nil.
  case_decide; case_bool_decide; done.
Qed.

Lemma collect_usage results result results' image :
  collect results result = Returns results' →
  default [] (Results.ogImageUsage results' !! image) =
  default [] (Results.ogImageUsage results !! image) ++ usersOf image (pagesOf [result]).
Proof.
  unfold collect.
  destruct result as [[page|]|]; [|intros [= <-]; by rewrite app_nil_r..].
  change (pagesOf [Returns (Some page)]) with [page]. rewrite usersOf_single.
  destruct (Page.hasSEO page) eqn:Hseo.
  - destruct (imageOf page) as [image'|] eqn:Himg.
    + destruct (trackImage _ _ _) as [usage|] eqn:Ht; [|done].
      intros [= <-]. cbn [Results.ogImageUsage].
      apply trackImage_lookup in Ht as [Hsame Hother].
      case_bool_decide as Hd.
      * destruct Hd as [_ [= ->]]. by rewrite Hsame.
      * rewrite Hother, app_nil_r; [done|]. intros ->. by apply Hd.
    + intros [= <-]. rewrite bool_decide_eq_false_2, app_nil_r; [done|].
      by intros [_ ?].
  - intros [= <-]. rewrite bool_decide_eq_false_2, app_nil_r; [done|].
    by intros [? _].
Qed.

Lemma pagesOf_cons result rest :
  pagesOf (result :: rest) = pagesOf [result] ++ pagesOf rest.
Proof. unfold pagesOf. by rewrite <-omap_app. Qed.

(** After the loop, the entry of an image lists the covered pages whose
    parameters carry it, in the order of the pages. *)
Lemma aggregate_usage pageResults results results' image :
  aggregate pageResults results = Returns results' →
  default [] (Results.ogImageUsage results' !! image) =
  default [] (Results.ogImageUsage results !! image)
  ++ usersOf image (pagesOf pageResults).
Proof.
  revert results. induction pageResults as [|result rest IH]; intros results.
  - intros [= <-]. by rewrite app_nil_r.
  - cbn [aggregate].
    destruct (collect results result) as [results1|] eqn:Hc; [|done].
    cbn [exn_bind]. intros Hrest.
    rewrite pagesOf_cons, usersOf_app, (assoc_L (++)).
    by rewrite (IH _ Hrest), (collect_usage _ _ _ _ Hc).
Qed.




(** On an empty index, an image called like a property of
    [Object.prototype] ends the loop with a [TypeError]. *)
Lemma trackImage_constructor pageName :
  trackImage (str "constructor") pageName ∅ = Throws.
Proof. reflexivity. Qed.

(** ** Category scores *)

Lemma countPages_cons test page pages :
  countPages test (page :: pages) =
  (if test page then 1 else 0) + countPages test pages.
Proof.
  unfold countPages. rewrite filter_cons.
  destruct (test page); by case_decide.
Qed.

Lemma countPages_le test pages : countPages test pages ≤ length pages.
Proof. apply length_filter. Qed.

(** The two counters of the social loop count the pages with four tags. *)
Lemma socialStep_counts pages acc :
  pagesWithOG (foldl socialStep acc pages)
    = pagesWithOG acc + countPages hasFourOg pages ∧
  pagesWithTwitter (foldl socialStep acc pages)
    = pagesWithTwitter acc + countPages hasFourTwitter pages.
Proof.
  revert acc. induction pages as [|page pages IH]; intros acc.
  - unfold countPages. simpl. lia.
  - cbn [foldl]. destruct (IH (socialStep acc page)) as [-> ->].
    rewrite !countPages_cons. unfold socialStep, hasFourOg, hasFourTwitter.
    cbn [pagesWithOG pagesWithTwitter].
    destruct (4 <=? size (MetaInfo.ogTags _)),
      (4 <=? size (MetaInfo.twitterTags _)); lia.
Qed.

Lemma storedSocial_ratio results :
  0 < length (Results.pagesWithSEO results) + length (Results.pagesWithoutSEO results) →
  storedSocial results =
  socialOfCovered (Results.pagesWithSEO results) (Results.pagesWithoutSEO results).
Proof.
  intros Htotal. unfold storedSocial, calculateCategoryScores.
  rewrite (proj2 (Nat.eqb_neq _ 0)) by lia.
  cbn [Results.categoryScores CategoryScores.socialSharing scored CategoryScore.score].
  unfold socialFinal. rewrite (proj2 (Nat.ltb_lt 0 _)) by lia.
  unfold socialBlock.
  destruct (socialStep_counts (Results.pagesWithSEO results)
    {| socialScore := 20; pagesWithOG := 0; pagesWithTwitter := 0;
       socialIssues := [] |}) as [-> ->].
  reflexivity.
Qed.





Local Open Scope Q_scope.

Lemma num_nonneg n : 0 <= num n.
Proof. unfold num. rewrite <-(Zle_Qle 0). lia. Qed.

Lemma num_le n m : (n ≤ m)%nat → num n <= num m.
Proof. intros H. unfold num. rewrite <-Zle_Qle. lia. Qed.

Lemma num_pos n : (0 < n)%nat → 0 < num n.
Proof. intros H. unfold num. rewrite <-(Zlt_Qlt 0). lia. Qed.

Lemma Math_round_range x :
  0 <= x → x <= 20 →
  0 <= inject_Z (Math_round x) ∧ inject_Z (Math_round x) <= 20.
Proof.
  intros H0 H20. unfold Math_round. split.
  - rewrite <-(Zle_Qle 0). change 0%Z with (Qfloor (1 # 2)).
    apply Qfloor_resp_le. lra.
  - change 20 with (inject_Z 20). rewrite <-Zle_Qle.
    change 20%Z with (Qfloor (41 # 2)). apply Qfloor_resp_le. lra.
Qed.

Lemma Math_max_range x : x <= 20 → 0 <= Math_max 0 x ∧ Math_max 0 x <= 20.
Proof.
  intros H. unfold Math_max. destruct (Qle_bool 0 x) eqn:Hx.
  - apply Qle_bool_iff in Hx. done.
  - split; [apply Qle_refl|done].
Qed.

Lemma Math_min_nonneg x y : 0 <= x → 0 <= y → 0 <= Math_min x y.
Proof. intros. unfold Math_min. by destruct (Qle_bool x y). Qed.

Lemma Math_min_le x y : Math_min x y <= x.
Proof.
  unfold Math_min. destruct (Qle_bool x y) eqn:H; [apply Qle_refl|].
  destruct (Qlt_le_dec x y) as [Hlt|Hle]; [|done].
  apply Qlt_le_weak, Qle_bool_iff in Hlt. congruence.
Qed.

(** A part of a whole, on the scale of 20. *)
Lemma fraction_range a b :
  0 <= a → a <= b → 0 < b → 0 <= a / b * 20 ∧ a / b * 20 <= 20.
Proof.
  intros Ha Hab Hb.
  assert (0 <= a / b) by (apply Qle_shift_div_l; [done|lra]).
  assert (a / b <= 1) by (apply Qle_shift_div_r; [done|lra]).
  split; lra.
Qed.

Lemma metaStep_le pages acc : (foldl metaStep acc pages).1 <= acc.1.
Proof.
  revert acc. induction pages as [|page pages IH]; intros acc; [apply Qle_refl|].
  cbn [foldl]. eapply Qle_trans; [apply IH|]. unfold metaStep.
  destruct (0 <? _)%nat; [|apply Qle_refl]. cbn [fst].
  pose proof (num_nonneg (length (MetaInfo.issues (Page.metaTags page)))). lra.
Qed.

Lemma metaMissingStep_le pages acc : (foldl metaMissingStep acc pages).1 <= acc.1.
Proof.
  revert acc. induction pages as [|page pages IH]; intros acc; [apply Qle_refl|].
  cbn [foldl]. eapply Qle_trans; [apply IH|]. unfold metaMissingStep.
  cbn [fst]. lra.
Qed.

Lemma headingStep_le pages acc : (foldl headingStep acc pages).1 <= acc.1.
Proof.
  revert acc. induction pages as [|page pages IH]; intros acc; [apply Qle_refl|].
  cbn [foldl]. eapply Qle_trans; [apply IH|]. unfold headingStep.
  destruct (0 <? _)%nat; [|apply Qle_refl]. cbn [fst].
  pose proof (num_nonneg (length (HeadingInfo.issues (Page.headings page)))). lra.
Qed.

(** The totals of the image loop. *)
Lemma imageStep_totals pages acc :
  Forall countsImages pages →
  0 <= acc.1.2 → acc.1.2 <= acc.1.1 →
  0 <= (foldl imageStep acc pages).1.2 ∧
  (foldl imageStep acc pages).1.2 <= (foldl imageStep acc pages).1.1.
Proof.
  intros Hpages. revert acc.
  induction Hpages as [|page pages Hpage _ IH]; intros acc H0 Hle; [done|].
  cbn [foldl]. apply IH; unfold imageStep; cbn [fst snd].
  - pose proof (num_nonneg (ImageInfo.imagesWithoutAlt (Page.images page))). lra.
  - pose proof (num_le _ _ Hpage). lra.
Qed.

Lemma checkImages_counts content :
  (ImageInfo.imagesWithoutAlt (checkImages content)
   ≤ ImageInfo.totalImages (checkImages content))%nat.
Proof.
  unfold checkImages. destruct (search template_re content); [|done].
  cbn [ImageInfo.imagesWithoutAlt ImageInfo.totalImages]. apply length_filter.
Qed.

Lemma metaTagsBlock_le withSEO withoutSEO : (metaTagsBlock withSEO withoutSEO).1 <= 20.
Proof.
  unfold metaTagsBlock. eapply Qle_trans; [apply metaMissingStep_le|].
  apply (metaStep_le withSEO (20, [])).
Qed.

Lemma technicalBlock_le results : (technicalBlock results).1 <= 20.
Proof.
  unfold technicalBlock. cbv zeta.
  set (n := length (filter _ (Results.pagesWithSEO results))).
  pose proof (headingStep_le (Results.pagesWithSEO results) (20 - num n * 1, [])) as H.
  cbn [fst] in H. pose proof (num_nonneg n) as Hn.
  set (tech := foldl headingStep _ _) in *.
  assert (Hrobots : (match Results.robotsConfig results with
                     | Some true => tech
                     | _ => (tech.1 - 3, tech.2 ++ [str "No robots configuration"])
                     end).1 <= 20).
  { destruct (Results.robotsConfig results) as [[]|]; cbn [fst]; lra. }
  destruct (0 <? _)%nat; [|done]. cbn [fst].
  pose proof (Math_min_nonneg 3
    (num (length (Results.missingFromSitemap results)) * (1 # 2))) as Hmin.
  pose proof (num_nonneg (length (Results.missingFromSitemap results))).
  lapply Hmin; [|lra]. intros Hmin'. lapply Hmin'; [|lra]. lra.
Qed.

Lemma structuredDataBlock_range withSEO totalPages :
  (length withSEO ≤ totalPages)%nat →
  0 <= structuredDataBlock withSEO totalPages ∧
  structuredDataBlock withSEO totalPages <= 20.
Proof.
  intros Htotal. unfold structuredDataBlock. cbv zeta.
  set (n := length (filter _ withSEO)).
  assert (Hn : (n ≤ totalPages)%nat).
  { etrans; [apply length_filter|done]. }
  assert (Hround :
    0 <= inject_Z (Math_round
           ((if (0 <? totalPages)%nat then num n / num totalPages else 0) * 20)) ∧
    inject_Z (Math_round
           ((if (0 <? totalPages)%nat then num n / num totalPages else 0) * 20)) <= 20).
  { destruct (0 <? totalPages)%nat eqn:Hpos.
    - apply Nat.ltb_lt in Hpos. apply Math_round_range;
        apply fraction_range; auto using num_nonneg, num_le, num_pos.
    - apply Math_round_range; lra. }
  destruct Hround as [H0 H20]. destruct (existsb _ withSEO); [|done]. split.
  - apply Math_min_nonneg; lra.
  - apply Math_min_le.
Qed.

Lemma imagesScore_range totalImages imagesWithoutAlt :
  0 <= imagesWithoutAlt → imagesWithoutAlt <= totalImages →
  0 <= Math_max 0 (imagesScore totalImages imagesWithoutAlt) ∧
  Math_max 0 (imagesScore totalImages imagesWithoutAlt) <= 20.
Proof.
  intros H0 Hle. apply Math_max_range. unfold imagesScore.
  destruct (Qlt_le_dec 0 totalImages) as [Hpos|_]; [|lra].
  apply Math_round_range; apply fraction_range; lra.
Qed.

Lemma socialRatio_range withOg withTwitter total :
  (withOg ≤ total)%nat → (withTwitter ≤ total)%nat → (0 < total)%nat →
  0 <= socialRatio withOg withTwitter total ∧ socialRatio withOg withTwitter total <= 20.
Proof.
  intros Hog Htw Hpos. unfold socialRatio.
  destruct (fraction_range (num withOg) (num total))
    as [? ?]; auto using num_nonneg, num_le, num_pos.
  destruct (fraction_range (num withTwitter) (num total))
    as [? ?]; auto using num_nonneg, num_le, num_pos.
  set (a := num withOg / num total) in *.
  set (b := num withTwitter / num total) in *.
  assert (Hmean : (a + b) / 2 * 20 == a * 10 + b * 10) by field.
  apply Math_max_range, Math_round_range; rewrite Hmean; lra.
Qed.

(** The five scores after [calculateCategoryScores], for pages whose
    image counts are sound and category scores not yet touched. *)
Lemma calculateCategoryScores_range results :
  Forall countsImages (Results.pagesWithSEO results) →
  Results.categoryScores results = Results.categoryScores results0 →
  let scores := Results.categoryScores (calculateCategoryScores results) in
  inRange (CategoryScores.metaTags scores) ∧
  inRange (CategoryScores.technicalSEO scores) ∧
  inRange (CategoryScores.structuredData scores) ∧
  inRange (CategoryScores.imagesMedia scores) ∧
  inRange (CategoryScores.socialSharing scores) ∧
  sumOfMaxima scores == 100.
Proof.
  intros Himages Hscores scores.
  destruct (decide (length (Results.pagesWithSEO results)
                    + length (Results.pagesWithoutSEO results) = 0)%nat) as [Hz|Hnz].
  { subst scores. unfold calculateCategoryScores.
    rewrite (proj2 (Nat.eqb_eq _ 0)) by done. rewrite Hscores.
    unfold inRange, sumOfMaxima. simpl. split_and!; lra. }
  assert (Hsocial : storedSocial results =
    socialOfCovered (Results.pagesWithSEO results) (Results.pagesWithoutSEO results))
    by (apply storedSocial_ratio; lia).
  unfold storedSocial in Hsocial. fold scores in Hsocial.
  subst scores. revert Hsocial. unfold calculateCategoryScores.
  rewrite (proj2 (Nat.eqb_neq _ 0)) by done. rewrite Hscores.
  cbn [Results.categoryScores CategoryScores.metaTags CategoryScores.technicalSEO
       CategoryScores.structuredData CategoryScores.imagesMedia
       CategoryScores.socialSharing results0 scored emptyScore
       CategoryScore.score CategoryScore.maxScore].
  intros Hsocial. unfold inRange, sumOfMaxima.
  cbn [CategoryScore.score CategoryScore.maxScore].
  pose proof (Math_max_range _ (metaTagsBlock_le (Results.pagesWithSEO results)
                                  (Results.pagesWithoutSEO results))) as [? ?].
  pose proof (Math_max_range _ (technicalBlock_le results)) as [? ?].
  pose proof (structuredDataBlock_range (Results.pagesWithSEO results)
    (length (Results.pagesWithSEO results) + length (Results.pagesWithoutSEO results))
    ltac:(lia)) as [? ?].
  pose proof (imageStep_totals (Results.pagesWithSEO results) (0, 0, []) Himages
    ltac:(cbn; lra) ltac:(cbn; lra)) as [Hw Hwt].
  pose proof (imagesScore_range _ _ Hw Hwt) as [? ?].
  pose proof (socialRatio_range
    (countPages hasFourOg (Results.pagesWithSEO results))
    (countPages hasFourTwitter (Results.pagesWithSEO results))
    (length (Results.pagesWithSEO results) + length (Results.pagesWithoutSEO results)))
    as Hratio.
  lapply Hratio;
    [clear Hratio; intros Hratio
    |pose proof (countPages_le hasFourOg (Results.pagesWithSEO results)); lia].
  lapply Hratio;
    [clear Hratio; intros Hratio
    |pose proof (countPages_le hasFourTwitter (Results.pagesWithSEO results)); lia].
  lapply Hratio; [clear Hratio; intros [? ?]|lia].
  fold (socialOfCovered (Results.pagesWithSEO results) (Results.pagesWithoutSEO results))
    in *.
  rewrite Hsocial.
  split_and!; try done; try lra; reflexivity.
Qed.

Local Close Scope Q_scope.

(** ** The run *)

Lemma yields_bind {A B} (c : Evaluation A) (f : A → Evaluation B) b :
  yields (bind c f) b → ∃ a, yields c a ∧ yields (f a) b.
Proof.
  induction c as [a|params k IH]; simpl.
  - intros H. exists a. split; [constructor|done].
  - intros [out (a & Ha & Hb)%IH]%yields_Evaluate_inv.
    exists a. split; [|done]. by apply yields_Evaluate with out.
Qed.

Lemma checkPages_yields docs pageResults :
  yields (checkPages docs) pageResults →
  Forall2 (λ doc result, yields (checkPageSEO doc) result) docs pageResults.
Proof.
  revert pageResults. induction docs as [|doc docs IH]; intros pageResults; simpl.
  - intros ->%yields_Ret_inv. constructor.
  - intros (result & Hr & (rest & Hrest & ->%yields_Ret_inv)%yields_bind)%yields_bind.
    constructor; [done|by apply IH].
Qed.

Lemma checkPageSEO_countsImages doc page :
  yields (checkPageSEO doc) (Returns (Some page)) → countsImages page.
Proof.
  intros [?|(schemas & details & out & Hrec)]%checkPageSEO_yields; [done|].
  symmetry in Hrec. apply pageRecord_Some in Hrec as (_ & _ & _ & _ & _ & _ & _ & Hi).
  unfold countsImages. rewrite Hi. apply checkImages_counts.
Qed.

(** The loop over the page results adds pages and leaves the scores. *)
Lemma aggregate_pages pageResults results results' :
  Forall countsImages (pagesOf pageResults) →
  Forall countsImages (Results.pagesWithSEO results) →
  aggregate pageResults results = Returns results' →
  Forall countsImages (Results.pagesWithSEO results') ∧
  Results.categoryScores results' = Results.categoryScores results.
Proof.
  revert results. induction pageResults as [|result rest IH]; intros results.
  - intros _ ? [= <-]. done.
  - rewrite pagesOf_cons. intros [Hresult Hrest]%Forall_app Hpages.
    cbn [aggregate].
    destruct (collect results result) as [results1|] eqn:Hc; [|done].
    cbn [exn_bind]. intros Hagg.
    assert (Forall countsImages (Results.pagesWithSEO results1) ∧
            Results.categoryScores results1 = Results.categoryScores results)
      as [Hpages1 Hscores1].
    { revert Hc. unfold collect.
      destruct result as [[page|]|]; [|by intros [= <-]..].
      change (pagesOf [Returns (Some page)]) with [page] in Hresult.
      destruct (Page.hasSEO page).
      - destruct (imageOf page).
        + destruct (trackImage _ _ _); [|done]. intros [= <-].
          split; [|done]. by apply Forall_app_2.
        + intros [= <-].
          split; [|done]. by apply Forall_app_2.
      - by intros [= <-]. }
    destruct (IH results1 Hrest Hpages1 Hagg) as [? ->]. done.
Qed.

Lemma pagesOf_countsImages docs pageResults :
  Forall2 (λ doc result, yields (checkPageSEO doc) result) docs pageResults →
  Forall countsImages (pagesOf pageResults).
Proof.
  induction 1 as [|doc result docs pageResults Hresult _ IH]; [constructor|].
  rewrite pagesOf_cons. apply Forall_app_2; [|done].
  destruct result as [[page|]|]; [|constructor..].
  apply Forall_singleton. by eapply checkPageSEO_countsImages.
Qed.

(** C2: whatever the pages, the sitemap and the robots configuration,
    and whatever the evaluator answers, each of the five category scores
    of a run lies between 0 and its maximum, each maximum is 20, and the
    five maxima add up to 100. *)
Theorem C2_scores_in_range (docs : list Document) (sitemapPages : list jstring)
    (robotsConfig : option bool) (results : Results.t) :
  yields (main docs sitemapPages robotsConfig) (Returns results) →
  let scores := Results.categoryScores results in
  inRange (CategoryScores.metaTags scores) ∧
  inRange (CategoryScores.technicalSEO scores) ∧
  inRange (CategoryScores.structuredData scores) ∧
  inRange (CategoryScores.imagesMedia scores) ∧
  inRange (CategoryScores.socialSharing scores) ∧
  (sumOfMaxima scores == 100)%Q.
Proof.
  unfold main. intros (pageResults & Hpages & Hret%yields_Ret_inv)%yields_bind.
  destruct (aggregate pageResults results0) as [results1|] eqn:Hagg; [|done].
  cbn [exn_bind] in Hret. injection Hret as ->.
  apply checkPages_yields, pagesOf_countsImages in Hpages.
  destruct (aggregate_pages pageResults results0 results1 Hpages
              (Forall_nil_2 countsImages) Hagg) as [Hwith Hscores].
  by apply calculateCategoryScores_range.
Qed.

Lemma C2_witness :
  ∃ results,
    runWith unavailable (main [homePage; socialOnlyPage; aboutPage] [] (Some true))
      = Returns results ∧
    let scores := Results.categoryScores results in
    inRange (CategoryScores.metaTags scores) ∧
    inRange (CategoryScores.technicalSEO scores) ∧
    inRange (CategoryScores.structuredData scores) ∧
    inRange (CategoryScores.imagesMedia scores) ∧
    inRange (CategoryScores.socialSharing scores) ∧
    (sumOfMaxima scores == 100)%Q.
Proof.
  eexists. split; [vm_compute; reflexivity|].
  apply (C2_scores_in_range [homePage; socialOnlyPage; aboutPage] [] (Some true)).
  eapply (eq_ind _ (yields (main [homePage; socialOnlyPage; aboutPage] [] (Some true)))
            (yields_runWith unavailable _)).
  vm_compute. reflexivity.
Defined.

(** ** The two paths of the normaliser on one page *)

(** C4: on a page whose call gives neither title nor description, the
    path over the output of the evaluator reports nothing of the two
    while the path over the text reports both as missing. *)
Theorem C4_missing_title_by_path :
  ∃ dynamic static,
    runWith (answering socialHead) (checkPageSEO bareCallPage)
      = Returns (Some dynamic) ∧
    runWith unavailable (checkPageSEO bareCallPage) = Returns (Some static) ∧
    length (evaluations (answering socialHead) (checkPageSEO bareCallPage)) = 1 ∧
    MetaInfo.title (Page.metaTags dynamic) = None ∧
    MetaInfo.description (Page.metaTags dynamic) = None ∧
    MetaInfo.issues (Page.metaTags dynamic) = [] ∧
    MetaInfo.title (Page.metaTags static) = None ∧
    MetaInfo.description (Page.metaTags static) = None ∧
    MetaInfo.issues (Page.metaTags static)
      = [str "Missing page title"; str "Missing meta description"].
Proof.
  eexists _, _. split_and!; vm_compute; reflexivity.
Qed.

(** ** The issue list, part by part *)

Lemma clash_startsWith p q issue :
  clash p q = true → startsWith issue p = true → startsWith issue q = false.
Proof.
  revert q issue. induction p as [|a p IH]; intros q issue; [done|].
  destruct q as [|b q]; [done|]. destruct issue as [|c issue]; [done|].
  cbn [clash startsWith].
  intros Hclash [->%N.eqb_eq Hp]%andb_true_iff.
  destruct (N.eqb_spec a b) as [->|Hne]; simpl in *.
  - by rewrite (IH q issue).
  - done.
Qed.

Lemma countIssues_single kind issue :
  countIssues kind [issue] = if kind issue then 1 else 0.
Proof.
  unfold countIssues. rewrite filter_cons, filter_nil.
  destruct (kind issue); by case_decide.
Qed.

Lemma missingTagIssues_cases label required tags :
  missingTagIssues label required tags =
  if forallb (hasKey tags) required then []
  else [label ++ join (str ", ")
          (filter (λ tag, negb (hasKey tags tag) = true) required)].
Proof.
  unfold missingTagIssues.
  assert (Hall : forallb (hasKey tags) required
                 = (length (filter (λ tag, negb (hasKey tags tag) = true) required)
                    =? 0)).
  { induction required as [|tag required IH]; [done|].
    rewrite filter_cons. cbn [forallb].
    destruct (hasKey tags tag) eqn:Hk; case_decide; simpl in *; done. }
  rewrite Hall. by destruct (length _).
Qed.

(** The issue list of a record is made of the part of its title, the
    part of its description and the part of its tags, in this order. *)
Lemma checkMetaTags_parts content seoOutput info :
  checkMetaTags content seoOutput = Returns info →
  MetaInfo.issues info =
  titlePart (viaOutput seoOutput) (MetaInfo.title info)
  ++ descriptionPart (viaOutput seoOutput) (MetaInfo.description info)
  ++ tagsPart info.
Proof.
  assert (Hstatic : MetaInfo.issues (checkMetaTags_static content) =
    titlePart false (MetaInfo.title (checkMetaTags_static content))
    ++ descriptionPart false (MetaInfo.description (checkMetaTags_static content))
    ++ tagsPart (checkMetaTags_static content)).
  { unfold checkMetaTags_static, titlePart, descriptionPart, tagsPart.
    destruct (includes content (str "generateSEO("));
      cbn [MetaInfo.issues MetaInfo.title MetaInfo.description MetaInfo.ogTags
           MetaInfo.twitterTags MetaInfo.canonical].
    - replace (missingTagIssues (str "Missing Open Graph tags: ") requiredOgTags _)
        with (@nil jstring) by (vm_compute; reflexivity).
      replace (missingTagIssues (str "Missing Twitter Card tags: ")
                 requiredTwitterTags _)
        with (@nil jstring) by (vm_compute; reflexivity).
      destruct (capture title_re 1 content), (capture description_re 1 content);
        by rewrite ?app_nil_r.
    - destruct (capture title_re 1 content), (capture description_re 1 content),
        (includes content (str "canonical:") || _);
        by rewrite <-?(assoc_L (++)), ?app_nil_r. }
  destruct seoOutput as [out|]; simpl; [|by intros [= <-]].
  destruct (SeoOutput.meta out) as [meta|] eqn:Hmeta; [|by intros [= <-]].
  rewrite bool_decide_eq_true_2 by done.
  unfold checkMetaTags_dynamic, titlePart, descriptionPart, tagsPart.
  destruct (find _ meta) as [titleMeta|];
    [destruct (MetaEntry.content titleMeta) eqn:Ht; [|done]|];
    (destruct (find _ meta) as [descMeta|];
     [destruct (MetaEntry.content descMeta) eqn:Hd; [|done]|]);
    cbn [exn_bind measured mbind option_bind]; intros [= <-];
    cbn [MetaInfo.issues MetaInfo.title MetaInfo.description MetaInfo.ogTags
         MetaInfo.twitterTags MetaInfo.canonical];
    rewrite ?Ht, ?Hd;
    destruct (match SeoOutput.link out with Some _ => _ | None => _ end);
    by rewrite <-?(assoc_L (++)), ?app_nil_r.
Qed.

(** The counts of the reports in each part. *)
Lemma titlePart_counts dynamic title :
  countIssues titleMissing (titlePart dynamic title)
    = (if dynamic then 0 else if title is Some _ then 0 else 1) ∧
  countIssues descriptionMissing (titlePart dynamic title) = 0 ∧
  countIssues ogIssue (titlePart dynamic title) = 0 ∧
  countIssues twitterIssue (titlePart dynamic title) = 0 ∧
  countIssues canonicalIssue (titlePart dynamic title) = 0.
Proof.
  unfold titlePart. destruct title as [t|].
  - unfold titleLengthIssues.
    destruct dynamic, (length t <? 30), (60 <? length t); split_and!; reflexivity.
  - destruct dynamic; split_and!; reflexivity.
Qed.

Lemma descriptionPart_counts dynamic description :
  countIssues descriptionMissing (descriptionPart dynamic description)
    = (if dynamic then 0 else if description is Some _ then 0 else 1) ∧
  countIssues titleMissing (descriptionPart dynamic description) = 0 ∧
  countIssues ogIssue (descriptionPart dynamic description) = 0 ∧
  countIssues twitterIssue (descriptionPart dynamic description) = 0 ∧
  countIssues canonicalIssue (descriptionPart dynamic description) = 0.
Proof.
  unfold descriptionPart. destruct description as [d|].
  - unfold descriptionLengthIssues.
    destruct dynamic, (length d <? 120), (160 <? length d); split_and!; reflexivity.
  - destruct dynamic; split_and!; reflexivity.
Qed.

Lemma tagsPart_counts info :
  countIssues ogIssue (tagsPart info)
    = (if forallb (hasKey (MetaInfo.ogTags info)) requiredOgTags then 0 else 1) ∧
  countIssues twitterIssue (tagsPart info)
    = (if forallb (hasKey (MetaInfo.twitterTags info)) requiredTwitterTags
       then 0 else 1) ∧
  countIssues canonicalIssue (tagsPart info)
    = (if MetaInfo.canonical info then 0 else 1) ∧
  countIssues titleMissing (tagsPart info) = 0 ∧
  countIssues descriptionMissing (tagsPart info) = 0.
Proof.
  unfold tagsPart. rewrite !missingTagIssues_cases, !countIssues_app.
  destruct (forallb _ requiredOgTags), (forallb _ requiredTwitterTags),
    (MetaInfo.canonical info); rewrite ?countIssues_single;
    split_and!; reflexivity.
Qed.

(** What holds of the reports on both paths, and what holds on the
    second path alone: a required set of tags with a member missing
    gives one report naming the members, a missing canonical link gives
    one report; a missing title or description gives one report when the
    text is inspected, and none when the output of the evaluator is. *)
Lemma checkMetaTags_accounting content seoOutput info :
  checkMetaTags content seoOutput = Returns info →
  countIssues ogIssue (MetaInfo.issues info)
    = (if forallb (hasKey (MetaInfo.ogTags info)) requiredOgTags then 0 else 1) ∧
  countIssues twitterIssue (MetaInfo.issues info)
    = (if forallb (hasKey (MetaInfo.twitterTags info)) requiredTwitterTags
       then 0 else 1) ∧
  countIssues canonicalIssue (MetaInfo.issues info)
    = (if MetaInfo.canonical info then 0 else 1) ∧
  countIssues titleMissing (MetaInfo.issues info)
    = (if viaOutput seoOutput then 0
       else if MetaInfo.title info is Some _ then 0 else 1) ∧
  countIssues descriptionMissing (MetaInfo.issues info)
    = (if viaOutput seoOutput then 0
       else if MetaInfo.description info is Some _ then 0 else 1).
Proof.
  intros ->%checkMetaTags_parts. rewrite !countIssues_app.
  destruct (titlePart_counts (viaOutput seoOutput) (MetaInfo.title info))
    as (-> & -> & -> & -> & ->).
  destruct (descriptionPart_counts (viaOutput seoOutput) (MetaInfo.description info))
    as (-> & -> & -> & -> & ->).
  destruct (tagsPart_counts info) as (-> & -> & -> & -> & ->).
  split_and!; lia.
Qed.

(** ** The call pattern, spelled out *)

(** A call that the extractor finds: the name, an opening parenthesis and
    an opening brace with white space between them at most, any text, and
    a closing brace and parenthesis with white space between them at
    most. *)
Lemma call_region content :
  occurs generateSEO_re content ↔
  ∃ before ws1 ws2 body ws3 behind,
    content = before ++ str "generateSEO" ++ ws1 ++ str "(" ++ ws2 ++ str "{"
              ++ body ++ str "}" ++ ws3 ++ str ")" ++ behind
    ∧ Forall (λ c, is_space c = true) ws1
    ∧ Forall (λ c, is_space c = true) ws2
    ∧ Forall (λ c, is_space c = true) ws3.
Proof.
  unfold occurs, generateSEO_re. cbn [seq lang]. setoid_rewrite lang_lit. split.
  - intros (before & x & behind & -> &
            ? & ? & -> & -> & ws1 & ? & -> & H1 & ? & ? & -> & -> &
            ws2 & ? & -> & H2 & ? & ? & -> & -> & body & ? & -> & _ &
            ? & ? & -> & -> & ws3 & ? & -> & H3 & ? & ? & -> & -> & ->).
    exists before, ws1, ws2, body, ws3, behind. split; [|done].
    by rewrite app_nil_r, <-!(assoc_L (++)).
  - intros (before & ws1 & ws2 & body & ws3 & behind & -> & H1 & H2 & H3).
    exists before,
      (str "generateSEO" ++ ws1 ++ str "(" ++ ws2 ++ str "{" ++ body ++ str "}"
       ++ ws3 ++ str ")"), behind.
    split; [by rewrite <-!(assoc_L (++))|].
    eexists _, _. split; [done|]. split; [done|].
    eexists _, _. split; [done|]. split; [done|].
    eexists _, _. split; [done|]. split; [done|].
    eexists _, _. split; [done|]. split; [done|].
    eexists _, _. split; [done|]. split; [done|].
    eexists _, _. split; [done|]. split; [by apply Forall_forall|].
    eexists _, _. split; [done|]. split; [done|].
    eexists _, _. split; [done|]. split; [done|].
    eexists _, []. split; [by rewrite app_nil_r|]. done.
Qed.

(** A text that does not even name the function has no such call. *)
Lemma no_name_no_call content :
  includes content (str "generateSEO") = false → ¬ occurs generateSEO_re content.
Proof.
  intros Hno (before & ws1 & ws2 & body & ws3 & behind & -> & _)%call_region.
  apply not_true_iff_false in Hno. apply Hno, includes_spec. eauto.
Qed.

(** ** The run on three pages *)

Example run_three_pages :
  (λ results,
     (Page.pageName <$> Results.pagesWithSEO results,
      Page.pageName <$> Results.pagesWithoutSEO results,
      map_to_list (Results.ogImageUsage results),
      Results.pagesWithoutOGImage results))
  <$> (match runWith unavailable (main [homePage; seoMetaPage; plainPage] [] None) with
       | Returns results => Some results
       | Throws => None
       end)
  = Some ([str "index"; str "contact"], [str "legal/imprint"],
          [(str "/img/homepage.png", [str "index"])], []).
Proof. vm_compute. reflexivity. Qed.

Example headings_of_a_template :
  checkHeadingStructure
    (str "<template><main><h1>Batteries</h1><H3 class='x'>Cars</H3></main></template>")
  = Returns {| HeadingInfo.h1Count := 1; HeadingInfo.headings := [1; 3];
               HeadingInfo.issues := [str "Heading hierarchy broken (skipped levels)"] |}.
Proof. vm_compute. reflexivity. Qed.

Example images_of_a_template :
  checkImages
    (str "<template><img src='a.png' alt='A'><img src='b.png'><NuxtImg src='c.png' alt=''/></template>")
  = {| ImageInfo.totalImages := 3; ImageInfo.imagesWithAlt := 1;
       ImageInfo.imagesWithoutAlt := 2;
       ImageInfo.issues :=
         [str "2 images missing alt text (33% coverage)";
          str "Consider implementing lazy loading for below-the-fold images"] |}.
Proof. vm_compute. reflexivity. Qed.

(** * Further properties *)

(** ** What a match is made of *)

Section MatcherSound.
Context {A : Type}.
Implicit Types (p : char → bool) (s x : jstring) (cs : captures).

Lemma star_greedy_sound p s (k : jstring → option A) a :
  star_greedy p s k = Some a →
  ∃ x rest, s = x ++ rest ∧ Forall (λ c, p c = true) x ∧ k rest = Some a.
Proof.
  induction s as [|c s IH]; simpl.
  - intros H. by exists [], [].
  - destruct (p c) eqn:Hc; [|intros H; by exists [], (c :: s)].
    destruct (star_greedy p s k) as [a'|] eqn:Hin.
    + intros [= ->]. destruct (IH eq_refl) as (x & rest & -> & Hx & Hk).
      exists (c :: x), rest. auto.
    + intros H. by exists [], (c :: s).
Qed.

Lemma star_lazy_sound p s (k : jstring → option A) a :
  star_lazy p s k = Some a →
  ∃ x rest, s = x ++ rest ∧ Forall (λ c, p c = true) x ∧ k rest = Some a.
Proof.
  induction s as [|c s IH]; simpl.
  - destruct (k []) eqn:Hk; [|done]. intros [= ->]. by exists [], [].
  - destruct (k (c :: s)) eqn:Hk; [intros [= ->]; by exists [], (c :: s)|].
    destruct (p c) eqn:Hc; [|done].
    intros (x & rest & -> & Hx & Hr)%IH. exists (c :: x), rest. auto.
Qed.

(** A result of the matcher is a result of the rest of the pattern after
    a text of the pattern, with the captures of that text. *)
Lemma run_sound (r : regex) :
  ∀ s cs (k : jstring → captures → option A) a,
    run r s cs k = Some a →
    ∃ x rest cs', s = x ++ rest ∧ langc r x cs cs' ∧ k rest cs' = Some a.
Proof.
  induction r as [p| |r1 IH1 r2 IH2|r1 IH1 r2 IH2|p|p|n r IH];
    intros s cs k a; simpl.
  - destruct s as [|c s]; [done|]. destruct (p c) eqn:Hc; [|done].
    intros H. exists [c], s, cs. eauto 10.
  - intros H. exists [], s, cs. auto.
  - intros (x1 & rest1 & c1 & -> & H1 & H)%IH1.
    apply IH2 in H as (x2 & rest & c2 & -> & H2 & H).
    exists (x1 ++ x2), rest, c2. rewrite <-(assoc_L (++)). eauto 10.
  - destruct (run r1 s cs k) as [a'|] eqn:H1.
    + intros [= ->]. apply IH1 in H1 as (x & rest & c1 & ? & ? & ?). eauto 10.
    + intros (x & rest & c1 & ? & ? & ?)%IH2. eauto 10.
  - intros (x & rest & -> & Hx & H)%star_greedy_sound. eauto 10.
  - intros (x & rest & -> & Hx & H)%star_lazy_sound. eauto 10.
  - intros (x & rest & c1 & -> & Hx & H)%IH.
    rewrite length_app, Nat.add_sub, take_app_length in H. eauto 10.
Qed.
End MatcherSound.

Lemma exec_at_sound r s m :
  exec_at r s = Some m →
  s = whole m ++ after m ∧ langc r (whole m) [] (groups m).
Proof.
  unfold exec_at. intros (x & rest & cs' & -> & Hx & [= <-])%run_sound. simpl.
  by rewrite length_app, Nat.add_sub, take_app_length.
Qed.

Lemma search_sound r s m :
  search r s = Some m →
  ∃ before, s = before ++ whole m ++ after m ∧ langc r (whole m) [] (groups m).
Proof.
  induction s as [|c s IH]; simpl.
  - destruct (exec_at r []) eqn:He; [|done]. intros [= ->].
    apply exec_at_sound in He as [? ?]. by exists [].
  - destruct (exec_at r (c :: s)) eqn:He.
    + intros [= ->]. apply exec_at_sound in He as [? ?]. by exists [].
    + intros (before & -> & ?)%IH. by exists (c :: before).
Qed.

(** Every text of a global match is a text of the pattern. *)
Lemma matchAll_sound r s w :
  w ∈ matchAll r s → ∃ cs, langc r w [] cs.
Proof.
  unfold matchAll. generalize 0. induction s as [|c s IH]; intros skip; simpl.
  - destruct skip; [|by intros ?%elem_of_nil].
    destruct (exec_at r []) as [m|] eqn:He; [|by intros ?%elem_of_nil].
    intros ->%list_elem_of_singleton. apply exec_at_sound in He as [_ ?]. eauto.
  - destruct skip; [|apply IH].
    destruct (exec_at r (c :: s)) as [m|] eqn:He; [|apply IH].
    intros [->|?]%elem_of_cons; [|by eapply IH].
    apply exec_at_sound in He as [_ ?]. eauto.
Qed.

Lemma langc_lit text x cs cs' : langc (lit text) x cs cs' ↔ x = text ∧ cs' = cs.
Proof.
  revert x. induction text as [|c text IH]; intros x; simpl; [done|]. split.
  - intros (? & ? & ? & -> & ((c' & -> & ->%N.eqb_eq) & ->) & [-> ->]%IH). done.
  - intros [-> ->]. exists [c], text, cs. split; [done|]. split; [|by apply IH].
    split; [|done]. exists c. unfold only. by rewrite N.eqb_refl.
Qed.

Lemma langc_lang r x cs cs' : langc r x cs cs' → lang r x.
Proof.
  revert x cs cs'.
  induction r as [p| |r1 IH1 r2 IH2|r1 IH1 r2 IH2|p|p|n r IH]; intros x cs cs'; simpl.
  - by intros [? _].
  - by intros [? _].
  - intros (x1 & x2 & c1 & -> & ?%IH1 & ?%IH2). eauto.
  - intros [?%IH1|?%IH2]; auto.
  - by intros [? _].
  - by intros [? _].
  - intros (c1 & ?%IH & _). done.
Qed.

(** ** The scalars of the extractor *)

Lemma search_exec r s m :
  search r s = Some m → ∃ before s', s = before ++ s' ∧ exec_at r s' = Some m.
Proof.
  induction s as [|c s IH]; simpl.
  - destruct (exec_at r []) eqn:He; [|done]. intros [= ->]. by exists [], [].
  - destruct (exec_at r (c :: s)) eqn:He.
    + intros [= ->]. by exists [], (c :: s).
    + intros (before & s' & -> & ?)%IH. by exists (c :: before), s'.
Qed.

(** The texts of a quoted field and their capture. *)
Lemma langc_quoted field x cs :
  langc (quoted_re field) x [] cs →
  ∃ ws q1 t q2, x = field ++ ws ++ q1 :: t ++ [q2] ∧ quoteFree t ∧ cs = [(1, t)].
Proof.
  unfold quoted_re. cbn [seq langc]. setoid_rewrite langc_lit.
  intros (? & ? & ? & -> & [-> ->] & ws & ? & ? & -> & [_ ->] &
          ? & ? & ? & -> & [(q1 & -> & _) ->] &
          t & ? & ? & -> & (? & [Ht ->] & ->) &
          ? & ? & ? & -> & [(q2 & -> & _) ->] & -> & ->).
  exists ws, q1, t, q2. split; [|done]. by rewrite app_nil_r.
Qed.

Lemma lang_quoted field ws q1 t q2 :
  Forall (λ c, is_space c = true) ws → oneOf quotes q1 = true →
  quoteFree t → oneOf quotes q2 = true →
  lang (quoted_re field) (field ++ ws ++ q1 :: t ++ [q2]).
Proof.
  intros Hws H1 Ht H2. unfold quoted_re. cbn [seq lang].
  eexists _, _. split; [done|]. split; [by apply lang_lit|].
  eexists _, _. split; [done|]. split; [done|].
  eexists [q1], _. split; [done|]. split; [by eexists|].
  eexists _, _. split; [done|]. split; [done|].
  eexists [q2], []. split; [done|]. split; [by eexists|done].
Qed.

Lemma capture_quoted field s t : capture (quoted_re field) 1 s = Some t → quoteFree t.
Proof.
  intros (m & (before & _ & Hm)%search_sound & Hg)%capture_Some.
  apply langc_quoted in Hm as (ws & q1 & t' & q2 & _ & Ht & Hcs).
  rewrite Hcs in Hg. by injection Hg as <-.
Qed.

(** Up to the first quote of any kind. *)
Lemma split_at_quote body rest :
  ∃ t q tail, body ++ 96%N :: rest = t ++ q :: tail
              ∧ quoteFree t ∧ oneOf quotes q = true.
Proof.
  induction body as [|c body (t & q & tail & IH & Ht & Hq)]; simpl.
  - exists [], 96%N, rest. split_and!; [done|constructor|done].
  - destruct (oneOf quotes c) eqn:Hc.
    + exists [], c, (body ++ 96%N :: rest). split_and!; [done|constructor|done].
    + exists (c :: t), q, tail. rewrite IH. split; [done|]. split; [|done].
      constructor; [|done]. unfold noneOf. by rewrite Hc.
Qed.

(** Where the backtick form of the image pattern matches, so does the
    quoted form, which comes first. *)
Lemma image_first_form s m :
  exec_at image_re s = Some m →
  ∃ t, groups m = [(1, t)] ∧ quoteFree t.
Proof.
  unfold exec_at, image_re. cbn [run].
  set (k := λ s' cs, Some {| whole := _; groups := cs; after := s' |}).
  destruct (run (quoted_re (str "image:")) s [] k) as [m'|] eqn:H1.
  - intros [= ->].
    apply run_sound in H1 as (x & rest & cs & -> & Hx & [= <-]). simpl.
    apply langc_quoted in Hx as (ws & q1 & t & q2 & _ & Ht & ->). eauto.
  - intros (x & rest & cs & -> & Hx & _)%run_sound. exfalso.
    assert (is_Some (run (quoted_re (str "image:")) (x ++ rest) [] k)) as [? ?];
      [|congruence].
    apply run_spec; [by intros ? ? ? _; eexists|].
    revert Hx. cbn [seq langc]. setoid_rewrite langc_lit.
    intros (? & ? & ? & -> & [-> ->] & ws & ? & ? & -> & [Hws ->] &
            ? & ? & ? & -> & [-> ->] &
            body & ? & ? & -> & (? & [Hbody ->] & ->) &
            ? & ? & ? & -> & [-> ->] & -> & ->).
    destruct (split_at_quote body rest) as (t & q & tail & Heq & Ht & Hq).
    exists (str "image:" ++ ws ++ 96%N :: t ++ [q]), tail. split_and!.
    + rewrite app_nil_r, <-!(assoc_L (++)). do 2 f_equal.
      change (str "`") with [96%N]. cbn [app]. f_equal.
      rewrite <-(assoc_L (++)). cbn [app]. exact Heq.
    + by apply lang_quoted.
    + by eexists.
Qed.

Lemma imageParam_Some paramString image :
  imageParam paramString = Some image → image ≠ [] ∧ quoteFree image.
Proof.
  unfold imageParam. destruct (search image_re paramString) as [m|] eqn:Hm; [|done].
  apply search_exec in Hm as (before & s' & _ & Hm).
  apply image_first_form in Hm as (t & Hg & Ht). simpl. rewrite Hg.
  destruct t; simpl; [done|]. by intros [= <-].
Qed.

(** X1: the scalar parameters [extractGenerateSEOParams] reads out of a call
    hold none of the three quotes (a title stops at the first quote of any
    kind, so an apostrophe cuts it short), and an extracted image is never
    the empty text: the backtick form of the image pattern never decides
    the value, since the quoted form matches wherever it does. *)
Theorem extracted_scalars (content : jstring) (params : Params.t) :
  extractGenerateSEOParams content = Some params →
  (∀ t, Params.title params = Some t → quoteFree t) ∧
  (∀ d, Params.description params = Some d → quoteFree d) ∧
  (∀ image, Params.image params = Some image → image ≠ [] ∧ quoteFree image).
Proof.
  unfold extractGenerateSEOParams.
  destruct (search generateSEO_re content) as [m|]; [|done].
  intros [= <-]. simpl. split_and!.
  - intros t. apply capture_quoted.
  - intros d. apply capture_quoted.
  - intros image. apply imageParam_Some.
Qed.

(** An apostrophe cuts the title; an empty image is no image. *)
Lemma extracted_scalars_witness :
  ∃ params, extractGenerateSEOParams apostropheCall = Some params ∧
    Params.title params = Some (str "Driver") ∧ Params.image params = None ∧
    (∀ t, Params.title params = Some t → quoteFree t) ∧
    (∀ d, Params.description params = Some d → quoteFree d) ∧
    (∀ image, Params.image params = Some image → image ≠ [] ∧ quoteFree image).
Proof.
  eexists. split; [vm_compute; reflexivity|].
  split; [reflexivity|]. split; [reflexivity|].
  apply (extracted_scalars apostropheCall). vm_compute. reflexivity.
Defined.

(** ** Headings *)

(** The level of an opening heading tag is read back from its third code
    unit. *)
Lemma headingLevel_tag a b d rest :
  isCI 60%N a = true → isCI 104%N b = true → between 49 54 d = true →
  headingLevel (a :: b :: d :: rest) = Returns (N.to_nat (d - 48)).
Proof.
  intros Ha Hb Hd. unfold headingLevel.
  change level_re with
    (Seq (Seq (Chr (isCI 60%N)) (Seq (Chr (isCI 104%N)) Eps))
         (Seq (Group 1 (Chr (between 49 54))) Eps)).
  cbn [search]. unfold exec_at. cbn [run]. rewrite Ha, Hb, Hd.
  cbn [groups group Nat.eqb default length].
  replace (S (length rest) - length rest) with 1 by lia.
  cbn [take parseInt foldl]. f_equal.
Qed.

(** What [heading_re] matches begins with such a tag. *)
Lemma heading_match w template :
  w ∈ matchAll heading_re template →
  ∃ level, headingLevel w = Returns level ∧ 1 ≤ level ≤ 6.
Proof.
  intros [cs Hw]%matchAll_sound. revert Hw.
  change heading_re with
    (Seq (Seq (Chr (isCI 60%N)) (Seq (Chr (isCI 104%N)) Eps))
         (Seq (Group 1 (Chr (between 49 54)))
              (Seq (Star (noneOf (str ">"))) (Seq (lit (str ">")) Eps)))).
  cbn [langc].
  intros (? & ? & ? & -> & (? & ? & ? & -> & [(a & -> & Ha) _] &
            (? & ? & ? & -> & [(b & -> & Hb) _] & -> & _)) &
          (? & ? & ? & -> & (? & [(d & -> & Hd) _] & _) & _)).
  exists (N.to_nat (d - 48)). split.
  - rewrite <-!(assoc_L (++)). cbn [app]. by apply headingLevel_tag.
  - unfold between in Hd. apply andb_true_iff in Hd as [?%N.leb_le ?%N.leb_le]. lia.
Qed.

Lemma walkHeadings_returns headingMatches levels lastLevel hierarchyBroken :
  Forall (λ w, ∃ level, headingLevel w = Returns level ∧ 1 ≤ level ≤ 6)
         headingMatches →
  Forall (λ level, 1 ≤ level ≤ 6) levels →
  ∃ levels' broken,
    walkHeadings headingMatches levels lastLevel hierarchyBroken
      = Returns (levels', broken)
    ∧ Forall (λ level, 1 ≤ level ≤ 6) levels'
    ∧ length levels' = length levels + length headingMatches.
Proof.
  intros Hall. revert levels lastLevel hierarchyBroken.
  induction Hall as [|w rest (level & Hw & Hlevel) _ IH];
    intros levels lastLevel hierarchyBroken Hlevels.
  - exists levels, hierarchyBroken. simpl. split_and!; [done|done|lia].
  - cbn [walkHeadings]. rewrite Hw. cbn [exn_bind].
    destruct (IH (levels ++ [level]) level
                 (hierarchyBroken || (0 <? lastLevel) && (lastLevel + 1 <? level)))
      as (levels' & broken & -> & ? & Hlen).
    { apply Forall_app. split; [done|]. by apply Forall_singleton. }
    exists levels', broken. split_and!; [done|done|].
    rewrite Hlen, length_app. simpl. lia.
Qed.

(** X2: [checkHeadingStructure] never throws: the level pattern always
    matches what the heading pattern matched, so the unguarded index into
    that match is safe.  One level between 1 and 6 is recorded for every
    heading tag of the template, and at most two issues come back. *)
Theorem checkHeadingStructure_returns (content : jstring) :
  ∃ info, checkHeadingStructure content = Returns info
    ∧ Forall (λ level, 1 ≤ level ≤ 6) (HeadingInfo.headings info)
    ∧ length (HeadingInfo.issues info) ≤ 2
    ∧ (∀ templateMatch, search template_re content = Some templateMatch →
         length (HeadingInfo.headings info)
         = length (matchAll heading_re
                     (default [] (group 1 (groups templateMatch))))).
Proof.
  unfold checkHeadingStructure.
  destruct (search template_re content) as [templateMatch|].
  - set (template := default [] (group 1 (groups templateMatch))).
    destruct (walkHeadings_returns (matchAll heading_re template) [] 0 false)
      as (levels & broken & -> & Hlevels & Hlen).
    { apply Forall_forall. intros w. apply heading_match. }
    { constructor. }
    eexists. split; [reflexivity|].
    cbn [HeadingInfo.headings HeadingInfo.issues fst snd]. split_and!.
    + done.
    + destruct broken, (length (matchAll h1_re template) =? 0),
        (1 <? length (matchAll h1_re template));
        rewrite ?length_app; simpl; lia.
    + intros ? [= <-]. exact Hlen.
  - eexists. split; [reflexivity|]. simpl. split_and!; [constructor|lia|done].
Qed.

(** ** Pages that are dropped *)

Lemma find_named field meta m :
  find (λ m, is_str (MetaEntry.name m) field || is_str (MetaEntry.hid m) field) meta
    = Some m →
  m ∈ meta ∧ named field m.
Proof.
  induction meta as [|m' meta IH]; [done|]. cbn [find].
  destruct (is_str (MetaEntry.name m') field || is_str (MetaEntry.hid m') field) eqn:Hm.
  - intros [= <-]. split; [left|].
    apply orb_true_iff in Hm as [?%bool_decide_eq_true|?%bool_decide_eq_true];
      [by left|by right].
  - intros [? ?]%IH. split; [by right|done].
Qed.

Lemma checkMetaTags_dynamic_Throws seoOutput meta :
  checkMetaTags_dynamic seoOutput meta = Throws →
  ∃ m, m ∈ meta ∧ MetaEntry.content m = None
       ∧ (named (str "title") m ∨ named (str "description") m).
Proof.
  unfold checkMetaTags_dynamic.
  set (titleMeta := find (λ m, is_str (MetaEntry.name m) (str "title") || _) meta).
  set (descMeta := find (λ m, is_str (MetaEntry.name m) (str "description") || _) meta).
  assert (∀ issues, (∃ issues', match descMeta with
             | Some m => d ←! measured (MetaEntry.content m);
                         Returns (issues ++ descriptionLengthIssues d)
             | None => Returns issues
             end = Returns issues') ∨
          ∃ m, m ∈ meta ∧ MetaEntry.content m = None ∧ named (str "description") m)
    as Hdesc.
  { intros issues. destruct descMeta as [d|] eqn:Hd; [|left; by eexists].
    apply find_named in Hd as [? ?].
    destruct (MetaEntry.content d) eqn:Hc; [left; by eexists|right; eauto]. }
  destruct titleMeta as [t|] eqn:Ht.
  - apply find_named in Ht as [? ?].
    destruct (MetaEntry.content t) eqn:Hc; cbn [measured exn_bind];
      [|intros _; exists t; auto].
    destruct (Hdesc ([] ++ titleLengthIssues l)) as [[? ->]|(d & ? & ? & ?)];
      [done|eauto].
  - cbn [exn_bind].
    destruct (Hdesc []) as [[? ->]|(d & ? & ? & ?)]; [done|eauto].
Qed.

Lemma checkHeadingStructure_safe content :
  ∃ info, checkHeadingStructure content = Returns info.
Proof.
  unfold checkHeadingStructure.
  destruct (search template_re content) as [templateMatch|]; [|by eexists].
  set (template := default [] (group 1 (groups templateMatch))).
  destruct (walkHeadings_returns (matchAll heading_re template) [] 0 false)
    as (levels & broken & -> & _).
  { apply Forall_forall. intros w. apply heading_match. }
  { constructor. }
  by eexists.
Qed.

Lemma pageRecord_Throws doc schemas schemaDetails seoOutput :
  pageRecord doc schemas schemaDetails seoOutput = Throws →
  ∃ out meta, seoOutput = Some out ∧ SeoOutput.meta out = Some meta
              ∧ checkMetaTags_dynamic out meta = Throws.
Proof.
  unfold pageRecord.
  destruct (checkMetaTags (content doc) seoOutput) as [info|] eqn:Hmeta.
  - cbn [exn_bind].
    destruct (checkHeadingStructure_safe (content doc)) as [h ->]. done.
  - intros _. unfold checkMetaTags in Hmeta.
    destruct seoOutput as [out|]; [|done].
    destruct (SeoOutput.meta out) as [meta|] eqn:Hm; [|done]. eauto.
Qed.

(** X3: [checkPageSEO] ends in its [catch] clause, which drops the page
    from the report, only when the parameters of the call were extracted
    and the evaluator handed back a head object whose [meta] list holds a
    title or description entry without [content].  A page without a call,
    or one the evaluator could not evaluate, is never dropped that way. *)
Theorem checkPageSEO_throws (evaluator : Params.t → option SeoOutput.t)
    (doc : Document) :
  runWith evaluator (checkPageSEO doc) = Throws →
  ∃ params out meta m,
    extractGenerateSEOParams (content doc) = Some params
    ∧ evaluator params = Some out
    ∧ SeoOutput.meta out = Some meta
    ∧ m ∈ meta ∧ MetaEntry.content m = None
    ∧ (named (str "title") m ∨ named (str "description") m).
Proof.
  unfold checkPageSEO. destruct (existsb _ ignorePaths); [done|].
  destruct (includes (content doc) _).
  - destruct (extractGenerateSEOParams (content doc)) as [params|].
    + cbn [runWith].
      intros (out & meta & Hout & Hmeta & (m & ? & ? & ?)%checkMetaTags_dynamic_Throws)
        %pageRecord_Throws.
      exists params, out, meta, m. done.
    + cbn [runWith]. by intros (out & meta & [=] & _)%pageRecord_Throws.
  - cbn [runWith]. by intros (out & meta & [=] & _)%pageRecord_Throws.
Qed.

(** The home page is dropped when its title entry has no content. *)
Lemma checkPageSEO_throws_witness :
  runWith (answering titleWithoutContent) (checkPageSEO homePage) = Throws ∧
  ∃ params out meta m,
    extractGenerateSEOParams (content homePage) = Some params
    ∧ answering titleWithoutContent params = Some out
    ∧ SeoOutput.meta out = Some meta
    ∧ m ∈ meta ∧ MetaEntry.content m = None
    ∧ (named (str "title") m ∨ named (str "description") m).
Proof.
  split; [vm_compute; reflexivity|].
  apply (checkPageSEO_throws (answering titleWithoutContent) homePage).
  vm_compute. reflexivity.
Defined.

(** ** The fallback schemas of a page *)

Lemma pushIf_Forall {A} (P : A → Prop) cond x xs :
  Forall P xs → P x → Forall P (pushIf cond x xs).
Proof.
  intros Hxs Hx. unfold pushIf. destruct cond; [|done].
  apply Forall_app. split; [done|]. by apply Forall_singleton.
Qed.

Lemma pushIf_prefix {A} cond (x : A) xs : xs `prefix_of` pushIf cond x xs.
Proof.
  unfold pushIf. destruct cond; [by eexists|]. exists []. by rewrite app_nil_r.
Qed.

Lemma pushIf_length {A} cond (x : A) xs : length (pushIf cond x xs) ≤ S (length xs).
Proof. unfold pushIf. destruct cond; rewrite ?length_app; simpl; lia. Qed.

(** The table without a breadcrumb. *)
Lemma mapParamsToSchemas_extracted params :
  Params.breadcrumb params = false →
  [str "WebPage"; str "Organization"] `prefix_of` mapParamsToSchemas (Some params)
  ∧ (str "BreadcrumbList" ∉ mapParamsToSchemas (Some params))
  ∧ length (mapParamsToSchemas (Some params)) ≤ 10.
Proof.
  intros Hb. unfold mapParamsToSchemas. rewrite Hb. cbn [pushIf].
  change (([] ++ [str "WebPage"]) ++ [str "Organization"])
    with [str "WebPage"; str "Organization"].
  set (base := [str "WebPage"; str "Organization"]).
  split_and!.
  - repeat (etrans; [|apply pushIf_prefix]). done.
  - match goal with
    | |- _ ∉ ?schemas =>
        assert (Forall (λ s, s ≠ str "BreadcrumbList") schemas) as Hall
    end.
    { repeat (apply pushIf_Forall; [|by intros [=]]).
      by repeat constructor. }
    intros Hin. by apply (proj1 (Forall_forall _ _) Hall _ Hin).
  - repeat (etrans; [apply pushIf_length|apply le_n_S]). simpl. lia.
Qed.

Lemma extractGenerateSEOParams_breadcrumb content params :
  extractGenerateSEOParams content = Some params → Params.breadcrumb params = false.
Proof.
  unfold extractGenerateSEOParams. destruct (search generateSEO_re content); [|done].
  by intros [= <-].
Qed.

Lemma legacySchemas_nonempty content schemas :
  0 < length schemas → legacySchemas content schemas = schemas.
Proof.
  unfold legacySchemas. intros H. destruct schemas; simpl in *; [lia|done].
Qed.

(** X4: when the evaluator cannot evaluate the call of a page, the schemas
    of the page are those of the fallback table for the extracted
    parameters and nothing else: the list opens with [WebPage] and
    [Organization], so the legacy detection never runs, and
    [BreadcrumbList] is never reported, whatever the call holds, since
    the extractor does not read a breadcrumb. *)
Theorem fallback_schemas (evaluator : Params.t → option SeoOutput.t)
    (doc : Document) (params : Params.t) (page : Page.t) :
  extractGenerateSEOParams (content doc) = Some params →
  evaluator params = None →
  runWith evaluator (checkPageSEO doc) = Returns (Some page) →
  Page.hasGenerateSEO page = true →
  Page.schemas page = mapParamsToSchemas (Some params)
  ∧ [str "WebPage"; str "Organization"] `prefix_of` Page.schemas page
  ∧ (str "BreadcrumbList" ∉ Page.schemas page)
  ∧ length (Page.schemas page) ≤ 10.
Proof.
  intros Hparams Hnone Hrun Hcall.
  pose proof (mapParamsToSchemas_extracted params
                (extractGenerateSEOParams_breadcrumb _ _ Hparams))
    as (Hpre & Hbread & Hlen).
  assert (Page.schemas page = mapParamsToSchemas (Some params)) as ->; [|done].
  revert Hrun. unfold checkPageSEO. destruct (existsb _ ignorePaths); [done|].
  destruct (includes (content doc) (str "generateSEO(")) eqn:Hinc.
  - rewrite Hparams. cbn [runWith]. rewrite Hnone. cbn [schemasOf].
    unfold pageRecord.
    destruct (checkMetaTags (content doc) None); [|done]. cbn [exn_bind].
    destruct (checkHeadingStructure (content doc)); [|done]. cbn [exn_bind].
    intros [= <-]. cbn [Page.schemas].
    apply legacySchemas_nonempty.
    destruct Hpre as [rest ->]. simpl. lia.
  - cbn [runWith]. unfold pageRecord.
    destruct (checkMetaTags (content doc) None); [|done]. cbn [exn_bind].
    destruct (checkHeadingStructure (content doc)); [|done]. cbn [exn_bind].
    intros [= <-]. cbn [Page.hasGenerateSEO] in Hcall. congruence.
Qed.

(** A call with a breadcrumb, two products and a contact page. *)
Lemma fallback_schemas_witness :
  ∃ page,
    runWith unavailable (checkPageSEO breadcrumbPage) = Returns (Some page)
    ∧ Page.schemas page
      = [str "WebPage"; str "Organization"; str "Product (2 products)";
         str "ContactPage"]
    ∧ [str "WebPage"; str "Organization"] `prefix_of` Page.schemas page
    ∧ (str "BreadcrumbList" ∉ Page.schemas page)
    ∧ length (Page.schemas page) ≤ 10.
Proof.
  eexists. split; [vm_compute; reflexivity|].
  split; [vm_compute; reflexivity|].
  unshelve eapply (proj2 (fallback_schemas unavailable breadcrumbPage _ _ _ _ _ _));
    [| vm_compute; reflexivity | reflexivity | vm_compute; reflexivity
     | vm_compute; reflexivity].
Defined.

(** ** The tags found in the text of a page *)

Lemma setKey_elem key obj k :
  k ∈ setKey key obj ↔ (k = key ∧ key ≠ str "__proto__") ∨ k ∈ obj.
Proof.
  unfold setKey. case_bool_decide as Hp.
  - split; [by right|]. intros [[_ ?]|?]; done.
  - rewrite elem_of_union, elem_of_singleton. tauto.
Qed.

Lemma scanTags_elem prefix names content k :
  k ∈ scanTags prefix names content ↔
  ∃ tag, tag ∈ names ∧ includes content tag = true
         ∧ k = tagKey prefix tag ∧ k ≠ str "__proto__".
Proof.
  unfold scanTags.
  assert (∀ acc : gset jstring,
    k ∈ foldl (λ acc tag,
               if includes content tag then setKey (tagKey prefix tag) acc else acc)
            acc names ↔
    k ∈ acc ∨ ∃ tag, tag ∈ names ∧ includes content tag = true
                     ∧ k = tagKey prefix tag ∧ k ≠ str "__proto__") as Hgen.
  { induction names as [|tag names IH]; intros acc.
    - simpl. split; [by left|]. intros [?|(tag & []%elem_of_nil & _)]. done.
    - cbn [foldl]. rewrite IH. destruct (includes content tag) eqn:Hinc.
      + rewrite setKey_elem. split.
        * intros [[[-> ?]|?]|(tag' & ? & ? & ? & ?)].
          -- right. exists tag. split_and!; [left|done|done|done].
          -- by left.
          -- right. exists tag'. split_and!; [by right|done|done|done].
        * intros [?|(tag' & [->|?]%elem_of_cons & ? & -> & ?)].
          -- left. by right.
          -- left. left. done.
          -- right. exists tag'. done.
      + split.
        * intros [?|(tag' & ? & ? & ? & ?)]; [by left|].
          right. exists tag'. split_and!; [by right|done|done|done].
        * intros [?|(tag' & [->|?]%elem_of_cons & ? & ? & ?)]; [by left|congruence|].
          right. exists tag'. done. }
  rewrite Hgen. split; [|by right]. by intros [[]%elem_of_empty|?].
Qed.

(** X5: in a page without a call of [generateSEO], a required Open Graph or
    Twitter tag counts as present exactly when the text holds its colon
    form ([og:title], [twitter:card], ...).  The camel case names that are
    searched as well ([ogTitle], [twitterCard], ...) set other keys
    ([ogtitle], [twittercard]) and never satisfy a required tag. *)
Theorem static_required_tags (content : jstring) :
  includes content (str "generateSEO(") = false →
  (∀ tag, tag ∈ requiredOgTags →
     hasKey (MetaInfo.ogTags (checkMetaTags_static content)) tag
     = includes content (str "og:" ++ tag))
  ∧ (∀ tag, tag ∈ requiredTwitterTags →
       hasKey (MetaInfo.twitterTags (checkMetaTags_static content)) tag
       = includes content (str "twitter:" ++ tag)).
Proof.
  intros Hcall. unfold checkMetaTags_static. rewrite Hcall.
  cbn [MetaInfo.ogTags MetaInfo.twitterTags]. unfold hasKey.
  split; intros tag Htag.
  - destruct (includes content (str "og:" ++ tag)) eqn:Hinc;
      [apply bool_decide_eq_true|apply bool_decide_eq_false];
      rewrite scanTags_elem; unfold requiredOgTags in Htag.
    + exists (str "og:" ++ tag).
      repeat (apply elem_of_cons in Htag as [->|Htag]);
        [..|by apply elem_of_nil in Htag];
        (split_and!; [vm_compute; set_solver | exact Hinc
                     | by vm_compute | by vm_compute]).
    + intros (name & Hname & Hfound & Hkey & _). unfold ogTagNames in Hname.
      repeat (apply elem_of_cons in Htag as [->|Htag]);
        [..|by apply elem_of_nil in Htag];
        repeat (apply elem_of_cons in Hname as [->|Hname]);
        try (by apply elem_of_nil in Hname);
        first [exact (eq_true_false_abs _ Hfound Hinc) | by vm_compute in Hkey].
  - destruct (includes content (str "twitter:" ++ tag)) eqn:Hinc;
      [apply bool_decide_eq_true|apply bool_decide_eq_false];
      rewrite scanTags_elem; unfold requiredTwitterTags in Htag.
    + exists (str "twitter:" ++ tag).
      repeat (apply elem_of_cons in Htag as [->|Htag]);
        [..|by apply elem_of_nil in Htag];
        (split_and!; [vm_compute; set_solver | exact Hinc
                     | by vm_compute | by vm_compute]).
    + intros (name & Hname & Hfound & Hkey & _). unfold twitterTagNames in Hname.
      repeat (apply elem_of_cons in Htag as [->|Htag]);
        [..|by apply elem_of_nil in Htag];
        repeat (apply elem_of_cons in Hname as [->|Hname]);
        try (by apply elem_of_nil in Hname);
        first [exact (eq_true_false_abs _ Hfound Hinc) | by vm_compute in Hkey].
Qed.

(** The camel case keys of [useSeoMeta] leave the title tag missing. *)
Lemma static_required_tags_witness :
  includes camelCasePage (str "generateSEO(") = false
  ∧ includes camelCasePage (str "ogTitle") = true
  ∧ hasKey (MetaInfo.ogTags (checkMetaTags_static camelCasePage)) (str "title")
    = false.
Proof.
  split; [vm_compute; reflexivity|]. split; [vm_compute; reflexivity|].
  destruct (static_required_tags camelCasePage) as [Hog _];
    [vm_compute; reflexivity|].
  rewrite (Hog (str "title")); [vm_compute; reflexivity|].
  unfold requiredOgTags. apply elem_of_cons. by left.
Defined.

(** ** The sitemap *)

Lemma stripSlash_quoteFree url : quoteFree url → quoteFree (stripSlash url).
Proof.
  unfold stripSlash. destruct url as [|c rest]; [done|].
  destruct (c =? 47)%N; [|done]. by intros [_ ?]%Forall_cons.
Qed.

(** What [loc_re] matched holds a text of [quotedText_re], and the URL read
    from it has no quote. *)
Lemma locUrl_match w content :
  w ∈ matchAll loc_re content →
  ∃ url, locUrl w = Returns url ∧ quoteFree url.
Proof.
  intros [cs Hw]%matchAll_sound. revert Hw.
  change loc_re with (Seq (lit (str "loc:")) (Seq (Star is_space) quotedText_re)).
  cbn [langc].
  intros (x1 & ? & ? & -> & _ & x2 & x3 & ? & -> & _ & Hx3%langc_lang).
  unfold locUrl.
  destruct (search quotedText_re (x1 ++ x2 ++ x3)) as [m|] eqn:Hm.
  - apply search_sound in Hm as (_ & _ & Hm). revert Hm.
    unfold quotedText_re, plus. cbn [seq langc].
    intros (? & ? & ? & _ & _ & u & ? & ? & _ &
            (? & (u1 & u2 & ? & -> & [(c & -> & Hc) ->] & [Hu ->]) & ->) &
            ? & ? & ? & _ & [_ ->] & _ & ->).
    cbn [group Nat.eqb]. eexists. split; [reflexivity|].
    apply stripSlash_quoteFree. by constructor.
  - apply search_None in Hm. destruct Hm.
    exists (x1 ++ x2), x3, []. by rewrite app_nil_r, (assoc_L (++)).
Qed.

Lemma mapExn_returns {A B} (f : A → exn B) (P : B → Prop) xs :
  Forall (λ x, ∃ y, f x = Returns y ∧ P y) xs →
  ∃ ys, mapExn f xs = Returns ys ∧ Forall P ys ∧ length ys = length xs.
Proof.
  induction 1 as [|x xs (y & Hy & ?) _ (ys & Hys & ? & ?)]; simpl.
  - by exists [].
  - rewrite Hy, Hys. simpl. exists (y :: ys). split_and!; [done|by constructor|].
    simpl. by f_equal.
Qed.

(** X6: reading the sitemap never throws: the quoted part is always found
    again in what the [loc:] pattern matched, so the unguarded index is
    safe and a sitemap file that exists always replaces the list.  The
    stored URLs hold no quote and no image marker, and there are at most
    as many as [loc:] entries. *)
Theorem sitemapUrls_returns (content : jstring) (sitemapPages : list jstring) :
  ∃ urls,
    sitemapUrls content = Returns urls
    ∧ checkSitemap (Some content) sitemapPages = urls
    ∧ Forall (λ url, quoteFree url ∧ isImageUrl url = false) urls
    ∧ length urls ≤ length (matchAll loc_re content).
Proof.
  unfold checkSitemap, sitemapUrls.
  destruct (mapExn_returns locUrl quoteFree (matchAll loc_re content))
    as (urls & -> & Hurls & <-).
  { apply Forall_forall. intros w. apply locUrl_match. }
  cbn [exn_bind]. eexists. split_and!; [done|done| |apply length_filter].
  apply Forall_forall. intros url [? ?]%list_elem_of_filter. split; [|done].
  by apply (proj1 (Forall_forall _ _) Hurls).
Qed.

(** ** Runs *)

Lemma runWith_bind {A B} evaluator (c : Evaluation A) (f : A → Evaluation B) :
  runWith evaluator (bind c f) = runWith evaluator (f (runWith evaluator c)).
Proof. induction c as [a|params k IH]; simpl; [done|]. apply IH. Qed.

Lemma evaluations_bind {A B} evaluator (c : Evaluation A) (f : A → Evaluation B) :
  evaluations evaluator (bind c f)
  = evaluations evaluator c ++ evaluations evaluator (f (runWith evaluator c)).
Proof. induction c as [a|params k IH]; simpl; [done|]. f_equal. apply IH. Qed.

Lemma runWith_checkPages evaluator docs :
  runWith evaluator (checkPages docs)
  = (λ doc, runWith evaluator (checkPageSEO doc)) <$> docs.
Proof.
  induction docs as [|doc docs IH]; [done|].
  cbn [checkPages]. rewrite !runWith_bind. cbn [runWith]. by rewrite IH.
Qed.

Lemma evaluations_checkPageSEO evaluator doc :
  evaluations evaluator (checkPageSEO doc) = option_list (asked doc).
Proof.
  unfold checkPageSEO, asked, ignored.
  destruct (existsb _ ignorePaths); [done|].
  destruct (includes (content doc) _); [|done].
  by destruct (extractGenerateSEOParams (content doc)).
Qed.

Lemma evaluations_checkPages evaluator docs :
  evaluations evaluator (checkPages docs) = omap asked docs.
Proof.
  induction docs as [|doc docs IH]; [done|].
  cbn [checkPages]. rewrite !evaluations_bind, IH, evaluations_checkPageSEO.
  cbn [evaluations]. rewrite app_nil_r.
  change (omap asked (doc :: docs))
    with (match asked doc with
          | Some params => params :: omap asked docs
          | None => omap asked docs
          end).
  by destruct (asked doc).
Qed.

(** X7: in a run the evaluator is called once for every page that lies
    under no ignored path and holds a call from which parameters are
    extracted, in the order of the pages and with exactly those
    parameters; no other page reaches it, and what the evaluator answers
    changes nothing about the calls that follow. *)
Theorem evaluations_main (evaluator : Params.t → option SeoOutput.t)
    (docs : list Document) (sitemapPages : list jstring)
    (robotsConfig : option bool) :
  evaluations evaluator (main docs sitemapPages robotsConfig) = omap asked docs.
Proof.
  unfold main. rewrite evaluations_bind, evaluations_checkPages.
  cbn [evaluations]. by rewrite app_nil_r.
Qed.

Lemma pagesOf_runWith evaluator docs :
  pagesOf ((λ doc, runWith evaluator (checkPageSEO doc)) <$> docs)
  = records evaluator docs.
Proof.
  unfold pagesOf, records, recordOf.
  induction docs as [|doc docs IH]; [done|]. cbn [fmap list_fmap omap list_omap].
  rewrite <-IH. by destruct (runWith evaluator (checkPageSEO doc)) as [[page|]|].
Qed.

Lemma recordOf_Some evaluator doc page :
  recordOf evaluator doc = Some page →
  ignored doc = false ∧ Page.path page = relativePath doc
  ∧ Page.pageName page = stripVue (relativePath doc).
Proof.
  unfold recordOf.
  destruct (runWith evaluator (checkPageSEO doc)) as [[page'|]|] eqn:Hrun; try done.
  intros [= ->].
  assert (∀ schemas schemaDetails seoOutput,
    pageRecord doc schemas schemaDetails seoOutput = Returns (Some page) →
    Page.path page = relativePath doc
    ∧ Page.pageName page = stripVue (relativePath doc)) as Hrecord.
  { intros schemas schemaDetails seoOutput. unfold pageRecord.
    destruct (checkMetaTags _ _); [|done]. cbn [exn_bind].
    destruct (checkHeadingStructure _); [|done]. cbn [exn_bind].
    by intros [= <-]. }
  revert Hrun. unfold checkPageSEO, ignored.
  destruct (existsb _ ignorePaths); [done|]. split; [done|revert Hrun].
  destruct (includes (content doc) _);
    [destruct (extractGenerateSEOParams (content doc))|]; cbn [runWith];
    apply Hrecord.
Qed.

(** What the loop over the page results makes of the two lists. *)
Lemma collect_lists results result results' :
  collect results result = Returns results' →
  Results.pagesWithSEO results'
  = Results.pagesWithSEO results
    ++ filter (λ page, Page.hasSEO page = true) (pagesOf [result])
  ∧ Results.pagesWithoutSEO results'
    = Results.pagesWithoutSEO results
      ++ filter (λ page, Page.hasSEO page = false) (pagesOf [result])
  ∧ Results.sitemapPages results' = Results.sitemapPages results
  ∧ Results.missingFromSitemap results' = Results.missingFromSitemap results
  ∧ Results.robotsConfig results' = Results.robotsConfig results
  ∧ Results.categoryScores results' = Results.categoryScores results.
Proof.
  unfold collect. destruct result as [[page|]|].
  - change (pagesOf [Returns (Some page)]) with [page].
    rewrite !filter_cons, !filter_nil.
    destruct (Page.hasSEO page) eqn:Hseo.
    + rewrite decide_True, decide_False by done.
      destruct (imageOf page) as [image|].
      * destruct (trackImage _ _ _); [|done]. cbn [exn_bind].
        intros [= <-]. simpl. by rewrite app_nil_r.
      * intros [= <-]. simpl. by rewrite app_nil_r.
    + rewrite decide_False, decide_True by done.
      intros [= <-]. simpl. by rewrite app_nil_r.
  - intros [= <-]. change (pagesOf [Returns None]) with (@nil Page.t).
    by rewrite !filter_nil, !app_nil_r.
  - intros [= <-]. change (pagesOf [Throws]) with (@nil Page.t).
    by rewrite !filter_nil, !app_nil_r.
Qed.

Lemma aggregate_lists pageResults results results' :
  aggregate pageResults results = Returns results' →
  Results.pagesWithSEO results'
  = Results.pagesWithSEO results
    ++ filter (λ page, Page.hasSEO page = true) (pagesOf pageResults)
  ∧ Results.pagesWithoutSEO results'
    = Results.pagesWithoutSEO results
      ++ filter (λ page, Page.hasSEO page = false) (pagesOf pageResults)
  ∧ Results.sitemapPages results' = Results.sitemapPages results
  ∧ Results.missingFromSitemap results' = Results.missingFromSitemap results
  ∧ Results.robotsConfig results' = Results.robotsConfig results
  ∧ Results.categoryScores results' = Results.categoryScores results.
Proof.
  revert results. induction pageResults as [|result rest IH]; intros results.
  - intros [= <-]. change (pagesOf []) with (@nil Page.t).
    by rewrite !filter_nil, !app_nil_r.
  - cbn [aggregate].
    destruct (collect results result) as [results1|] eqn:Hc; [|done].
    cbn [exn_bind]. intros (-> & -> & -> & -> & -> & ->)%IH.
    apply collect_lists in Hc as (-> & -> & -> & -> & -> & ->).
    rewrite (pagesOf_cons result rest), !filter_app, !(assoc_L (++)). done.
Qed.

Lemma calculateCategoryScores_lists results :
  Results.pagesWithSEO (calculateCategoryScores results) = Results.pagesWithSEO results
  ∧ Results.pagesWithoutSEO (calculateCategoryScores results)
    = Results.pagesWithoutSEO results
  ∧ Results.sitemapPages (calculateCategoryScores results)
    = Results.sitemapPages results
  ∧ Results.missingFromSitemap (calculateCategoryScores results)
    = Results.missingFromSitemap results.
Proof. unfold calculateCategoryScores. by destruct (_ =? 0). Qed.

(** What a run that returns has aggregated, before the scores. *)
Lemma main_Returns evaluator docs sitemapPages robotsConfig results :
  runWith evaluator (main docs sitemapPages robotsConfig) = Returns results →
  ∃ aggregated,
    aggregate ((λ doc, runWith evaluator (checkPageSEO doc)) <$> docs) results0
      = Returns aggregated
    ∧ results
      = calculateCategoryScores (withSite sitemapPages robotsConfig aggregated).
Proof.
  unfold main. rewrite runWith_bind, runWith_checkPages. cbn [runWith].
  destruct (aggregate _ results0) as [aggregated|]; [|done].
  cbn [exn_bind]. intros [= <-]. by exists aggregated.
Qed.

(** X8: a run files every record under exactly one of the two lists, in
    the order of the pages: [pagesWithSEO] holds the records with [hasSEO]
    and [pagesWithoutSEO] the others.  A page under an ignored path and a
    page dropped by [checkPageSEO] are in neither, and the stored sitemap
    is the one handed in. *)
Theorem main_lists (evaluator : Params.t → option SeoOutput.t)
    (docs : list Document) (sitemapPages : list jstring)
    (robotsConfig : option bool) (results : Results.t) :
  runWith evaluator (main docs sitemapPages robotsConfig) = Returns results →
  Results.pagesWithSEO results
  = filter (λ page, Page.hasSEO page = true) (records evaluator docs)
  ∧ Results.pagesWithoutSEO results
    = filter (λ page, Page.hasSEO page = false) (records evaluator docs)
  ∧ Results.sitemapPages results = sitemapPages
  ∧ (∀ page, page ∈ Results.pagesWithSEO results ++ Results.pagesWithoutSEO results →
       ∃ doc, doc ∈ docs ∧ ignored doc = false
              ∧ Page.path page = relativePath doc).
Proof.
  intros (aggregated & Hagg & ->)%main_Returns.
  apply aggregate_lists in Hagg as (Hwith & Hwithout & _).
  rewrite pagesOf_runWith in Hwith, Hwithout.
  destruct (calculateCategoryScores_lists
              (withSite sitemapPages robotsConfig aggregated))
    as (-> & -> & -> & _).
  cbn [withSite Results.pagesWithSEO Results.pagesWithoutSEO Results.sitemapPages].
  rewrite Hwith, Hwithout. cbn [results0 Results.pagesWithSEO
    Results.pagesWithoutSEO app]. split_and!; [done..|].
  intros page [[_ Hin]%list_elem_of_filter|[_ Hin]%list_elem_of_filter]%elem_of_app;
    apply list_elem_of_omap in Hin as (doc & ? & (? & ? & _)%recordOf_Some);
    by exists doc.
Qed.

(** Of three pages one is covered, one is not and one is ignored. *)
Lemma main_lists_witness :
  ∃ results,
    runWith unavailable (main [homePage; plainPage; adminPage] [] None)
      = Returns results
    ∧ Page.path <$> Results.pagesWithSEO results = [str "index.vue"]
    ∧ Results.pagesWithSEO results
      = filter (λ page, Page.hasSEO page = true)
          (records unavailable [homePage; plainPage; adminPage]).
Proof.
  eexists. split; [vm_compute; reflexivity|]. split; [vm_compute; reflexivity|].
  unshelve eapply
    (proj1 (main_lists unavailable [homePage; plainPage; adminPage] [] None _ _)).
  vm_compute. reflexivity.
Defined.

(** ** The image index of a run *)

Lemma collect_index results result results' :
  collect results result = Returns results' →
  (∀ image pages, Results.ogImageUsage results !! image = Some pages → pages ≠ []) →
  (∀ image pages, Results.ogImageUsage results' !! image = Some pages → pages ≠ [])
  ∧ Results.pagesWithoutOGImage results'
    = Results.pagesWithoutOGImage results
      ++ (Page.pageName <$> filter lacksImage (pagesOf [result])).
Proof.
  unfold collect. destruct result as [[page|]|];
    [|intros [= <-] ?; by rewrite app_nil_r..].
  change (pagesOf [Returns (Some page)]) with [page].
  destruct (Page.hasSEO page) eqn:Hseo.
  - destruct (imageOf page) as [image|] eqn:Himage.
    + destruct (trackImage _ _ _) as [usage|] eqn:Htrack; [|done].
      cbn [exn_bind]. intros [= <-] Hinv. cbn [Results.ogImageUsage
        Results.pagesWithoutOGImage].
      apply trackImage_lookup in Htrack as [Hhere Hother].
      rewrite filter_cons_False by (intros (_ & _ & ?); congruence). split.
      * intros image' pages. destruct (decide (image' = image)) as [->|Hne].
        -- rewrite Hhere. intros [= <-]. by destruct (default [] _).
        -- rewrite (Hother _ Hne). apply Hinv.
      * by rewrite app_nil_r.
    + intros [= <-] Hinv. cbn [Results.ogImageUsage Results.pagesWithoutOGImage].
      split; [done|]. destruct (Page.hasGenerateSEO page) eqn:Hcall.
      * by rewrite filter_cons_True.
      * rewrite filter_cons_False by (intros (_ & ? & _); congruence).
        by rewrite app_nil_r.
  - intros [= <-] Hinv. cbn [Results.ogImageUsage Results.pagesWithoutOGImage].
    rewrite filter_cons_False by (intros (? & _); congruence). by rewrite app_nil_r.
Qed.

Lemma aggregate_index pageResults results results' :
  aggregate pageResults results = Returns results' →
  (∀ image pages, Results.ogImageUsage results !! image = Some pages → pages ≠ []) →
  (∀ image pages, Results.ogImageUsage results' !! image = Some pages → pages ≠ [])
  ∧ Results.pagesWithoutOGImage results'
    = Results.pagesWithoutOGImage results
      ++ (Page.pageName <$> filter lacksImage (pagesOf pageResults)).
Proof.
  revert results. induction pageResults as [|result rest IH]; intros results.
  - intros [= <-] ?. by rewrite app_nil_r.
  - cbn [aggregate].
    destruct (collect results result) as [results1|] eqn:Hc; [|done].
    cbn [exn_bind]. intros Hrest Hinv.
    destruct (collect_index _ _ _ Hc Hinv) as [Hinv1 Hlist1].
    destruct (IH _ Hrest Hinv1) as [Hinv' Hlist']. split; [done|].
    by rewrite Hlist', Hlist1, (pagesOf_cons result rest), filter_app, fmap_app,
      (assoc_L (++)).
Qed.

Lemma calculateCategoryScores_index results :
  Results.ogImageUsage (calculateCategoryScores results) = Results.ogImageUsage results
  ∧ Results.pagesWithoutOGImage (calculateCategoryScores results)
    = Results.pagesWithoutOGImage results.
Proof. unfold calculateCategoryScores. by destruct (_ =? 0). Qed.

(** X9: after a run, the index has an entry for an image exactly when some
    covered page carries it, and the entry lists the short names of those
    pages in the order of the pages (so an image counts as a duplicate
    exactly when two covered pages carry it); [pagesWithoutOGImage] lists
    the covered pages that call [generateSEO] without an image. *)
Theorem main_image_index (evaluator : Params.t → option SeoOutput.t)
    (docs : list Document) (sitemapPages : list jstring)
    (robotsConfig : option bool) (results : Results.t) :
  runWith evaluator (main docs sitemapPages robotsConfig) = Returns results →
  (∀ image pages,
     Results.ogImageUsage results !! image = Some pages ↔
     pages = usersOf image (records evaluator docs) ∧ pages ≠ [])
  ∧ Results.pagesWithoutOGImage results
    = Page.pageName <$> filter lacksImage (records evaluator docs).
Proof.
  intros (aggregated & Hagg & ->)%main_Returns.
  destruct (calculateCategoryScores_index
              (withSite sitemapPages robotsConfig aggregated)) as [-> ->].
  cbn [withSite Results.ogImageUsage Results.pagesWithoutOGImage].
  destruct (aggregate_index _ _ _ Hagg) as [Hinv Hlist].
  { intros image pages. cbn [results0 Results.ogImageUsage].
    by rewrite lookup_empty. }
  rewrite pagesOf_runWith in Hlist. split; [|exact Hlist].
  intros image pages.
  pose proof (aggregate_usage _ _ _ image Hagg) as Husage.
  rewrite pagesOf_runWith in Husage.
  cbn [results0 Results.ogImageUsage] in Husage. rewrite lookup_empty in Husage.
  cbn [default app] in Husage. split.
  - intros Hl. rewrite Hl in Husage. cbn [default] in Husage.
    split; [done|]. by apply (Hinv image).
  - intros [-> Hne].
    destruct (Results.ogImageUsage aggregated !! image) as [pages|]; [by f_equal|].
    by destruct Hne.
Qed.

(** Two pages with the same image, and a page without a call. *)
Lemma main_image_index_witness :
  ∃ results,
    runWith unavailable (main [homePage; plainPage; productsPage] [] None)
      = Returns results
    ∧ Results.ogImageUsage results !! str "/img/homepage.png"
      = Some [str "index"; str "products"].
Proof.
  eexists. split; [vm_compute; reflexivity|].
  unshelve eapply
    (proj2 (proj1 (main_image_index unavailable [homePage; plainPage; productsPage]
                     [] None _ _)
              (str "/img/homepage.png") [str "index"; str "products"]) _).
  - vm_compute. reflexivity.
  - split; [vm_compute; reflexivity|discriminate].
Defined.

(** ** Runs that end with an exception *)

Lemma collect_cases results result :
  (∀ key, key ∈ objectPrototypeKeys → Results.ogImageUsage results !! key = None) →
  (collect results result = Throws
   ∧ ∃ page image, page ∈ pagesOf [result] ∧ carries image page
                   ∧ image ∈ objectPrototypeKeys)
  ∨ (∃ results', collect results result = Returns results'
       ∧ (∀ key, key ∈ objectPrototypeKeys →
            Results.ogImageUsage results' !! key = None)
       ∧ ¬ ∃ page image, page ∈ pagesOf [result] ∧ carries image page
                         ∧ image ∈ objectPrototypeKeys).
Proof.
  intros Hinv. unfold collect. destruct result as [[page|]|].
  - change (pagesOf [Returns (Some page)]) with [page]. unfold carries.
    destruct (Page.hasSEO page) eqn:Hseo.
    + destruct (imageOf page) as [image|] eqn:Himage.
      * destruct (decide (image ∈ objectPrototypeKeys)) as [Hkey|Hkey].
        -- left. rewrite (trackImage_Throws _ _ _ Hkey (Hinv _ Hkey)).
           split; [done|]. exists page, image.
           split_and!; [by apply list_elem_of_singleton|done..].
        -- right.
           destruct (trackImage_Returns image (Page.pageName page)
                       (Results.ogImageUsage results) Hkey) as [usage Ht].
           rewrite Ht. cbn [exn_bind]. eexists. split; [done|].
           cbn [Results.ogImageUsage]. split.
           ++ intros key Hin. apply trackImage_lookup in Ht as [_ Hother].
              rewrite Hother by (by intros ->). by apply Hinv.
           ++ intros (page' & image' & ->%list_elem_of_singleton & [_ Hi] & Hk).
              congruence.
      * right. eexists. split; [done|]. split; [done|].
        intros (page' & image' & ->%list_elem_of_singleton & [_ Hi] & Hk).
        congruence.
    + right. eexists. split; [done|]. split; [done|].
      intros (page' & image' & ->%list_elem_of_singleton & [Hs _] & Hk).
      congruence.
  - right. eexists. split; [done|]. split; [done|].
    by intros (page' & image' & []%elem_of_nil & _).
  - right. eexists. split; [done|]. split; [done|].
    by intros (page' & image' & []%elem_of_nil & _).
Qed.

Lemma aggregate_Throws pageResults results :
  (∀ key, key ∈ objectPrototypeKeys → Results.ogImageUsage results !! key = None) →
  aggregate pageResults results = Throws ↔
  ∃ page image, page ∈ pagesOf pageResults ∧ carries image page
                ∧ image ∈ objectPrototypeKeys.
Proof.
  revert results. induction pageResults as [|result rest IH]; intros results Hinv.
  - split; [done|]. by intros (page & image & []%elem_of_nil & _).
  - cbn [aggregate]. rewrite (pagesOf_cons result rest).
    destruct (collect_cases results result Hinv)
      as [[-> (page & image & ? & ? & ?)]|(results1 & -> & Hinv1 & Hnone)].
    + split; [intros _|done]. exists page, image.
      split_and!; [apply elem_of_app; by left|done..].
    + cbn [exn_bind]. rewrite (IH _ Hinv1). split.
      * intros (page & image & ? & ? & ?). exists page, image.
        split_and!; [apply elem_of_app; by right|done..].
      * intros (page & image & [?|?]%elem_of_app & ? & ?).
        -- destruct Hnone. by exists page, image.
        -- by exists page, image.
Qed.

(** X10: a run ends with an exception, and so without a report, exactly
    when a covered page carries an image parameter that is the name of a
    property every object inherits ([constructor], [toString], ...): the
    index then holds no list to push onto.  No other page and no answer of
    the evaluator makes the aggregation fail. *)
Theorem main_throws (evaluator : Params.t → option SeoOutput.t)
    (docs : list Document) (sitemapPages : list jstring)
    (robotsConfig : option bool) :
  runWith evaluator (main docs sitemapPages robotsConfig) = Throws ↔
  ∃ page image, page ∈ records evaluator docs ∧ carries image page
                ∧ image ∈ objectPrototypeKeys.
Proof.
  rewrite <-pagesOf_runWith, <-(aggregate_Throws _ results0)
    by (intros key _; apply lookup_empty).
  unfold main. rewrite runWith_bind, runWith_checkPages. cbn [runWith].
  by destruct (aggregate _ results0).
Qed.

(** An image parameter named [constructor] ends the run. *)
Example run_constructor_image :
  runWith unavailable (main [homePage; constructorPage] [] None) = Throws.
Proof. vm_compute. reflexivity. Qed.

(** ** The scores in closed form *)

Local Open Scope Q_scope.

Lemma num_add n m : num (n + m) == num n + num m.
Proof. unfold num. by rewrite Nat2Z.inj_add, inject_Z_plus. Qed.

Lemma Math_max_compat x y : x == y → Math_max 0 x == Math_max 0 y.
Proof.
  intros Hxy. unfold Math_max.
  destruct (Qle_bool 0 x) eqn:Hx, (Qle_bool 0 y) eqn:Hy; try done.
  - apply Qle_bool_iff in Hx. rewrite Hxy in Hx. apply Qle_bool_iff in Hx. congruence.
  - apply Qle_bool_iff in Hy. rewrite <-Hxy in Hy. apply Qle_bool_iff in Hy. congruence.
Qed.

Lemma allIssues_cons issuesOf page pages :
  allIssues issuesOf (page :: pages)
  = attributed page (issuesOf page) ++ allIssues issuesOf pages.
Proof. done. Qed.

Lemma attributed_length page issues :
  length (attributed page issues) = length issues.
Proof. unfold attributed. by rewrite length_fmap. Qed.

(** A loop that takes half a point for every issue of a page. *)
Lemma foldl_issueStep (issuesOf : Page.t → list jstring)
    (step : Q * list jstring → Page.t → Q * list jstring) pages acc :
  (∀ acc page, step acc page =
     if (0 <? length (issuesOf page))%nat
     then (acc.1 - num (length (issuesOf page)) * (1 # 2),
           acc.2 ++ attributed page (issuesOf page))
     else acc) →
  (foldl step acc pages).1
    == acc.1 - (1 # 2) * num (length (allIssues issuesOf pages))
  ∧ (foldl step acc pages).2 = acc.2 ++ allIssues issuesOf pages.
Proof.
  intros Hstep. revert acc. induction pages as [|page pages IH]; intros acc.
  - cbn [foldl allIssues mbind list_bind length]. rewrite app_nil_r.
    split; [|done]. change (num 0) with 0. lra.
  - cbn [foldl]. destruct (IH (step acc page)) as [-> ->].
    rewrite allIssues_cons, length_app, num_add, attributed_length, Hstep.
    destruct (issuesOf page) as [|issue issues] eqn:Hissues.
    + cbn [length Nat.ltb Nat.leb attributed fmap list_fmap app].
      split; [|done]. change (num 0) with 0. lra.
    + cbn [length Nat.ltb Nat.leb fst snd]. split; [lra|].
      by rewrite (assoc_L (++)).
Qed.

Lemma foldl_metaStep pages acc :
  (foldl metaStep acc pages).1
    == acc.1 - (1 # 2) * num (length (allIssues metaIssues pages))
  ∧ (foldl metaStep acc pages).2 = acc.2 ++ allIssues metaIssues pages.
Proof. by apply foldl_issueStep. Qed.

Lemma foldl_headingStep pages acc :
  (foldl headingStep acc pages).1
    == acc.1 - (1 # 2) * num (length (allIssues headingIssues pages))
  ∧ (foldl headingStep acc pages).2 = acc.2 ++ allIssues headingIssues pages.
Proof. by apply foldl_issueStep. Qed.

Lemma foldl_metaMissingStep pages acc :
  (foldl metaMissingStep acc pages).1 == acc.1 - 2 * num (length pages)
  ∧ (foldl metaMissingStep acc pages).2
    = acc.2 ++ ((λ page, Page.pageName page ++ str ": No SEO implementation")
                <$> pages).
Proof.
  revert acc. induction pages as [|page pages IH]; intros acc.
  - cbn [foldl length fmap list_fmap]. rewrite app_nil_r.
    split; [|done]. change (num 0) with 0. lra.
  - cbn [foldl]. destruct (IH (metaMissingStep acc page)) as [-> ->].
    cbn [metaMissingStep fst snd length fmap list_fmap].
    change (S (length pages)) with (1 + length pages)%nat. rewrite num_add.
    split; [change (num 1) with 1; lra|]. by rewrite <-(assoc_L (++)).
Qed.

(** The scores of a run with at least one record. *)
Lemma main_scored evaluator docs sitemapPages robotsConfig results :
  runWith evaluator (main docs sitemapPages robotsConfig) = Returns results →
  records evaluator docs ≠ [] →
  ∃ aggregated,
    Results.pagesWithSEO aggregated = Results.pagesWithSEO results
    ∧ Results.pagesWithoutSEO aggregated = Results.pagesWithoutSEO results
    ∧ Results.pagesWithSEO results
      = filter (λ page, Page.hasSEO page = true) (records evaluator docs)
    ∧ Results.pagesWithoutSEO results
      = filter (λ page, Page.hasSEO page = false) (records evaluator docs)
    ∧ Results.missingFromSitemap aggregated = []
    ∧ Results.robotsConfig aggregated = robotsConfig
    ∧ Results.categoryScores aggregated = Results.categoryScores results0
    ∧ ((length (Results.pagesWithSEO results)
        + length (Results.pagesWithoutSEO results) =? 0)%nat = false)
    ∧ results = calculateCategoryScores aggregated.
Proof.
  intros (aggregated & Hagg & ->)%main_Returns Hrecords.
  apply aggregate_lists in Hagg as (Hwith & Hwithout & _ & Hmissing & _ & Hscores).
  rewrite pagesOf_runWith in Hwith, Hwithout.
  cbn [results0 Results.pagesWithSEO Results.pagesWithoutSEO app
       Results.missingFromSitemap] in Hwith, Hwithout, Hmissing.
  destruct (calculateCategoryScores_lists
              (withSite sitemapPages robotsConfig aggregated))
    as (-> & -> & _ & _).
  exists (withSite sitemapPages robotsConfig aggregated).
  cbn [withSite Results.pagesWithSEO Results.pagesWithoutSEO
       Results.missingFromSitemap Results.robotsConfig Results.categoryScores].
  split_and!; try done.
  apply Nat.eqb_neq. rewrite Hwith, Hwithout.
  destruct (records evaluator docs) as [|page pages]; [done|].
  rewrite !filter_cons. destruct (Page.hasSEO page).
  - rewrite decide_True by done. simpl. lia.
  - rewrite decide_False, decide_True by done. simpl. lia.
Qed.

(** X11: the meta tags score of a run in closed form.  From 20, every
    issue [checkMetaTags] found on a covered page takes half a point and
    every uncovered page two, and the result is not let below 0; the
    issues of the category are those issues under the names of their
    pages, then one line for every uncovered page. *)
Theorem meta_score (evaluator : Params.t → option SeoOutput.t)
    (docs : list Document) (sitemapPages : list jstring)
    (robotsConfig : option bool) (results : Results.t) :
  runWith evaluator (main docs sitemapPages robotsConfig) = Returns results →
  records evaluator docs ≠ [] →
  let category := CategoryScores.metaTags (Results.categoryScores results) in
  CategoryScore.score category
    == Math_max 0
         (20 - (1 # 2) * num (length (allIssues metaIssues
                                        (Results.pagesWithSEO results)))
             - 2 * num (length (Results.pagesWithoutSEO results)))
  ∧ CategoryScore.issues category
    = allIssues metaIssues (Results.pagesWithSEO results)
      ++ ((λ page, Page.pageName page ++ str ": No SEO implementation")
          <$> Results.pagesWithoutSEO results).
Proof.
  intros Hrun Hrecords category. subst category.
  destruct (main_scored _ _ _ _ _ Hrun Hrecords)
    as (aggregated & Hwith & Hwithout & _ & _ & _ & _ & Hscores & Htotal & Hresults).
  assert (Results.categoryScores results
          = Results.categoryScores (calculateCategoryScores aggregated)) as ->
    by congruence.
  unfold calculateCategoryScores.
  rewrite Hwith, Hwithout, Htotal, Hscores.
  cbn [Results.categoryScores CategoryScores.metaTags scored CategoryScore.score
       CategoryScore.issues results0 emptyScore app].
  unfold metaTagsBlock.
  destruct (foldl_metaMissingStep (Results.pagesWithoutSEO results)
              (foldl metaStep (20, []) (Results.pagesWithSEO results))) as [H1 ->].
  destruct (foldl_metaStep (Results.pagesWithSEO results) (20, [])) as [H2 ->].
  cbn [fst snd app] in *. split; [|done].
  apply Math_max_compat. rewrite H1, H2. lra.
Qed.

(** A covered page with one meta issue and an uncovered page. *)
Lemma meta_score_witness :
  ∃ results,
    runWith unavailable (main [homePage; plainPage] [] None) = Returns results
    ∧ CategoryScore.score (CategoryScores.metaTags (Results.categoryScores results))
      == 35 # 2
    ∧ CategoryScore.score (CategoryScores.metaTags (Results.categoryScores results))
      == Math_max 0
           (20 - (1 # 2) * num (length (allIssues metaIssues
                                          (Results.pagesWithSEO results)))
               - 2 * num (length (Results.pagesWithoutSEO results))).
Proof.
  eexists. split; [vm_compute; reflexivity|]. split; [vm_compute; reflexivity|].
  unshelve eapply (proj1 (meta_score unavailable [homePage; plainPage] [] None _ _ _)).
  - vm_compute. reflexivity.
  - intros H. vm_compute in H. discriminate H.
Defined.

Lemma checkRobotsConfig_configured nuxtConfig hasRobotsTxt :
  RobotsConfig.configured <$> checkRobotsConfig nuxtConfig hasRobotsTxt
  = (λ _, robotsFound nuxtConfig hasRobotsTxt) <$> nuxtConfig.
Proof.
  unfold checkRobotsConfig, robotsFound. destruct nuxtConfig as [content|]; [|done].
  by destruct (includes content (str "@nuxtjs/robots")),
    (includes content (str "robots:")), hasRobotsTxt.
Qed.

Lemma technicalBlock_closed results :
  Results.missingFromSitemap results = [] →
  (technicalBlock results).1
    == 20 - num (withoutCanonical (Results.pagesWithSEO results))
          - (1 # 2) * num (length (allIssues headingIssues
                                     (Results.pagesWithSEO results)))
          - (if default false (Results.robotsConfig results) then 0 else 3)
  ∧ (technicalBlock results).2
    = allIssues headingIssues (Results.pagesWithSEO results)
      ++ (if default false (Results.robotsConfig results) then []
          else [str "No robots configuration"]).
Proof.
  intros Hmissing. unfold technicalBlock. cbv zeta. rewrite Hmissing.
  cbn [length Nat.ltb Nat.leb].
  fold (withoutCanonical (Results.pagesWithSEO results)).
  destruct (foldl_headingStep (Results.pagesWithSEO results)
              (20 - num (withoutCanonical (Results.pagesWithSEO results)) * 1, []))
    as [H1 H2].
  cbn [fst snd app] in H1, H2.
  destruct (Results.robotsConfig results) as [[|]|];
    cbn [from_option id fst snd]; rewrite H1, H2;
    (split; [lra|]); by rewrite ?app_nil_r.
Qed.

(** X12: the technical score of a run in closed form.  From 20, every
    covered page without a canonical link takes one point, every heading
    issue of a covered page half a point, and three points go when no
    robots module or file is found, which is the case whenever there is
    no Nuxt configuration file, even beside a [public/robots.txt]; a
    [robots:] key alone does not count.  The sitemap takes nothing: the
    list of pages missing from it is never filled. *)
Theorem technical_score (evaluator : Params.t → option SeoOutput.t)
    (docs : list Document) (sitemapFile nuxtConfig : option jstring)
    (hasRobotsTxt : bool) (results : Results.t) :
  runWith evaluator (analyse docs sitemapFile nuxtConfig hasRobotsTxt)
    = Returns results →
  records evaluator docs ≠ [] →
  let category := CategoryScores.technicalSEO (Results.categoryScores results) in
  CategoryScore.score category
    == Math_max 0
         (20 - num (withoutCanonical (Results.pagesWithSEO results))
             - (1 # 2) * num (length (allIssues headingIssues
                                        (Results.pagesWithSEO results)))
             - (if robotsFound nuxtConfig hasRobotsTxt then 0 else 3))
  ∧ CategoryScore.issues category
    = allIssues headingIssues (Results.pagesWithSEO results)
      ++ (if robotsFound nuxtConfig hasRobotsTxt then []
          else [str "No robots configuration"])
  ∧ Results.missingFromSitemap results = [].
Proof.
  intros Hrun Hrecords category. subst category. unfold analyse in Hrun.
  destruct (main_scored _ _ _ _ _ Hrun Hrecords)
    as (aggregated & Hwith & Hwithout & _ & _ & Hmissing & Hrobots & Hscores
        & Htotal & Hresults).
  assert (Results.missingFromSitemap results = []) as Hnone.
  { rewrite Hresults.
    by destruct (calculateCategoryScores_lists aggregated) as (_ & _ & _ & ->). }
  assert (Results.categoryScores results
          = Results.categoryScores (calculateCategoryScores aggregated)) as ->
    by congruence.
  unfold calculateCategoryScores.
  rewrite Hwith, Hwithout, Htotal, Hscores.
  cbn [Results.categoryScores CategoryScores.technicalSEO scored
       CategoryScore.score CategoryScore.issues results0 emptyScore app].
  destruct (technicalBlock_closed aggregated Hmissing) as [H1 ->].
  rewrite Hwith, Hrobots, checkRobotsConfig_configured in *.
  assert (default false ((λ _, robotsFound nuxtConfig hasRobotsTxt) <$> nuxtConfig)
          = robotsFound nuxtConfig hasRobotsTxt) as Hfound.
  { by destruct nuxtConfig. }
  rewrite Hfound in *. split_and!; [|done|done].
  apply Math_max_compat. exact H1.
Qed.

(** A robots file beside a configuration that names no module is found;
    the same file without any configuration file is not. *)
Lemma technical_score_witness :
  ∃ results,
    runWith unavailable (analyse [homePage] None None true) = Returns results
    ∧ robotsFound (Some bareConfig) true = true
    ∧ robotsFound (Some bareConfig) false = false
    ∧ CategoryScore.issues (CategoryScores.technicalSEO (Results.categoryScores results))
      = allIssues headingIssues (Results.pagesWithSEO results)
        ++ [str "No robots configuration"].
Proof.
  eexists. split; [vm_compute; reflexivity|]. split; [vm_compute; reflexivity|].
  split; [vm_compute; reflexivity|].
  unshelve eapply
    (proj1 (proj2 (technical_score unavailable [homePage] None None true _ _ _))).
  - vm_compute. reflexivity.
  - intros H. vm_compute in H. discriminate H.
Defined.

(** ** A site without covered pages *)

Lemma Math_round_zero x : x == 0 → Math_round x = 0%Z.
Proof. intros Hx. unfold Math_round. by rewrite Hx. Qed.

Lemma filter_test_none {A} (test : A → bool) (l : list A) :
  Forall (λ x, test x = false) l → filter (λ x, test x = true) l = [].
Proof.
  induction 1 as [|x l Hx _ IH]; [done|].
  rewrite filter_cons_False by congruence. exact IH.
Qed.

Lemma filter_test_all {A} (test : A → bool) (l : list A) :
  Forall (λ x, test x = false) l → filter (λ x, test x = false) l = l.
Proof.
  induction 1 as [|x l Hx _ IH]; [done|].
  rewrite filter_cons_True by done. by rewrite IH.
Qed.

(** X13: when no page of a run is covered, the meta tags score is 20 less
    two points for every page and not below 0, the structured data and
    social sharing scores are 0, and the images score is the full 20,
    since no image is counted at all. *)
Theorem uncovered_site_scores (evaluator : Params.t → option SeoOutput.t)
    (docs : list Document) (sitemapPages : list jstring)
    (robotsConfig : option bool) (results : Results.t) :
  runWith evaluator (main docs sitemapPages robotsConfig) = Returns results →
  records evaluator docs ≠ [] →
  Forall (λ page, Page.hasSEO page = false) (records evaluator docs) →
  let scores := Results.categoryScores results in
  CategoryScore.score (CategoryScores.metaTags scores)
    == Math_max 0 (20 - 2 * num (length (records evaluator docs)))
  ∧ CategoryScore.score (CategoryScores.structuredData scores) == 0
  ∧ CategoryScore.score (CategoryScores.imagesMedia scores) == 20
  ∧ CategoryScore.score (CategoryScores.socialSharing scores) == 0.
Proof.
  intros Hrun Hrecords Huncovered scores. subst scores.
  destruct (main_scored _ _ _ _ _ Hrun Hrecords)
    as (aggregated & Hwith & Hwithout & Hcovered & Huncov & _ & _ & Hscores
        & Htotal & Hresults).
  rewrite (filter_test_none _ _ Huncovered) in Hcovered.
  rewrite (filter_test_all _ _ Huncovered) in Huncov.
  assert (Results.categoryScores results
          = Results.categoryScores (calculateCategoryScores aggregated)) as ->
    by congruence.
  unfold calculateCategoryScores.
  rewrite Hwith, Hwithout, Htotal, Hscores, Hcovered, Huncov in *.
  cbn [Results.categoryScores CategoryScores.metaTags CategoryScores.structuredData
       CategoryScores.imagesMedia CategoryScores.socialSharing scored
       CategoryScore.score results0 emptyScore].
  cbn [length Nat.add] in Htotal |- *.
  assert ((0 <? length (records evaluator docs))%nat = true) as Hpos.
  { apply Nat.ltb_lt. apply Nat.eqb_neq in Htotal. lia. }
  split_and!.
  - unfold metaTagsBlock. cbn [foldl].
    destruct (foldl_metaMissingStep (records evaluator docs) (20, [])) as [H1 _].
    apply Math_max_compat. exact H1.
  - unfold structuredDataBlock.
    cbn [filter list_filter length existsb]. rewrite Hpos.
    rewrite Math_round_zero; [done|]. change (num 0) with 0. unfold Qdiv. ring.
  - cbn [foldl fst snd]. unfold imagesScore.
    destruct (Qlt_le_dec 0 0) as [Hlt|_]; [by apply Qlt_irrefl in Hlt|]. done.
  - unfold socialBlock, socialFinal. cbn [foldl pagesWithOG pagesWithTwitter].
    rewrite Hpos. rewrite Math_round_zero; [done|].
    change (num 0) with 0. unfold Qdiv. ring.
Qed.

(** Twelve pages without any SEO call. *)
Lemma uncovered_site_scores_witness :
  ∃ results,
    runWith unavailable (main (replicate 12 plainPage) [] (Some true))
      = Returns results
    ∧ let scores := Results.categoryScores results in
      CategoryScore.score (CategoryScores.metaTags scores)
        == Math_max 0 (20 - 2 * num (length (records unavailable
                                               (replicate 12 plainPage))))
      ∧ CategoryScore.score (CategoryScores.structuredData scores) == 0
      ∧ CategoryScore.score (CategoryScores.imagesMedia scores) == 20
      ∧ CategoryScore.score (CategoryScores.socialSharing scores) == 0.
Proof.
  eexists. split; [vm_compute; reflexivity|].
  apply (uncovered_site_scores unavailable (replicate 12 plainPage) [] (Some true)).
  - vm_compute. reflexivity.
  - intros H. vm_compute in H. discriminate H.
  - vm_compute. repeat constructor.
Defined.

(** ** The overall percentage *)




(** ** The image statistics *)

Lemma filter_test_split {A} (test : A → bool) (l : list A) :
  (length (filter (λ x, test x = true) l)
   + length (filter (λ x, test x = false) l) = length l)%nat.
Proof.
  induction l as [|x l IH]; [done|]. rewrite !filter_cons.
  destruct (test x).
  - rewrite decide_True, decide_False by done. simpl. lia.
  - rewrite decide_False, decide_True by done. simpl. lia.
Qed.

(** The two counts of [checkImages] split the total. *)
Lemma checkImages_split content :
  (ImageInfo.imagesWithAlt (checkImages content)
   + ImageInfo.imagesWithoutAlt (checkImages content)
   = ImageInfo.totalImages (checkImages content))%nat.
Proof.
  unfold checkImages. destruct (search template_re content); [|done].
  cbn [ImageInfo.imagesWithAlt ImageInfo.imagesWithoutAlt ImageInfo.totalImages].
  apply filter_test_split.
Qed.

Lemma recordOf_images evaluator doc page :
  recordOf evaluator doc = Some page → Page.images page = checkImages (content doc).
Proof.
  unfold recordOf.
  destruct (runWith evaluator (checkPageSEO doc)) as [[page'|]|] eqn:Hrun; try done.
  intros [= ->].
  assert (∀ schemas schemaDetails seoOutput,
    pageRecord doc schemas schemaDetails seoOutput = Returns (Some page) →
    Page.images page = checkImages (content doc)) as Hrecord.
  { intros schemas schemaDetails seoOutput. unfold pageRecord.
    destruct (checkMetaTags _ _); [|done]. cbn [exn_bind].
    destruct (checkHeadingStructure _); [|done]. cbn [exn_bind].
    by intros [= <-]. }
  revert Hrun. unfold checkPageSEO.
  destruct (existsb _ ignorePaths); [done|].
  destruct (includes (content doc) _);
    [destruct (extractGenerateSEOParams (content doc))|]; cbn [runWith];
    apply Hrecord.
Qed.

Lemma foldl_imageStep pages acc :
  (foldl imageStep acc pages).1.1
    == acc.1.1 + num (imageTotal ImageInfo.totalImages pages)
  ∧ (foldl imageStep acc pages).1.2
    == acc.1.2 + num (imageTotal ImageInfo.imagesWithoutAlt pages).
Proof.
  revert acc. induction pages as [|page pages IH]; intros acc.
  - cbn [foldl imageTotal foldr]. change (num 0) with 0. split; lra.
  - cbn [foldl imageTotal foldr]. destruct (IH (imageStep acc page)) as [-> ->].
    fold (imageTotal ImageInfo.totalImages pages).
    fold (imageTotal ImageInfo.imagesWithoutAlt pages).
    rewrite !num_add. cbn [imageStep fst snd]. split; lra.
Qed.

Lemma imageTotal_split pages :
  Forall (λ page, (ImageInfo.imagesWithAlt (Page.images page)
                   + ImageInfo.imagesWithoutAlt (Page.images page)
                   = ImageInfo.totalImages (Page.images page))%nat) pages →
  (imageTotal ImageInfo.imagesWithAlt pages
   + imageTotal ImageInfo.imagesWithoutAlt pages
   = imageTotal ImageInfo.totalImages pages)%nat.
Proof.
  induction 1 as [|page pages Hpage _ IH]; [done|].
  cbn [imageTotal foldr]. unfold imageTotal in IH. lia.
Qed.

(** X15: the image statistics of a run are sums over the covered pages
    alone: [totalImages] adds up the image tags of their templates and
    [imagesWithAlt] the tags that [checkImages] counted as having an alt
    text.  The images of an uncovered page are counted nowhere. *)
Theorem image_statistics (evaluator : Params.t → option SeoOutput.t)
    (docs : list Document) (sitemapPages : list jstring)
    (robotsConfig : option bool) (results : Results.t) :
  runWith evaluator (main docs sitemapPages robotsConfig) = Returns results →
  records evaluator docs ≠ [] →
  Results.imageStats_totalImages results
    == num (imageTotal ImageInfo.totalImages (Results.pagesWithSEO results))
  ∧ Results.imageStats_imagesWithAlt results
    == num (imageTotal ImageInfo.imagesWithAlt (Results.pagesWithSEO results)).
Proof.
  intros Hrun Hrecords.
  destruct (main_scored _ _ _ _ _ Hrun Hrecords)
    as (aggregated & Hwith & Hwithout & Hcovered & _ & _ & _ & _ & Htotal & Hresults).
  assert (Forall (λ page, (ImageInfo.imagesWithAlt (Page.images page)
                           + ImageInfo.imagesWithoutAlt (Page.images page)
                           = ImageInfo.totalImages (Page.images page))%nat)
                 (Results.pagesWithSEO results)) as Hsplit.
  { rewrite Hcovered. apply Forall_forall.
    intros page [_ (doc & _ & Hdoc)%list_elem_of_omap]%list_elem_of_filter.
    rewrite (recordOf_images _ _ _ Hdoc). apply checkImages_split. }
  apply imageTotal_split in Hsplit.
  assert (Results.imageStats_totalImages results
          = Results.imageStats_totalImages (calculateCategoryScores aggregated)) as ->
    by congruence.
  assert (Results.imageStats_imagesWithAlt results
          = Results.imageStats_imagesWithAlt (calculateCategoryScores aggregated)) as ->
    by congruence.
  unfold calculateCategoryScores. rewrite Hwith, Hwithout, Htotal.
  cbn [Results.imageStats_totalImages Results.imageStats_imagesWithAlt].
  destruct (foldl_imageStep (Results.pagesWithSEO results) (0, 0, [])) as [-> ->].
  cbn [fst snd]. rewrite <-Hsplit, num_add. split; lra.
Qed.

(** A covered page with one image, and an uncovered page. *)
Lemma image_statistics_witness :
  ∃ results,
    runWith unavailable (main [galleryPage; plainPage] [] None) = Returns results
    ∧ Results.imageStats_totalImages results == 2
    ∧ Results.imageStats_totalImages results
      == num (imageTotal ImageInfo.totalImages (Results.pagesWithSEO results)).
Proof.
  eexists. split; [vm_compute; reflexivity|]. split; [vm_compute; reflexivity|].
  unshelve eapply
    (proj1 (image_statistics unavailable [galleryPage; plainPage] [] None _ _ _)).
  - vm_compute. reflexivity.
  - intros H. vm_compute in H. discriminate H.
Defined.

Local Close Scope Q_scope.

(** ** The sitemap listing of the report *)

Lemma filter_agree {A} (P Q : A → Prop) `{∀ x, Decision (P x)}
    `{∀ x, Decision (Q x)} (l : list A) :
  Forall (λ x, P x ↔ Q x) l → filter P l = filter Q l.
Proof.
  induction 1 as [|x l Hx _ IH]; [done|]. rewrite !filter_cons, IH.
  destruct (decide (P x)), (decide (Q x)); tauto.
Qed.

(** X16: in the report of a run, a covered page is listed as missing from
    the sitemap exactly when its short name, or the empty text for the
    page named [index], is not among the sitemap URLs: the test against
    the ignored paths never removes a page, no record having such a path.
    An uncovered page is never listed. *)
Theorem sitemap_listing (evaluator : Params.t → option SeoOutput.t)
    (docs : list Document) (sitemapPages : list jstring)
    (robotsConfig : option bool) (results : Results.t) :
  runWith evaluator (main docs sitemapPages robotsConfig) = Returns results →
  pagesNotInSitemap results
  = (λ page, forIndex page (str "/") (str "/" ++ Page.pageName page))
    <$> filter (λ page, forIndex page [] (Page.pageName page) ∉ sitemapPages)
          (filter (λ page, Page.hasSEO page = true) (records evaluator docs)).
Proof.
  intros (aggregated & Hagg & ->)%main_Returns.
  apply aggregate_lists in Hagg as (Hwith & _).
  rewrite pagesOf_runWith in Hwith.
  unfold pagesNotInSitemap.
  destruct (calculateCategoryScores_lists
              (withSite sitemapPages robotsConfig aggregated))
    as (-> & _ & -> & _).
  cbn [withSite Results.pagesWithSEO Results.sitemapPages].
  rewrite Hwith. cbn [results0 Results.pagesWithSEO app]. f_equal.
  apply filter_agree, Forall_forall.
  intros page [_ (doc & _ & (Hignored & Hpath & _)%recordOf_Some)%list_elem_of_omap]
    %list_elem_of_filter.
  rewrite Hpath. fold (ignored doc). rewrite Hignored, andb_true_r, negb_true_iff.
  by rewrite bool_decide_eq_false.
Qed.

(** The home page is sought as the empty text. *)
Lemma sitemap_listing_witness :
  ∃ results,
    runWith unavailable (main [homePage; productsPage; plainPage] [[]] None)
      = Returns results
    ∧ pagesNotInSitemap results = [str "/products"].
Proof.
  eexists. split; [vm_compute; reflexivity|].
  etrans.
  - unshelve eapply (sitemap_listing unavailable [homePage; productsPage; plainPage]
                       [[]] None _ _).
    vm_compute. reflexivity.
  - vm_compute. reflexivity.
Defined.

(** ** Critical issues *)

(** X17: the structured data category of a run never lists an issue,
    whatever its score, so the critical issues of the report come from the
    four other categories alone: at most three from each, twelve in all. *)
Theorem structured_data_silent (evaluator : Params.t → option SeoOutput.t)
    (docs : list Document) (sitemapPages : list jstring)
    (robotsConfig : option bool) (results : Results.t) :
  runWith evaluator (main docs sitemapPages robotsConfig) = Returns results →
  let scores := Results.categoryScores results in
  CategoryScore.issues (CategoryScores.structuredData scores) = []
  ∧ criticalIssues results
    = foldl criticalStep []
        [CategoryScores.metaTags scores; CategoryScores.technicalSEO scores;
         CategoryScores.imagesMedia scores; CategoryScores.socialSharing scores]
  ∧ length (criticalIssues results) ≤ 12.
Proof.
  intros (aggregated & Hagg & ->)%main_Returns scores.
  apply aggregate_lists in Hagg as (_ & _ & _ & _ & _ & Hscores).
  assert (CategoryScore.issues (CategoryScores.structuredData scores) = []) as Hnone.
  { unfold scores, calculateCategoryScores. destruct (_ =? 0).
    - cbn [withSite Results.categoryScores]. by rewrite Hscores.
    - cbn [withSite Results.categoryScores CategoryScores.structuredData scored
           CategoryScore.issues]. by rewrite Hscores. }
  assert (criticalIssues
            (calculateCategoryScores (withSite sitemapPages robotsConfig aggregated))
          = foldl criticalStep []
              [CategoryScores.metaTags scores; CategoryScores.technicalSEO scores;
               CategoryScores.imagesMedia scores;
               CategoryScores.socialSharing scores]) as Hcritical.
  { unfold criticalIssues. fold criticalStep. fold scores.
    cbn [categoryList foldl].
    unfold criticalStep at 3. by rewrite Hnone. }
  split_and!; [done|done|]. rewrite Hcritical. cbn [foldl].
  assert (∀ acc data, length (criticalStep acc data) ≤ length acc + 3) as Hstep.
  { intros acc data. unfold criticalStep.
    match goal with |- context [if ?c then _ else _] => destruct c end; [|lia].
    rewrite length_app, length_take. apply Nat.add_le_mono_l, Nat.le_min_l. }
  set (a1 := criticalStep [] (CategoryScores.metaTags scores)).
  set (a2 := criticalStep a1 (CategoryScores.technicalSEO scores)).
  set (a3 := criticalStep a2 (CategoryScores.imagesMedia scores)).
  pose proof (Hstep [] (CategoryScores.metaTags scores)) as H1.
  pose proof (Hstep a1 (CategoryScores.technicalSEO scores)) as H2.
  pose proof (Hstep a2 (CategoryScores.imagesMedia scores)) as H3.
  pose proof (Hstep a3 (CategoryScores.socialSharing scores)) as H4.
  fold a1 in H1, H2. fold a2 in H2, H3. fold a3 in H3, H4.
  simpl in H1. lia.
Qed.

(** A run over two pages. *)
Lemma structured_data_silent_witness :
  ∃ results,
    runWith unavailable (main [homePage; plainPage] [] None) = Returns results
    ∧ CategoryScore.issues
        (CategoryScores.structuredData (Results.categoryScores results)) = [].
Proof.
  eexists. split; [vm_compute; reflexivity|].
  unshelve eapply
    (proj1 (structured_data_silent unavailable [homePage; plainPage] [] None _ _)).
  vm_compute. reflexivity.
Defined.

(** ** The social score without the evaluator *)

Lemma recordOf_static evaluator doc page :
  (∀ params, evaluator params = None) →
  recordOf evaluator doc = Some page →
  Page.metaTags page = checkMetaTags_static (content doc)
  ∧ Page.hasGenerateSEO page = includes (content doc) (str "generateSEO(").
Proof.
  intros Hnone. unfold recordOf.
  destruct (runWith evaluator (checkPageSEO doc)) as [[page'|]|] eqn:Hrun; try done.
  intros [= ->].
  assert (∀ schemas schemaDetails,
    pageRecord doc schemas schemaDetails None = Returns (Some page) →
    Page.metaTags page = checkMetaTags_static (content doc)
    ∧ Page.hasGenerateSEO page = includes (content doc) (str "generateSEO("))
    as Hrecord.
  { intros schemas schemaDetails. unfold pageRecord. cbn [checkMetaTags exn_bind].
    destruct (checkHeadingStructure _); [|done]. cbn [exn_bind].
    by intros [= <-]. }
  revert Hrun. unfold checkPageSEO.
  destruct (existsb _ ignorePaths); [done|].
  destruct (includes (content doc) _);
    [destruct (extractGenerateSEOParams (content doc))|]; cbn [runWith];
    rewrite ?Hnone; apply Hrecord.
Qed.

Lemma countPages_all test pages :
  Forall (λ page, test page = true) pages → countPages test pages = length pages.
Proof.
  induction 1 as [|page pages Hpage _ IH]; [done|].
  rewrite countPages_cons, Hpage, IH. done.
Qed.

(** X18: when the evaluator is unavailable and every page of a run is
    covered through a call of [generateSEO], the social sharing score is
    the full 20 whatever the pages hold: the text path takes all Open
    Graph and Twitter tags of such a page for granted. *)
Theorem fallback_social (evaluator : Params.t → option SeoOutput.t)
    (docs : list Document) (sitemapPages : list jstring)
    (robotsConfig : option bool) (results : Results.t) :
  (∀ params, evaluator params = None) →
  runWith evaluator (main docs sitemapPages robotsConfig) = Returns results →
  records evaluator docs ≠ [] →
  Forall (λ page, Page.hasSEO page = true ∧ Page.hasGenerateSEO page = true)
         (records evaluator docs) →
  (CategoryScore.score (CategoryScores.socialSharing (Results.categoryScores results))
   == 20)%Q.
Proof.
  intros Hnone Hrun Hrecords Hcalls.
  destruct (main_scored _ _ _ _ _ Hrun Hrecords)
    as (aggregated & Hwith & Hwithout & Hcovered & Huncov & _ & _ & _ & Htotal
        & Hresults).
  assert (Results.pagesWithSEO results = records evaluator docs) as Hall.
  { rewrite Hcovered. clear -Hcalls.
    induction Hcalls as [|page pages [Hpage _] _ IH]; [done|].
    rewrite filter_cons_True by done. by rewrite IH. }
  assert (Results.pagesWithoutSEO results = []) as Hnil.
  { rewrite Huncov. clear -Hcalls.
    induction Hcalls as [|page pages [Hpage _] _ IH]; [done|].
    rewrite filter_cons_False by congruence. exact IH. }
  assert (Forall (λ page, hasFourOg page = true ∧ hasFourTwitter page = true)
                 (records evaluator docs)) as Htags.
  { apply Forall_forall. intros page Hin.
    pose proof (proj1 (Forall_forall _ _) Hcalls page Hin) as [_ Hcall].
    apply list_elem_of_omap in Hin as (doc & _ & Hdoc).
    apply (recordOf_static _ _ _ Hnone) in Hdoc as [Hmeta Hinc].
    rewrite Hcall in Hinc. unfold hasFourOg, hasFourTwitter.
    rewrite Hmeta. unfold checkMetaTags_static. rewrite <-Hinc.
    cbn [MetaInfo.ogTags MetaInfo.twitterTags]. split; vm_compute; reflexivity. }
  rewrite Hresults.
  change (storedSocial aggregated == 20)%Q.
  rewrite storedSocial_ratio
    by (rewrite Hwith, Hwithout; apply Nat.eqb_neq in Htotal; lia).
  rewrite Hwith, Hwithout, Hall, Hnil. unfold socialOfCovered, socialRatio.
  rewrite !countPages_all
    by (eapply Forall_impl; [exact Htags|]; by intros ? [? ?]).
  cbn [length]. rewrite Nat.add_0_r.
  set (n := length (records evaluator docs)).
  assert (0 < num n)%Q as Hpos.
  { apply num_pos. unfold n. destruct (records evaluator docs); [done|simpl; lia]. }
  assert (((num n / num n + num n / num n) / 2 * 20 == 20)%Q) as Heq.
  { field. lra. }
  unfold Math_round. rewrite Heq. done.
Qed.

(** Two pages covered through the call, the evaluator unavailable. *)
Lemma fallback_social_witness :
  ∃ results,
    runWith unavailable (main [homePage; productsPage] [] None) = Returns results
    ∧ (CategoryScore.score
         (CategoryScores.socialSharing (Results.categoryScores results)) == 20)%Q.
Proof.
  eexists. split; [vm_compute; reflexivity|].
  apply (fallback_social unavailable [homePage; productsPage] [] None).
  - reflexivity.
  - vm_compute. reflexivity.
  - intros H. vm_compute in H. discriminate H.
  - vm_compute. repeat constructor.
Defined.

(** ** Skipped heading levels *)






(** ** Ignored paths *)

Lemma includes_within s inner pat :
  includes pat inner = true → includes s pat = true → includes s inner = true.
Proof.
  rewrite !includes_spec.
  intros (b1 & e1 & ->) (b2 & e2 & ->).
  exists (b2 ++ b1), (e1 ++ e2). by rewrite <-!(assoc_L (++)).
Qed.

(** X20: a page is ignored exactly when its path under the pages directory
    holds one of the words [purchase], [admin] and [api] anywhere, also
    inside a longer name; the two longer entries of the ignore list add
    nothing.  An ignored page is not evaluated and has no record. *)
Theorem ignored_by_substring (evaluator : Params.t → option SeoOutput.t)
    (doc : Document) :
  (ignored doc = true ↔
   includes (relativePath doc) (str "purchase") = true
   ∨ includes (relativePath doc) (str "admin") = true
   ∨ includes (relativePath doc) (str "api") = true)
  ∧ (ignored doc = true → asked doc = None ∧ recordOf evaluator doc = None).
Proof.
  split.
  - unfold ignored, ignorePaths. cbn [existsb]. rewrite !orb_true_iff. split.
    + intros [H|[H|[H|[H|[H|[=]]]]]].
      * left. eapply includes_within; [|exact H]. vm_compute. reflexivity.
      * left. eapply includes_within; [|exact H]. vm_compute. reflexivity.
      * by left.
      * right. by left.
      * right. by right.
    + intros [H|[H|H]]; auto 10.
  - intros Hignored. unfold asked, recordOf, checkPageSEO.
    fold (ignored doc). by rewrite Hignored.
Qed.

(** A page about rapid charging is ignored for the letters [api]. *)
Lemma ignored_by_substring_witness :
  ignored rapidPage = true ∧ recordOf unavailable rapidPage = None.
Proof.
  destruct (ignored_by_substring unavailable rapidPage) as [Hiff Hnone].
  assert (ignored rapidPage = true) as Hignored.
  { apply Hiff. right. right. vm_compute. reflexivity. }
  split; [exact Hignored|]. exact (proj2 (Hnone Hignored)).
Defined.

(** ** The tags of an evaluated head *)

Lemma replace_prefix pat rest rep : replace (pat ++ rest) pat rep = rep ++ rest.
Proof.
  assert (∀ s, startsWith s pat = true →
               replace s pat rep = rep ++ drop (length pat) s) as Hhead.
  { intros s Hs. destruct s; simpl; by rewrite Hs. }
  by rewrite Hhead, drop_app_length by apply startsWith_app.
Qed.

(** The keys set by a loop over the entries whose [field] starts with
    [prefix]. *)
Lemma prefixed_keys {S} (field : MetaEntry.t → option jstring) (prefix : jstring)
    (step : S → MetaEntry.t → S) (keys : S → gset jstring)
    (meta : list MetaEntry.t) (acc : S) (key : jstring) :
  (∀ acc tag, keys (step acc tag)
              = setKey (replace (default [] (field tag)) prefix []) (keys acc)) →
  key ≠ str "__proto__" →
  key ∈ keys (foldl step acc
                (filter (λ m, field_startsWith (field m) prefix = true) meta))
  ↔ key ∈ keys acc ∨ ∃ m, m ∈ meta ∧ field m = Some (prefix ++ key).
Proof.
  intros Hstep Hkey. revert acc.
  induction meta as [|m meta IH]; intros acc.
  - rewrite filter_nil. simpl. split; [by left|].
    by intros [?|(m & ?%elem_of_nil & _)].
  - rewrite filter_cons.
    destruct (decide (field_startsWith (field m) prefix = true)) as [Hm|Hm].
    + cbn [foldl]. rewrite IH, Hstep, setKey_elem.
      unfold field_startsWith in Hm. destruct (field m) as [v|] eqn:Hv; [|done].
      apply startsWith_spec in Hm as [rest ->].
      cbn [default from_option id]. rewrite replace_prefix. cbn [app]. split.
      * intros [[[-> _]|?]|(m' & ? & ?)].
        -- right. exists m. split; [left|done].
        -- by left.
        -- right. exists m'. split; [by right|done].
      * intros [?|(m' & [->|?]%elem_of_cons & Hm')].
        -- left. by right.
        -- left. left. rewrite Hv in Hm'. injection Hm' as ->%(inj (app prefix)).
           done.
        -- right. by exists m'.
    + rewrite IH. split.
      * intros [?|(m' & ? & ?)]; [by left|]. right. exists m'. split; [by right|done].
      * intros [?|(m' & [->|?]%elem_of_cons & Hm')]; [by left| |right; by exists m'].
        destruct Hm. unfold field_startsWith. rewrite Hm'. apply startsWith_app.
Qed.

(** X21: on the head object handed back by the evaluator, an Open Graph
    tag counts as present exactly when the [meta] list holds an entry
    whose [property] is [og:] followed by the tag, and a Twitter tag when
    an entry's [name] is [twitter:] followed by the tag; the page has a
    canonical link exactly when some entry of [link] has the [rel]
    [canonical]. *)
Theorem dynamic_tags (seoOutput : SeoOutput.t) (meta : list MetaEntry.t)
    (info : MetaInfo.t) :
  checkMetaTags_dynamic seoOutput meta = Returns info →
  (∀ tag, tag ≠ str "__proto__" →
     tag ∈ MetaInfo.ogTags info ↔
     ∃ m, m ∈ meta ∧ MetaEntry.property m = Some (str "og:" ++ tag))
  ∧ (∀ tag, tag ≠ str "__proto__" →
       tag ∈ MetaInfo.twitterTags info ↔
       ∃ m, m ∈ meta ∧ MetaEntry.name m = Some (str "twitter:" ++ tag))
  ∧ (MetaInfo.canonical info = true ↔
     ∃ link, SeoOutput.link seoOutput = Some link ∧ Some (str "canonical") ∈ link).
Proof.
  unfold checkMetaTags_dynamic.
  destruct (match find _ meta with Some _ => _ | None => _ end) as [issues1|];
    [|done]. cbn [exn_bind].
  destruct (match find _ meta with Some _ => _ | None => _ end) as [issues2|];
    [|done]. cbn [exn_bind].
  intros [= <-]. cbn [MetaInfo.ogTags MetaInfo.twitterTags MetaInfo.canonical].
  split_and!.
  - intros tag Htag.
    rewrite (prefixed_keys MetaEntry.property (str "og:") _ fst meta (∅, None) tag);
      [|done|done].
    cbn [fst]. split; [by intros [?%elem_of_empty|?]|by right].
  - intros tag Htag.
    pose proof (prefixed_keys MetaEntry.name (str "twitter:")
                  (λ acc tag, setKey (replace (default [] (MetaEntry.name tag))
                                        (str "twitter:") []) acc)
                  (λ keys, keys) meta ∅ tag) as Hkeys.
    cbv beta in Hkeys. rewrite Hkeys; [|done|done].
    split; [by intros [?%elem_of_empty|?]|by right].
  - destruct (SeoOutput.link seoOutput) as [link|].
    + rewrite existsb_exists. split.
      * intros (rel & Hin%list_elem_of_In & ->%bool_decide_eq_true). by exists link.
      * intros (? & [= <-] & Hin). exists (Some (str "canonical")).
        split; [by apply list_elem_of_In|]. by apply bool_decide_eq_true.
    + split; [done|]. by intros (? & [=] & _).
Qed.

(** The head with four tags of each kind and a canonical link. *)
Lemma dynamic_tags_witness :
  ∃ info,
    checkMetaTags_dynamic socialHead
      (default [] (SeoOutput.meta socialHead)) = Returns info
    ∧ str "image" ∈ MetaInfo.ogTags info
    ∧ MetaInfo.canonical info = true.
Proof.
  eexists. split; [vm_compute; reflexivity|].
  match goal with
  | |- _ ∈ MetaInfo.ogTags ?info ∧ _ =>
      destruct (dynamic_tags socialHead (default [] (SeoOutput.meta socialHead)) info)
        as (Hog & _ & Hcanonical); [vm_compute; reflexivity|]
  end.
  split.
  - apply Hog; [discriminate|].
    exists (metaProperty (str "og:image") (str "/img/warranty.png")).
    split; [|reflexivity]. vm_compute. do 2 apply list_elem_of_further.
    apply list_elem_of_here.
  - apply Hcanonical. eexists. split; [reflexivity|]. apply list_elem_of_here.
Defined.

(** ** The schemas of an evaluated page *)

(** X22: when the evaluator hands back a graph with at least one typed
    item, the schemas of the page are read off that graph alone, one entry
    for every typed item in its order; neither the fallback table over
    the extracted parameters nor the legacy detection over the text adds
    to them. *)
Theorem evaluated_schemas (evaluator : Params.t → option SeoOutput.t)
    (doc : Document) (params : Params.t) (seoOutput : SeoOutput.t)
    (items : list GraphItem.t) (page : Page.t) :
  extractGenerateSEOParams (content doc) = Some params →
  evaluator params = Some seoOutput →
  SeoOutput.script seoOutput = Some (Graph items) →
  (∃ item, item ∈ items ∧ truthy (GraphItem.type item) = true) →
  runWith evaluator (checkPageSEO doc) = Returns (Some page) →
  Page.hasGenerateSEO page = true →
  Page.schemas page = graphSchemas items
  ∧ length (Page.schemas page)
    = length (filter (λ item, truthy (GraphItem.type item) = true) items).
Proof.
  intros Hparams Hout Hscript (item & Hitem & Htyped) Hrun Hcall.
  assert (Page.schemas page = graphSchemas items) as ->.
  2:{ split; [done|]. unfold graphSchemas. by rewrite length_fmap. }
  revert Hrun. unfold checkPageSEO. destruct (existsb _ ignorePaths); [done|].
  destruct (includes (content doc) (str "generateSEO(")) eqn:Hinc.
  - rewrite Hparams. cbn [runWith]. rewrite Hout. cbn [schemasOf]. rewrite Hscript.
    unfold pageRecord.
    destruct (checkMetaTags (content doc) (Some seoOutput)); [|done].
    cbn [exn_bind].
    destruct (checkHeadingStructure (content doc)); [|done]. cbn [exn_bind].
    intros [= <-]. cbn [Page.schemas].
    apply legacySchemas_nonempty. unfold graphSchemas. rewrite length_fmap.
    assert (item ∈ filter (λ item, truthy (GraphItem.type item) = true) items) as Hin
      by (by apply list_elem_of_filter).
    destruct (filter _ items); [by apply elem_of_nil in Hin|simpl; lia].
  - cbn [runWith]. unfold pageRecord.
    destruct (checkMetaTags (content doc) None); [|done]. cbn [exn_bind].
    destruct (checkHeadingStructure (content doc)); [|done]. cbn [exn_bind].
    intros [= <-]. cbn [Page.hasGenerateSEO] in Hcall. congruence.
Qed.

(** A graph with a page type and three questions, on a page whose call
    names products. *)
Lemma evaluated_schemas_witness :
  ∃ page,
    runWith (answering graphHead) (checkPageSEO breadcrumbPage)
      = Returns (Some page)
    ∧ Page.schemas page = [str "WebPage"; str "FAQPage (3 FAQs)"].
Proof.
  eexists. split; [vm_compute; reflexivity|].
  etrans.
  - unshelve eapply
      (proj1 (evaluated_schemas (answering graphHead) breadcrumbPage _ graphHead
                _ _ _ _ _ _ _ _)); cycle 2.
    + vm_compute. reflexivity.
    + reflexivity.
    + reflexivity.
    + eexists. split; [apply list_elem_of_here|reflexivity].
    + vm_compute. reflexivity.
    + vm_compute. reflexivity.
  - vm_compute. reflexivity.
Defined.

(** ** Two more instances *)

(** The headings of a template with a first and a third level. *)
Lemma checkHeadingStructure_returns_witness :
  ∃ info, checkHeadingStructure skippingPage = Returns info
    ∧ Forall (λ level, 1 ≤ level ≤ 6) (HeadingInfo.headings info)
    ∧ length (HeadingInfo.issues info) ≤ 2.
Proof.
  destruct (checkHeadingStructure_returns skippingPage)
    as (info & Hinfo & Hlevels & Hissues & _).
  exists info. split; [exact Hinfo|]. split; [exact Hlevels|exact Hissues].
Defined.

(** The run over a page whose image is named [constructor]. *)
Lemma main_throws_witness :
  runWith unavailable (main [homePage; constructorPage] [] None) = Throws.
Proof.
  apply (main_throws unavailable [homePage; constructorPage] [] None).
  eexists _, (str "constructor"). split_and!.
  - vm_compute. apply list_elem_of_further, list_elem_of_here.
  - split; vm_compute; reflexivity.
  - vm_compute. apply list_elem_of_here.
Defined.
